(** * The comm generator: OpenRPC contracts to TypeScript, Rust and Python

    A shallow embedding of the code generator that reads the
    [<name>-frontend-openrpc.json] / [<name>-backend-openrpc.json] contracts
    and renders bindings for three targets, together with the properties its
    specification states about it.

    Conventions of the embedding.
    - A JavaScript string is a [string]; every character stands for one code
      unit (the generator only inspects ASCII characters).
    - A JavaScript value (the result of [JSON.parse], or [undefined]) is a
      [value]; numbers are integers.
    - A function that may throw returns a [result]; a generator returns the
      concatenation of the chunks it yields, or the exception that stops it
      (the consumer appends every chunk to one string and drops that string
      when the generator throws). *)

From Stdlib Require Import String Ascii List ZArith Lia Bool Arith DecimalString.
From stdpp Require Import base strings gmap.
Import ListNotations.

Set Warnings "-register-all".

Local Open Scope string_scope.
Local Open Scope list_scope.

(** ** Characters and text constants *)

Definition nl : string := String "010"%char "".
Definition tab : string := String "009"%char "".
Definition dq : string := String "034"%char "".

(** ** Exceptions *)

(** [new Error(msg)] thrown by the generator itself, the [TypeError] the
    JavaScript runtime raises (a property read on [null] or [undefined], a
    call of something that is not a function, iteration over a value that is
    not iterable), and the [SyntaxError] of [JSON.parse]. *)
Inductive exn : Type :=
| Error (msg : string)
| TypeError
| SyntaxError.

Inductive result (A : Type) : Type :=
| Ok (a : A)
| Throw (e : exn).
Arguments Ok {A} a.
Arguments Throw {A} e.

Definition bind {A B : Type} (r : result A) (k : A -> result B) : result B :=
  match r with
  | Ok a => k a
  | Throw e => Throw e
  end.

Notation "'let*' x ':=' r 'in' k" := (bind r (fun x => k))
  (at level 10, x name, r at level 100, k at level 200).

(** ** The naming transformer *)

Definition isLower (c : ascii) : bool :=
  (97 <=? nat_of_ascii c)%nat && (nat_of_ascii c <=? 122)%nat.

(** [c.toUpperCase()] for one character matched by [[a-z]]. *)
Definition toUpperCase (c : ascii) : ascii :=
  if isLower c then ascii_of_nat (nat_of_ascii c - 32) else c.

(** [s.replace(/c/g, by)] for a one-character pattern. *)
Fixpoint replaceAll (c : ascii) (by_ : string) (s : string) : string :=
  match s with
  | EmptyString => EmptyString
  | String d r =>
      if Ascii.eqb d c then by_ +:+ replaceAll c by_ r
      else String d (replaceAll c by_ r)
  end.

(** [s.replace(/_([a-z])/g, (m) => m[1].toUpperCase())]: scanning from the
    left, an underscore immediately followed by a lower-case letter is
    replaced, with that letter, by the upper-cased letter; the scan resumes
    after the letter. *)
Fixpoint replaceUnderscoreLower (s : string) : string :=
  match s with
  | EmptyString => EmptyString
  | String c r =>
      if Ascii.eqb c "_" then
        match r with
        | String d r' =>
            if isLower d then String (toUpperCase d) (replaceUnderscoreLower r')
            else String c (replaceUnderscoreLower r)
        | EmptyString => String c EmptyString
        end
      else String c (replaceUnderscoreLower r)
  end.

(** The first four statements of [snakeCaseToCamelCase]. *)
Definition escapeComparison (name : string) : string :=
  let name := replaceAll "=" "Eq" name in
  let name := replaceAll "!" "Not" name in
  let name := replaceAll "<" "Lt" name in
  replaceAll ">" "Gt" name.

Definition snakeCaseToCamelCase (name : string) : string :=
  replaceUnderscoreLower (escapeComparison name).

(** [s.replace(/^[a-z]/, (m) => m[0].toUpperCase())]. *)
Definition upperFirst (s : string) : string :=
  match s with
  | EmptyString => EmptyString
  | String c r => if isLower c then String (toUpperCase c) r else s
  end.

Definition snakeCaseToSentenceCase (name : string) : string :=
  upperFirst (snakeCaseToCamelCase name).

(** The transformer as the specification words it: after the comparison
    characters are replaced, every underscore is removed and the character
    that follows it is upper-cased. *)
Fixpoint dropUnderscores (up : bool) (s : string) : string :=
  match s with
  | EmptyString => EmptyString
  | String c r =>
      if Ascii.eqb c "_" then dropUnderscores true r
      else String (if up then toUpperCase c else c) (dropUnderscores false r)
  end.

Definition toCamel_spec (name : string) : string :=
  dropUnderscores false (escapeComparison name).

Definition toPascal_spec (name : string) : string :=
  upperFirst (toCamel_spec name).

(** The underscore pass as one scan that holds an underscore back until the
    next character is read: a lower-case letter takes its place, upper-cased;
    anything else, or the end of the text, lets the underscore through. *)
Fixpoint scanUnderscores (held : bool) (s : string) : string :=
  match s with
  | EmptyString => if held then "_" else EmptyString
  | String c r =>
      let next :=
        if Ascii.eqb c "_" then scanUnderscores true r
        else String c (scanUnderscores false r) in
      if held then
        if isLower c then String (toUpperCase c) (scanUnderscores false r)
        else String "_" next
      else next
  end.

Definition toCamel_amended (name : string) : string :=
  scanUnderscores false (escapeComparison name).

(** Every underscore of [s] is immediately followed by a lower-case letter. *)
Fixpoint underscoresLead (s : string) : bool :=
  match s with
  | EmptyString => true
  | String c r =>
      if Ascii.eqb c "_" then
        match r with
        | String d _ => isLower d && underscoresLead r
        | EmptyString => false
        end
      else underscoresLead r
  end.

(** ** Comment wrapping *)

(** [s.split(sep)] for a one-character separator: never empty. *)
Fixpoint split (sep : ascii) (s : string) : list string :=
  match s with
  | EmptyString => [EmptyString]
  | String c r =>
      if Ascii.eqb c sep then EmptyString :: split sep r
      else match split sep r with
           | w :: ws => String c w :: ws
           | [] => [String c EmptyString]
           end
  end.

(** [lines.join(sep)]. *)
Fixpoint join (sep : string) (l : list string) : string :=
  match l with
  | [] => EmptyString
  | [x] => x
  | x :: r => x +:+ sep +:+ join sep r
  end.

(** One turn of the loop of [formatLines] over the state
    [(lines, currentLine)]. *)
Definition formatLines_step (st : list string * string) (word : string)
  : list string * string :=
  let '(lines, currentLine) := st in
  if (70 <? String.length currentLine + String.length word + 1)%nat then
    (lines ++ [currentLine], word)
  else
    let currentLine :=
      if (0 <? String.length currentLine)%nat then currentLine +:+ " "
      else currentLine in
    (lines, currentLine +:+ word).

Definition formatLines (line : string) : list string :=
  let '(lines, currentLine) :=
    fold_left formatLines_step (split " " line) ([], EmptyString) in
  lines ++ [currentLine].

Definition formatComment (leader : string) (comment : string) : string :=
  fold_left (fun result line => result +:+ leader +:+ line +:+ nl)
            (formatLines comment) EmptyString.

(** The words of a text that carry characters. *)
Definition nonEmpty (w : string) : bool :=
  negb (String.eqb w EmptyString).

Definition wordsOf (s : string) : list string :=
  List.filter nonEmpty (split " " s).

Fixpoint noDoubleSpace (s : string) : bool :=
  match s with
  | EmptyString => true
  | String c r =>
      match r with
      | String d _ =>
          negb (Ascii.eqb c " " && Ascii.eqb d " ") && noDoubleSpace r
      | EmptyString => true
      end
  end.

Definition startsWithSpace (s : string) : bool :=
  match s with
  | String c _ => Ascii.eqb c " "
  | EmptyString => false
  end.

Definition firstWord (s : string) : string :=
  hd EmptyString (split " " s).

(** ** JavaScript values *)

(** What [JSON.parse] returns, and [undefined]. The members of an object are
    kept in the order [Object.keys] lists them, one entry per key. A number
    is an integer of magnitude below 2^53, which [String] renders by its
    decimal digits; fractions and larger numbers are not modelled. *)
Inductive value : Type :=
| VUndefined
| VNull
| VBool (b : bool)
| VNum (n : Z)
| VStr (s : string)
| VArr (items : list value)
| VObj (members : list (string * value)).

Fixpoint assoc {A : Type} (k : string) (l : list (string * A)) : option A :=
  match l with
  | [] => None
  | (k', v) :: l' => if String.eqb k' k then Some v else assoc k l'
  end.

(** [if (v)]. *)
Definition truthy (v : value) : bool :=
  match v with
  | VUndefined | VNull => false
  | VBool b => b
  | VNum n => negb (n =? 0)%Z
  | VStr s => nonEmpty s
  | VArr _ | VObj _ => true
  end.

(** [v === 'lit']. *)
Definition isStr (v : value) (lit : string) : bool :=
  match v with
  | VStr s => String.eqb s lit
  | _ => false
  end.

(** [members[name]] of an object: [undefined] without the member. *)
Definition member (name : string) (members : list (string * value)) : value :=
  match assoc name members with
  | Some x => x
  | None => VUndefined
  end.

(** [v.name] for one of the member names the generator reads ([type],
    [enum], [name], ...): a [TypeError] on [null] and [undefined],
    [undefined] on a value that has no such member. *)
Definition prop (v : value) (name : string) : result value :=
  match v with
  | VUndefined | VNull => Throw TypeError
  | VObj members => Ok (member name members)
  | _ => Ok VUndefined
  end.

(** The decimal numeral of an index. *)
Definition indexKey (i : nat) : string :=
  NilEmpty.string_of_uint (Nat.to_uint i).

Definition chars (s : string) : list value :=
  map (fun c => VStr (String c EmptyString)) (list_ascii_of_string s).

Definition indexed (l : list value) : list (string * value) :=
  combine (map indexKey (seq 0 (length l))) l.

(** The own enumerable members of a value, by key: what [Object.keys(v)]
    lists and [v[key]] then reads. *)
Definition ownMembers (v : value) : result (list (string * value)) :=
  match v with
  | VUndefined | VNull => Throw TypeError
  | VObj members => Ok members
  | VArr items => Ok (indexed items)
  | VStr s => Ok (indexed (chars s))
  | VBool _ | VNum _ => Ok []
  end.

(** [for (const x of v)]. *)
Definition iterate (v : value) : result (list value) :=
  match v with
  | VArr items => Ok items
  | VStr s => Ok (chars s)
  | _ => Throw TypeError
  end.

(** The elements an index loop [for (i = 0; i < v.length; i++) v[i]] reads.
    An object takes part through an integer [length] member (other
    [length] members would be coerced to a number, which is not modelled). *)
Definition elements (v : value) : result (list value) :=
  match v with
  | VUndefined | VNull => Throw TypeError
  | VArr items => Ok items
  | VStr s => Ok (chars s)
  | VObj members =>
      match assoc "length" members with
      | Some (VNum n) =>
          Ok (map (fun i => member (indexKey i) members) (seq 0 (Z.to_nat n)))
      | _ => Ok []
      end
  | VBool _ | VNum _ => Ok []
  end.

Definition decimal (n : Z) : string :=
  NilEmpty.string_of_int (Z.to_int n).

(** [String(v)], as template literals and [+] apply it. *)
Fixpoint toString (v : value) : string :=
  match v with
  | VUndefined => "undefined"
  | VNull => "null"
  | VBool true => "true"
  | VBool false => "false"
  | VNum n => decimal n
  | VStr s => s
  | VArr items =>
      join "," (map (fun x => match x with
                              | VUndefined | VNull => EmptyString
                              | _ => toString x
                              end) items)
  | VObj _ => "[object Object]"
  end.

(** [needle] occurs in [hay]. *)
Fixpoint includesStr (needle hay : string) : bool :=
  String.prefix needle hay ||
  match hay with
  | String _ r => includesStr needle r
  | EmptyString => false
  end.

(** [v.includes(key)] for a string [key]. *)
Definition includes (v : value) (key : string) : result bool :=
  match v with
  | VArr items => Ok (existsb (fun x => isStr x key) items)
  | VStr s => Ok (includesStr key s)
  | _ => Throw TypeError
  end.

(** [snakeCaseToSentenceCase(v)] and [snakeCaseToCamelCase(v)] on a value
    that need not be a string: [v.replace] is a function only on a string. *)
Definition sentenceCase (v : value) : result string :=
  match v with
  | VStr s => Ok (snakeCaseToSentenceCase s)
  | _ => Throw TypeError
  end.

Definition camelCase (v : value) : result string :=
  match v with
  | VStr s => Ok (snakeCaseToCamelCase s)
  | _ => Throw TypeError
  end.

(** [formatComment(leader, v)]: [v.split] is a function only on a string. *)
Definition formatCommentV (leader : string) (v : value) : result string :=
  match v with
  | VStr s => Ok (formatComment leader s)
  | _ => Throw TypeError
  end.

(** ** Generators *)

(** A generator is run to its end by its one consumer, which appends the
    chunks; it is modelled by the text it produces. *)
Definition gen : Type := result string.

Definition yield (chunk : string) : gen := Ok chunk.

Definition andThen (a b : gen) : gen :=
  let* x := a in let* y := b in Ok (x +:+ y).

(** Statements of a generator body, in order. *)
Definition seqG (body : list gen) : gen :=
  fold_right andThen (Ok EmptyString) body.

(** A loop whose body yields. *)
Definition forG {A : Type} (l : list A) (body : A -> gen) : gen :=
  (fix each (l : list A) : gen :=
     match l with
     | [] => Ok EmptyString
     | x :: l' => andThen (body x) (each l')
     end) l.

(** An index loop whose body is told whether [i < l.length - 1] fails. *)
Definition forLast {A : Type} (l : list A) (body : A -> bool -> gen) : gen :=
  (fix each (l : list A) : gen :=
     match l with
     | [] => Ok EmptyString
     | x :: l' =>
         andThen (body x (match l' with [] => true | _ => false end)) (each l')
     end) l.

(** [if (c) { body }]. *)
Definition when (c : bool) (body : gen) : gen :=
  if c then body else Ok EmptyString.

(** Run [body] on the member [name] of [members], or [missing] without it. *)
Definition withMember {B : Type} (name : string) (members : list (string * value))
  (body : value -> B) (missing : B) : B :=
  (fix find (l : list (string * value)) : B :=
     match l with
     | [] => missing
     | (k, v) :: l' => if String.eqb k name then body v else find l'
     end) members.

(** ** The type tables *)

Definition TypescriptTypeMap : list (string * string) :=
  [("boolean", "boolean"); ("integer", "number"); ("number", "number");
   ("string", "string"); ("null", "null"); ("array-begin", "Array<");
   ("array-end", ">"); ("object", "object")].

Definition RustTypeMap : list (string * string) :=
  [("boolean", "bool"); ("integer", "i64"); ("number", "f64");
   ("string", "String"); ("null", "null"); ("array-begin", "Vec<");
   ("array-end", ">"); ("object", "HashMap")].

Definition PythonTypeMap : list (string * string) :=
  [("boolean", "bool"); ("integer", "int"); ("number", "float");
   ("string", "str"); ("null", "null"); ("array-begin", "List[");
   ("array-end", "]"); ("object", "Dict")].

(** [typeMap[key]] for a key of the table; [undefined] renders as text. *)
Definition entry (typeMap : list (string * string)) (key : string) : string :=
  match assoc key typeMap with
  | Some t => t
  | None => "undefined"
  end.

(** The text of a built-in function, as a template literal renders it. *)
Definition nativeFunction (name : string) : string :=
  "function " +:+ name +:+ "() { [native code] }".

(** What a table inherits from [Object.prototype], as text. *)
Definition inheritedMembers : list (string * string) :=
  [("constructor", nativeFunction "Object");
   ("__defineGetter__", nativeFunction "__defineGetter__");
   ("__defineSetter__", nativeFunction "__defineSetter__");
   ("hasOwnProperty", nativeFunction "hasOwnProperty");
   ("__lookupGetter__", nativeFunction "__lookupGetter__");
   ("__lookupSetter__", nativeFunction "__lookupSetter__");
   ("isPrototypeOf", nativeFunction "isPrototypeOf");
   ("propertyIsEnumerable", nativeFunction "propertyIsEnumerable");
   ("toString", nativeFunction "toString");
   ("valueOf", nativeFunction "valueOf");
   ("__proto__", "[object Object]");
   ("toLocaleString", nativeFunction "toLocaleString")].

(** [typeMap[key]] for any key: a key that is not in the table is looked
    up in what the table inherits. *)
Definition inheritedEntry (typeMap : list (string * string)) (key : string) : string :=
  match assoc key typeMap with
  | Some t => t
  | None => entry inheritedMembers key
  end.

(** ** The reference resolver *)

(** The loop of [parseRefFromContract]: [true] when every part is found. *)
Fixpoint walk (parts : list string) (target : value) : result bool :=
  match parts with
  | [] => Ok true
  | part :: rest =>
      if String.eqb part "#" then walk rest target
      else
        let* members := ownMembers target in
        match assoc part members with
        | Some next => walk rest next
        | None => Ok false
        end
  end.

(** [None] is the [undefined] the function returns. *)
Definition parseRefFromContract (ref : value) (contract : value)
  : result (option string) :=
  match ref with
  | VStr ref =>
      let parts := split "/" ref in
      let* found := walk parts contract in
      if found then Ok (Some (snakeCaseToSentenceCase (List.last parts EmptyString)))
      else Ok None
  | _ => Throw TypeError
  end.

Fixpoint parseRef (ref : value) (contracts : list value) : result string :=
  match contracts with
  | [] => Throw (Error ("Could not find ref: " +:+ toString ref))
  | contract :: rest =>
      if negb (truthy contract) then parseRef ref rest
      else
        let* name := parseRefFromContract ref contract in
        match name with
        | Some name => if nonEmpty name then Ok name else parseRef ref rest
        | None => parseRef ref rest
        end
  end.

(** ** The type deriver *)

Fixpoint deriveType (contracts : list value) (typeMap : list (string * string))
  (key : value) (schema : value) : result string :=
  match schema with
  | VUndefined | VNull => Throw TypeError
  | VObj members =>
      let type := member "type" members in
      let ref := member "$ref" members in
      let name := member "name" members in
      if isStr type "array" then
        let* items := withMember "items" members
                        (deriveType contracts typeMap key) (Throw TypeError) in
        Ok (entry typeMap "array-begin" +:+ items +:+ entry typeMap "array-end")
      else if truthy ref then parseRef ref contracts
      else if isStr type "object" then
        if truthy name then sentenceCase name else sentenceCase key
      else
        match type with
        | VStr t =>
            match assoc t typeMap with
            | Some target => Ok target
            | None => Throw (Error ("Unknown type: " +:+ t))
            end
        | _ => Throw (Error ("Unknown type: " +:+ toString type))
        end
  | VBool _ | VNum _ | VStr _ | VArr _ =>
      Throw (Error "Unknown type: undefined")
  end.

(** ** The visitors *)

Definition callback : Type := list value -> value -> gen.

Fixpoint enumVisitor (context : list value) (contract : value) (cb : callback)
  : gen :=
  match contract with
  | VUndefined | VNull => Throw TypeError
  | VObj members =>
      let enum := member "enum" members in
      let name := member "name" members in
      if truthy enum then cb context enum
      else
        forG members (fun m =>
          let '(key, child) := m in
          if truthy name then enumVisitor (name :: context) child cb
          else if String.eqb key "properties" || String.eqb key "params" then
            enumVisitor context child cb
          else enumVisitor (VStr key :: context) child cb)
  | VArr items => forG items (fun item => enumVisitor context item cb)
  | VBool _ | VNum _ | VStr _ => Ok EmptyString
  end.

Fixpoint objectVisitor (context : list value) (contract : value) (cb : callback)
  : gen :=
  match contract with
  | VUndefined | VNull => Throw TypeError
  | VObj members =>
      let type := member "type" members in
      if isStr type "object" then
        andThen (cb context contract)
                (withMember "properties" members
                   (fun properties => objectVisitor context properties cb)
                   (Throw TypeError))
      else
        forG members (fun m =>
          let '(key, child) := m in
          if String.eqb key "schema" then objectVisitor context child cb
          else objectVisitor (VStr key :: context) child cb)
  | VArr items => forG items (fun item => objectVisitor context item cb)
  | VBool _ | VNum _ | VStr _ => Ok EmptyString
  end.

(** ** The emitters *)

(** [v.length > 0]. *)
Definition hasElements (v : value) : result bool :=
  let* l := elements v in
  Ok (match l with [] => false | _ => true end).

(** [v === true]. *)
Definition isTrue (v : value) : bool :=
  match v with
  | VBool true => true
  | _ => false
  end.

(** [context[i]]. *)
Definition at_ (context : list value) (i : nat) : value :=
  nth i context VUndefined.

(** [o.name ? o.name : context[0] === 'items' ? context[1] : context[0]],
    as each of the three object callbacks computes it. *)
Definition rustObjectName (context : list value) (o : value) : result value :=
  let* name := prop o "name" in
  Ok (if truthy name then name
      else if isStr (at_ context 0) "items" then at_ context 1
      else at_ context 0).

Definition pythonObjectName (context : list value) (o : value) : result value :=
  let* name := prop o "name" in
  Ok (if truthy name then name
      else if isStr (at_ context 0) "items" then at_ context 1
      else at_ context 0).

Definition typescriptObjectName (context : list value) (o : value) : result value :=
  let* name := prop o "name" in
  Ok (if truthy name then name
      else if isStr (at_ context 0) "items" then at_ context 1
      else at_ context 0).

(** The identifier of an enum, [Pascal(context[1]) + Pascal(context[0])], as
    each of the three enum callbacks computes it. *)
Definition rustEnumName (context : list value) : result string :=
  let* owner := sentenceCase (at_ context 1) in
  let* field := sentenceCase (at_ context 0) in
  Ok (owner +:+ field).

Definition pythonEnumName (context : list value) : result string :=
  let* owner := sentenceCase (at_ context 1) in
  let* field := sentenceCase (at_ context 0) in
  Ok (owner +:+ field).

Definition typescriptEnumName (context : list value) : result string :=
  let* owner := sentenceCase (at_ context 1) in
  let* field := sentenceCase (at_ context 0) in
  Ok (owner +:+ field).

(** [snakeCaseToSentenceCase(context[0]) + ' in ' +
    snakeCaseToSentenceCase(context[1])]. *)
Definition inContext (context : list value) : result string :=
  let* field := sentenceCase (at_ context 0) in
  let* owner := sentenceCase (at_ context 1) in
  Ok (field +:+ " in " +:+ owner).

(** [!o.required || !o.required.includes(key)]. *)
Definition isOptional (o : value) (key : string) : result bool :=
  let* required := prop o "required" in
  if negb (truthy required) then Ok true
  else let* listed := includes required key in Ok (negb listed).

Definition rustDerive : string :=
  "#[derive(Debug, Serialize, Deserialize, PartialEq)]" +:+ nl.

Section Emitters.

(** The year the generator runs in, as [${year}] renders it. *)
Variable year : string.

(** *** Rust *)

Definition rustHeader (name : string) : string :=
  "/*---------------------------------------------------------------------------------------------" +:+ nl +:+
  " *  Copyright (C) " +:+ year +:+ " Posit Software, PBC. All rights reserved." +:+ nl +:+
  " *--------------------------------------------------------------------------------------------*/" +:+ nl +:+
  nl +:+
  "//" +:+ nl +:+
  "// AUTO-GENERATED from " +:+ name +:+ ".json; do not edit." +:+ nl +:+
  "//" +:+ nl +:+
  nl +:+
  "use serde::Deserialize;" +:+ nl +:+
  "use serde::Serialize;" +:+ nl +:+
  nl.

(** The type aliases written while [source] is visited: the guard reads
    [source], the loop reads [backend]. *)
Definition rustAliases (contracts : list value) (source backend : value) : gen :=
  let* components := prop source "components" in
  let* declared :=
    (if truthy components then
       let* schemas := prop components "schemas" in Ok (truthy schemas)
     else Ok false) in
  when declared
    (let* components := prop backend "components" in
     let* schemas := prop components "schemas" in
     let* entries := ownMembers schemas in
     forG entries (fun e =>
       let '(key, schema) := e in
       let* type := prop schema "type" in
       when (negb (isStr type "object"))
         (seqG [
            (let* description := prop schema "description" in
             formatCommentV "/// " description);
            yield ("type " +:+ snakeCaseToSentenceCase key +:+ " = ");
            (let* name := prop schema "name" in
             deriveType contracts RustTypeMap
               (if truthy name then name else VStr key) schema);
            yield (";" +:+ nl +:+ nl) ]))).

Definition rustObject (contracts : list value) : callback :=
  fun context o =>
    let* description := prop o "description" in
    let* comment :=
      (if truthy description then formatCommentV "/// " description
       else let* text := inContext context in Ok (formatComment "/// " text)) in
    let* name := rustObjectName context o in
    let* properties := prop o "properties" in
    let* props := ownMembers properties in
    let* additionalProperties := prop o "additionalProperties" in
    if match props with [] => isTrue additionalProperties | _ => false end then
      let* name := sentenceCase name in
      Ok (comment +:+ "pub type " +:+ name +:+ " = serde_json::Value;" +:+ nl +:+ nl)
    else
      seqG [
        yield comment;
        yield rustDerive;
        (let* name := sentenceCase name in
         yield ("pub struct " +:+ name +:+ " {" +:+ nl));
        forLast props (fun p isLast =>
          let '(key, prop_) := p in
          seqG [
            (let* description := prop prop_ "description" in
             if truthy description then
               formatCommentV (tab +:+ "/// ") description
             else Ok EmptyString);
            yield (tab +:+ "pub " +:+ key +:+ ": ");
            (let* optional := isOptional o key in
             let* type := deriveType contracts RustTypeMap (VStr key) prop_ in
             if optional then yield ("Option<" +:+ type +:+ ">") else yield type);
            when (negb isLast) (yield ("," +:+ nl));
            yield nl ]);
        yield ("}" +:+ nl +:+ nl) ].

Definition rustEnum : callback :=
  fun context values =>
    seqG [
      (let* text := inContext context in
       Ok (formatComment "/// " ("Possible values for " +:+ text)));
      yield rustDerive;
      (let* name := rustEnumName context in
       yield ("pub enum " +:+ name +:+ " {" +:+ nl));
      (let* values := elements values in
       forLast values (fun value isLast =>
         seqG [
           yield (tab +:+ "#[serde(rename = " +:+ dq +:+ toString value +:+ dq +:+ ")]" +:+ nl);
           (let* member := sentenceCase value in yield (tab +:+ member));
           yield (if isLast then nl else "," +:+ nl +:+ nl) ]));
      yield ("}" +:+ nl +:+ nl) ].

(** The parameter struct of one method. *)
Definition rustParams (contracts : list value) (method : value) : gen :=
  let* params := prop method "params" in
  let* some := hasElements params in
  when some
    (let* methodName := prop method "name" in
     seqG [
       (let* m := sentenceCase methodName in
        Ok (formatComment "/// " ("Parameters for the " +:+ m +:+ " method.")));
       yield rustDerive;
       (let* m := sentenceCase methodName in
        yield ("pub struct " +:+ m +:+ "Params {" +:+ nl));
       (let* params := elements params in
        forLast params (fun param isLast =>
          let* description := prop param "description" in
          let* comment :=
            (if truthy description then
               formatCommentV (tab +:+ "/// ") description
             else Ok EmptyString) in
          let* schema := prop param "schema" in
          let* enum := prop schema "enum" in
          let* paramName := prop param "name" in
          let* field :=
            (if truthy enum then
               let* m := sentenceCase methodName in
               let* p := sentenceCase paramName in
               Ok (tab +:+ "pub " +:+ toString paramName +:+ ": " +:+ m +:+ p +:+ "," +:+ nl)
             else
               let* type := prop schema "type" in
               let* any :=
                 (if isStr type "object" then
                    let* properties := prop schema "properties" in
                    let* keys := ownMembers properties in
                    Ok (match keys with [] => true | _ => false end)
                  else Ok false) in
               if any then
                 Ok (tab +:+ "pub " +:+ toString paramName +:+ ": serde_json::Value," +:+ nl)
               else
                 let* t := deriveType contracts RustTypeMap paramName schema in
                 Ok (tab +:+ "pub " +:+ toString paramName +:+ ": " +:+ t +:+ "," +:+ nl)) in
          Ok (comment +:+ field +:+ (if isLast then EmptyString else nl))));
       yield ("}" +:+ nl +:+ nl) ]).

(** One variant of the request enum, and of the event enum. *)
Definition rustVariant (method : value) : gen :=
  let* methodName := prop method "name" in
  seqG [
    yield (tab +:+ "#[serde(rename = " +:+ dq +:+ toString methodName +:+ dq +:+ ")]" +:+ nl);
    (let* m := sentenceCase methodName in yield (tab +:+ m));
    (let* params := prop method "params" in
     let* some := hasElements params in
     if some then
       let* m := sentenceCase methodName in
       yield ("(" +:+ m +:+ "Params)," +:+ nl +:+ nl)
     else yield ("," +:+ nl +:+ nl)) ].

Definition rustRequest (method : value) : gen :=
  seqG [
    (let* summary := prop method "summary" in
     when (truthy summary)
       (seqG [
          formatCommentV (tab +:+ "/// ") summary;
          (let* description := prop method "description" in
           when (truthy description)
             (seqG [ yield (tab +:+ "///" +:+ nl);
                     formatCommentV (tab +:+ "/// ") description ])) ]));
    rustVariant method ].

Definition rustReply (method : value) : gen :=
  let* result := prop method "result" in
  let* schema := prop result "schema" in
  when (truthy schema)
    (seqG [
       (let* description := prop schema "description" in
        when (truthy description)
          (formatCommentV (tab +:+ "/// ") description));
       (let* methodName := prop method "name" in
        let* m := sentenceCase methodName in
        yield (tab +:+ m +:+ "Reply"));
       (let* type := prop schema "type" in
        if isStr type "object" then
          let* name := prop schema "name" in
          let* n := sentenceCase name in
          yield ("(" +:+ n +:+ ")," +:+ nl +:+ nl)
        else
          yield ("(" +:+ inheritedEntry RustTypeMap (toString type) +:+ ")," +:+ nl +:+ nl)) ]).

Definition createRustComm (name : string) (frontend backend : value) : gen :=
  let contracts := [backend; frontend] in
  seqG [
    yield (rustHeader name);
    forG contracts (fun source =>
      when (truthy source)
        (seqG [
           rustAliases contracts source backend;
           objectVisitor [] source (rustObject contracts);
           enumVisitor [] source rustEnum ]));
    forG [backend; frontend] (fun source =>
      when (truthy source)
        (let* methods := prop source "methods" in
         let* methods := iterate methods in
         forG methods (rustParams contracts)));
    when (truthy backend)
      (seqG [
         yield ("/**" +:+ nl);
         yield (" * RPC request types for the " +:+ name +:+ " comm" +:+ nl);
         yield (" */" +:+ nl);
         yield rustDerive;
         yield ("#[serde(tag = " +:+ dq +:+ "method" +:+ dq +:+ ", content = " +:+ dq +:+ "params" +:+ dq +:+ ")]" +:+ nl);
         yield ("pub enum " +:+ snakeCaseToSentenceCase name +:+ "RpcRequest {" +:+ nl);
         (let* methods := prop backend "methods" in
          let* methods := iterate methods in
          forG methods rustRequest);
         yield ("}" +:+ nl +:+ nl);
         yield ("/**" +:+ nl);
         yield (" * RPC Reply types for the " +:+ name +:+ " comm" +:+ nl);
         yield (" */" +:+ nl);
         yield rustDerive;
         yield ("#[serde(tag = " +:+ dq +:+ "method" +:+ dq +:+ ", content = " +:+ dq +:+ "result" +:+ dq +:+ ")]" +:+ nl);
         yield ("pub enum " +:+ snakeCaseToSentenceCase name +:+ "RpcReply {" +:+ nl);
         (let* methods := prop backend "methods" in
          let* methods := iterate methods in
          forG methods rustReply);
         yield ("}" +:+ nl +:+ nl) ]);
    when (truthy frontend)
      (seqG [
         yield ("/**" +:+ nl);
         yield (" * Front-end events for the " +:+ name +:+ " comm" +:+ nl);
         yield (" */" +:+ nl);
         yield rustDerive;
         yield ("#[serde(tag = " +:+ dq +:+ "method" +:+ dq +:+ ", content = " +:+ dq +:+ "params" +:+ dq +:+ ")]" +:+ nl);
         yield ("pub enum " +:+ snakeCaseToSentenceCase name +:+ "Event {" +:+ nl);
         (let* methods := prop frontend "methods" in
          let* methods := iterate methods in
          forG methods rustVariant);
         yield ("}" +:+ nl +:+ nl) ]) ].

(** *** Python *)

Definition tq : string := dq +:+ dq +:+ dq.

Definition pythonHeader (name : string) : string :=
  "#" +:+ nl +:+
  "# Copyright (C) " +:+ year +:+ " Posit Software, PBC. All rights reserved." +:+ nl +:+
  "#" +:+ nl +:+
  nl +:+
  "#" +:+ nl +:+
  "# AUTO-GENERATED from " +:+ name +:+ ".json; do not edit." +:+ nl +:+
  "#" +:+ nl +:+
  nl +:+
  "import enum" +:+ nl +:+
  "from dataclasses import dataclass, field" +:+ nl +:+
  "from typing import Dict, List, Union" +:+ nl +:+
  "JsonData = Union[Dict[str, " +:+ dq +:+ "JsonData" +:+ dq +:+ "], List[" +:+ dq +:+ "JsonData" +:+ dq +:+ "], str, int, float, bool, None]" +:+ nl +:+
  nl.

(** The [field(metadata={...})] text after a field or parameter type. *)
Definition pythonField (description : value) (comma : bool) (optional : bool) : string :=
  " = field(" +:+ nl +:+
  "        metadata={" +:+ nl +:+
  "            " +:+ dq +:+ "description" +:+ dq +:+ ": " +:+ dq +:+ toString description +:+ dq +:+
    (if comma then "," else EmptyString) +:+ nl +:+
  (if optional then "            " +:+ dq +:+ "default" +:+ dq +:+ ": None," +:+ nl else EmptyString) +:+
  "        }" +:+ nl +:+
  "    )" +:+ nl +:+ nl.

Definition pythonObject (contracts : list value) : callback :=
  fun context o =>
    let* name := pythonObjectName context o in
    let* name := sentenceCase name in
    let* properties := prop o "properties" in
    let* props := ownMembers properties in
    let* additionalProperties := prop o "additionalProperties" in
    if match props with [] => isTrue additionalProperties | _ => false end then
      yield (name +:+ " = JsonData" +:+ nl)
    else
      seqG [
        yield ("@dataclass" +:+ nl);
        yield ("class " +:+ name +:+ ":" +:+ nl);
        (let* description := prop o "description" in
         let* comment :=
           (if truthy description then formatCommentV "    " description
            else let* text := inContext context in Ok (formatComment "    " text)) in
         yield ("    " +:+ tq +:+ nl +:+ comment +:+ "    " +:+ tq +:+ nl +:+ nl));
        forG props (fun p =>
          let '(key, schema) := p in
          let* optional := isOptional o key in
          let* type := deriveType contracts PythonTypeMap (VStr key) schema in
          let* description := prop schema "description" in
          yield ("    " +:+ key +:+ ": " +:+
                 (if optional then "Optional[" +:+ type +:+ "]" else type) +:+
                 pythonField description true optional));
        yield (nl +:+ nl) ].

Definition pythonEnum : callback :=
  fun context values =>
    seqG [
      yield ("@enum.unique" +:+ nl);
      (let* name := pythonEnumName context in
       yield ("class " +:+ name +:+ "(str, enum.Enum):" +:+ nl));
      yield ("    " +:+ tq +:+ nl);
      (let* text := inContext context in
       Ok (formatComment "    " ("Possible values for " +:+ text)));
      yield ("    " +:+ tq +:+ nl);
      yield nl;
      (let* values := elements values in
       forLast values (fun value isLast =>
         let* member := sentenceCase value in
         yield ("    " +:+ member +:+ " = " +:+ dq +:+ toString value +:+ dq +:+
                (if isLast then nl else nl +:+ nl))));
      yield (nl +:+ nl) ].

(** One parameter of a [...Params] dataclass; [comma] tells the backend
    rendering (a comma after the description) from the frontend one. *)
Definition pythonParam (contracts : list value) (methodName : value) (comma : bool)
  (param : value) : gen :=
  let* schema := prop param "schema" in
  let* enum := prop schema "enum" in
  let* paramName := prop param "name" in
  let* type :=
    (if truthy enum then
       let* m := sentenceCase methodName in
       let* p := sentenceCase paramName in
       Ok (m +:+ p)
     else deriveType contracts PythonTypeMap paramName schema) in
  let* description := prop param "description" in
  yield ("    " +:+ toString paramName +:+ ": " +:+ type +:+
         pythonField description comma false).

Definition pythonRequestMember (method : value) : gen :=
  let* result := prop method "result" in
  when (truthy result)
    (seqG [
       (let* summary := prop method "summary" in
        formatCommentV "    # " summary);
       (let* methodName := prop method "name" in
        let* m := sentenceCase methodName in
        yield ("    " +:+ m +:+ " = " +:+ dq +:+ toString methodName +:+ dq +:+ nl));
       yield nl ]).

Definition pythonRequest (contracts : list value) (name : string) (method : value) : gen :=
  let* description := prop method "description" in
  let* methodName := prop method "name" in
  if negb (truthy description) then
    Throw (Error ("No description for '" +:+ toString methodName +:+
                  "'; please add a description to the schema"))
  else
    seqG [
      yield ("@dataclass" +:+ nl);
      (let* m := sentenceCase methodName in
       yield ("class " +:+ m +:+ "Params:" +:+ nl));
      yield ("    " +:+ tq +:+ nl);
      formatCommentV "    " description;
      yield ("    " +:+ tq +:+ nl);
      yield nl;
      (let* params := prop method "params" in
       let* params := iterate params in
       forG params (pythonParam contracts methodName true));
      yield ("@dataclass" +:+ nl);
      (let* m := sentenceCase methodName in
       yield ("class " +:+ m +:+ "Request:" +:+ nl));
      yield ("    " +:+ tq +:+ nl);
      formatCommentV "    " description;
      yield ("    " +:+ tq +:+ nl);
      yield nl;
      yield ("    def __post_init__(self):" +:+ nl);
      yield ("        " +:+ tq +:+ " Revive RPC parameters after initialization " +:+ tq +:+ nl);
      yield ("        if isinstance(self.params, dict):" +:+ nl);
      yield "             self.params = ";
      (let* m := sentenceCase methodName in yield (m +:+ "Params(**self.params)" +:+ nl));
      yield nl;
      (let* m := sentenceCase methodName in
       yield ("    params: " +:+ m +:+ "Params = field(" +:+ nl));
      yield ("        metadata={" +:+ nl);
      (let* m := sentenceCase methodName in
       yield ("            " +:+ dq +:+ "description" +:+ dq +:+ ": " +:+ dq +:+
              "Parameters to the " +:+ m +:+ " method" +:+ dq +:+ nl));
      yield ("        }" +:+ nl);
      yield ("    )" +:+ nl);
      yield nl;
      yield ("    method: " +:+ snakeCaseToSentenceCase name +:+ "Request = field(" +:+ nl);
      yield ("        metadata={" +:+ nl);
      yield ("            " +:+ dq +:+ "description" +:+ dq +:+ ": " +:+ dq +:+
             "The JSON-RPC method name (" +:+ toString methodName +:+ ")" +:+ dq +:+ nl);
      yield ("        }," +:+ nl);
      yield "        default=";
      (let* m := sentenceCase methodName in
       yield (snakeCaseToSentenceCase name +:+ "Request." +:+ m +:+ nl));
      yield ("    )" +:+ nl);
      yield nl;
      yield ("    jsonrpc: str = field(" +:+ nl);
      yield ("        metadata={" +:+ nl);
      yield ("            " +:+ dq +:+ "description" +:+ dq +:+ ": " +:+ dq +:+
             "The JSON-RPC version specifier" +:+ dq +:+ nl);
      yield ("        }," +:+ nl);
      yield ("        default=" +:+ dq +:+ "2.0" +:+ dq);
      yield ("    )" +:+ nl);
      yield nl ].

Definition pythonEventMember (method : value) : gen :=
  seqG [
    (let* summary := prop method "summary" in
     formatCommentV "    # " summary);
    (let* methodName := prop method "name" in
     let* m := sentenceCase methodName in
     yield ("    " +:+ m +:+ " = " +:+ dq +:+ toString methodName +:+ dq +:+ nl));
    yield nl ].

Definition pythonEventParams (contracts : list value) (method : value) : gen :=
  let* params := prop method "params" in
  let* some := hasElements params in
  when some
    (let* methodName := prop method "name" in
     seqG [
       yield ("@dataclass" +:+ nl);
       (let* m := sentenceCase methodName in
        yield ("class " +:+ m +:+ "Params:" +:+ nl));
       yield ("    " +:+ tq +:+ nl);
       (let* summary := prop method "summary" in
        formatCommentV "    " summary);
       yield ("    " +:+ tq +:+ nl);
       yield nl;
       (let* params := iterate params in
        forG params (pythonParam contracts methodName false)) ]).

Definition createPythonComm (name : string) (frontend backend : value) : gen :=
  let contracts := [backend; frontend] in
  seqG [
    yield (pythonHeader name);
    forG contracts (fun source =>
      when (truthy source)
        (seqG [
           objectVisitor [] source (pythonObject contracts);
           enumVisitor [] source pythonEnum ]));
    when (truthy backend)
      (seqG [
         yield ("@enum.unique" +:+ nl);
         yield ("class " +:+ snakeCaseToSentenceCase name +:+ "Request(str, enum.Enum):" +:+ nl);
         yield ("    " +:+ tq +:+ nl);
         yield ("    An enumeration of all the possible requests that can be sent to the " +:+
                name +:+ " comm." +:+ nl);
         yield ("    " +:+ tq +:+ nl);
         yield nl;
         (let* methods := prop backend "methods" in
          let* methods := iterate methods in
          forG methods pythonRequestMember) ]);
    when (truthy backend)
      (let* methods := prop backend "methods" in
       let* methods := iterate methods in
       forG methods (pythonRequest contracts name));
    when (truthy frontend)
      (seqG [
         yield ("@enum.unique" +:+ nl);
         yield ("class " +:+ snakeCaseToSentenceCase name +:+ "Event(str, enum.Enum):" +:+ nl);
         yield ("    " +:+ tq +:+ nl);
         yield ("    An enumeration of all the possible events that can be sent from the " +:+
                name +:+ " comm." +:+ nl);
         yield ("    " +:+ tq +:+ nl);
         yield nl;
         (let* methods := prop frontend "methods" in
          let* methods := iterate methods in
          forG methods pythonEventMember);
         (let* methods := prop frontend "methods" in
          let* methods := iterate methods in
          forG methods (pythonEventParams contracts)) ]) ].

(** *** TypeScript *)

Definition typescriptHeader (name : string) : string :=
  "/*---------------------------------------------------------------------------------------------" +:+ nl +:+
  " *  Copyright (C) " +:+ year +:+ " Posit Software, PBC. All rights reserved." +:+ nl +:+
  " *--------------------------------------------------------------------------------------------*/" +:+ nl +:+
  nl +:+
  "//" +:+ nl +:+
  "// AUTO-GENERATED from " +:+ name +:+ ".json; do not edit." +:+ nl +:+
  "//" +:+ nl +:+
  nl.

Definition typescriptImports : string :=
  "import { PositronBaseComm } from 'vs/workbench/services/languageRuntime/common/positronBaseComm';" +:+ nl +:+
  "import { IRuntimeClientInstance } from 'vs/workbench/services/languageRuntime/common/languageRuntimeClientInstance';" +:+ nl +:+
  nl.

(** The type of a parameter: the enum of the method when the schema is a
    string enum, the derived type otherwise. *)
Definition typescriptParamType (contracts : list value) (methodName : value)
  (param : value) : gen :=
  let* schema := prop param "schema" in
  let* type := prop schema "type" in
  let* enum := (if isStr type "string" then prop schema "enum" else Ok VUndefined) in
  let* paramName := prop param "name" in
  if isStr type "string" && truthy enum then
    let* m := sentenceCase methodName in
    let* p := sentenceCase paramName in
    yield (m +:+ p)
  else deriveType contracts TypescriptTypeMap paramName schema.

(** One turn of the loop of [createTypescriptInterface] over the
    properties. *)
Definition typescriptProperty (contracts : list value) (name required : value)
  (p : string * value) : gen :=
  let '(key, schema) := p in
  let* description := prop schema "description" in
  if negb (truthy description) then
    Throw (Error ("No description for the '" +:+ toString name +:+ "." +:+ key +:+
                  "' value; please add a description to the schema"))
  else
    seqG [
      yield (tab +:+ "/**" +:+ nl);
      formatCommentV (tab +:+ " * ") description;
      yield (tab +:+ " */" +:+ nl);
      yield (tab +:+ key);
      (let* listed := includes required key in
       when (negb listed) (yield "?"));
      yield ": ";
      (let* type := prop schema "type" in
       if isStr type "object" then
         let* schemaName := prop schema "name" in
         sentenceCase schemaName
       else
         let* enum := (if isStr type "string" then prop schema "enum"
                       else Ok VUndefined) in
         if isStr type "string" && truthy enum then
           let* n := sentenceCase name in
           yield (n +:+ snakeCaseToSentenceCase key)
         else deriveType contracts TypescriptTypeMap (VStr key) schema);
      yield (";" +:+ nl +:+ nl) ].

Definition createTypescriptInterface (contracts : list value)
  (name description properties required additionalProperties : value) : gen :=
  if negb (truthy description) then
    Throw (Error ("No description for '" +:+ toString name +:+
                  "'; please add a description to the schema"))
  else
    seqG [
      yield ("/**" +:+ nl);
      formatCommentV " * " description;
      yield (" */" +:+ nl);
      (let* n := sentenceCase name in
       yield ("export interface " +:+ n +:+ " {" +:+ nl));
      (let* empty :=
         (if negb (truthy properties) then Ok true
          else let* keys := ownMembers properties in
               Ok (match keys with [] => true | _ => false end)) in
       when empty
         (if negb (truthy additionalProperties) then
            Throw (Error ("No properties for '" +:+ toString name +:+
                          "'; please add properties to the schema"))
          else yield (tab +:+ "[k: string]: unknown;" +:+ nl)));
      (let* props := ownMembers properties in
       forG props (typescriptProperty contracts name required));
      yield ("}" +:+ nl +:+ nl) ].

Definition typescriptObject (contracts : list value) : callback :=
  fun context o =>
    let* name := typescriptObjectName context o in
    let* description := prop o "description" in
    let* description :=
      (if truthy description then Ok description
       else let* text := inContext context in Ok (VStr text)) in
    let* additionalProperties := prop o "additionalProperties" in
    let additionalProperties :=
      if truthy additionalProperties then additionalProperties else VBool false in
    let* properties := prop o "properties" in
    let* required := prop o "required" in
    createTypescriptInterface contracts name description properties
      (if truthy required then required else VArr []) additionalProperties.

Definition typescriptEnum : callback :=
  fun context values =>
    seqG [
      yield ("/**" +:+ nl);
      (let* text := inContext context in
       Ok (formatComment " * " ("Possible values for " +:+ text)));
      yield (" */" +:+ nl);
      (let* name := typescriptEnumName context in
       yield ("export enum " +:+ name +:+ " {" +:+ nl));
      (let* values := elements values in
       forLast values (fun value isLast =>
         let* member := sentenceCase value in
         yield (tab +:+ member +:+ " = '" +:+ toString value +:+ "'" +:+
                (if isLast then nl else "," +:+ nl))));
      yield ("}" +:+ nl +:+ nl) ].

(** The type aliases written while [source] is visited: the guard reads
    [source], the loop reads [backend]. *)
Definition typescriptAliases (contracts : list value) (source backend : value) : gen :=
  let* components := prop source "components" in
  let* declared :=
    (if truthy components then
       let* schemas := prop components "schemas" in Ok (truthy schemas)
     else Ok false) in
  when declared
    (let* components := prop backend "components" in
     let* schemas := prop components "schemas" in
     let* entries := ownMembers schemas in
     forG entries (fun e =>
       let '(key, schema) := e in
       let* type := prop schema "type" in
       when (negb (isStr type "object"))
         (seqG [
            yield ("/**" +:+ nl);
            (let* description := prop schema "description" in
             formatCommentV " * " description);
            yield (" */" +:+ nl);
            yield ("export type " +:+ snakeCaseToSentenceCase key +:+ " = ");
            deriveType contracts TypescriptTypeMap (VStr key) schema;
            yield (";" +:+ nl +:+ nl) ]))).

(** The methods of the frontend that declare no result: the events. *)
Definition isEvent (method : value) : result bool :=
  let* result := prop method "result" in
  Ok (negb (truthy result)).

Definition typescriptEventInterface (contracts : list value) (method : value) : gen :=
  let* event := isEvent method in
  when event
    (let* methodName := prop method "name" in
     let* sentenceName := sentenceCase methodName in
     seqG [
       yield ("/**" +:+ nl);
       (let* summary := prop method "summary" in
        Ok (formatComment " * " ("Event: " +:+ toString summary)));
       yield (" */" +:+ nl);
       yield ("export interface " +:+ sentenceName +:+ "Event {" +:+ nl);
       (let* params := prop method "params" in
        let* params := iterate params in
        forG params (fun param =>
          seqG [
            yield (tab +:+ "/**" +:+ nl);
            (let* description := prop param "description" in
             Ok (formatComment (tab +:+ " * ") (toString description)));
            yield (tab +:+ " */" +:+ nl);
            (let* paramName := prop param "name" in
             yield (tab +:+ toString paramName +:+ ": "));
            typescriptParamType contracts methodName param;
            yield (";" +:+ nl +:+ nl) ]));
       yield ("}" +:+ nl +:+ nl) ]).

(** The entries pushed on [events], in order. *)
Fixpoint typescriptEvents (methods : list value) : result (list string) :=
  match methods with
  | [] => Ok []
  | method :: rest =>
      let* event := isEvent method in
      if event then
        let* methodName := prop method "name" in
        let* sentenceName := sentenceCase methodName in
        let* events := typescriptEvents rest in
        Ok ((tab +:+ sentenceName +:+ " = '" +:+ toString methodName +:+ "'") :: events)
      else typescriptEvents rest
  end.

(** ['a', 'b'], the quoted parameter names of a method. *)
Definition quotedNames (params : list value) : gen :=
  forLast params (fun param isLast =>
    let* paramName := prop param "name" in
    yield ("'" +:+ toString paramName +:+ "'" +:+
           (if isLast then EmptyString else ", "))).

Definition typescriptEmitter (method : value) : gen :=
  let* event := isEvent method in
  when event
    (let* methodName := prop method "name" in
     seqG [
       (let* m := sentenceCase methodName in
        yield (tab +:+ tab +:+ "this.onDid" +:+ m +:+ " = "));
       yield ("super.createEventEmitter('" +:+ toString methodName +:+ "', [");
       (let* params := prop method "params" in
        let* params := elements params in
        quotedNames params);
       yield ("]);" +:+ nl) ]).

Definition typescriptMethod (contracts : list value) (method : value) : gen :=
  let* methodName := prop method "name" in
  let* params := prop method "params" in
  seqG [
    yield (tab +:+ "/**" +:+ nl);
    (let* summary := prop method "summary" in
     formatCommentV (tab +:+ " * ") summary);
    (let* description := prop method "description" in
     when (truthy description)
       (seqG [ yield (tab +:+ " *" +:+ nl);
               formatCommentV (tab +:+ " * ") description ]));
    yield (tab +:+ " *" +:+ nl);
    (let* params := elements params in
     forG params (fun param =>
       let* paramName := prop param "name" in
       let* p := camelCase paramName in
       let* description := prop param "description" in
       Ok (formatComment (tab +:+ " * ")
             ("@param " +:+ p +:+ " " +:+ toString description))));
    yield (tab +:+ " *" +:+ nl);
    (let* result := prop method "result" in
     let* schema := (if truthy result then prop result "schema" else Ok VUndefined) in
     when (truthy schema)
       (let* description := prop schema "description" in
        Ok (formatComment (tab +:+ " * ") ("@returns " +:+ toString description))));
    yield (tab +:+ " */" +:+ nl);
    (let* m := camelCase methodName in yield (tab +:+ m +:+ "("));
    (let* params := elements params in
     forLast params (fun param isLast =>
       let* schema := prop param "schema" in
       let* paramName := prop param "name" in
       if negb (truthy schema) then
         Throw (Error ("No schema for '" +:+ toString methodName +:+ "' parameter '" +:+
                       toString paramName +:+ "'"))
       else
         seqG [
           (let* p := camelCase paramName in yield (p +:+ ": "));
           typescriptParamType contracts methodName param;
           when (negb isLast) (yield ", ") ]));
    yield "): Promise<";
    (let* result := prop method "result" in
     let* schema := (if truthy result then prop result "schema" else Ok VUndefined) in
     if truthy schema then
       let* type := prop schema "type" in
       if isStr type "object" then
         let* schemaName := prop schema "name" in
         sentenceCase schemaName
       else deriveType contracts TypescriptTypeMap methodName schema
     else yield "void");
    yield ("> {" +:+ nl);
    yield (tab +:+ tab +:+ "return super.performRpc('" +:+ toString methodName +:+ "', [");
    (let* params := elements params in quotedNames params);
    yield "], [";
    (let* params := elements params in
     forLast params (fun param isLast =>
       let* paramName := prop param "name" in
       let* p := camelCase paramName in
       yield (p +:+ (if isLast then EmptyString else ", "))));
    yield ("]);" +:+ nl);
    yield (tab +:+ "}" +:+ nl +:+ nl) ].

Definition typescriptEventMember (method : value) : gen :=
  let* event := isEvent method in
  when event
    (seqG [
       yield (tab +:+ "/**" +:+ nl);
       (let* summary := prop method "summary" in
        formatCommentV (tab +:+ " * ") summary);
       (let* description := prop method "description" in
        when (truthy description)
          (seqG [ yield (tab +:+ " *" +:+ nl);
                  formatCommentV (tab +:+ " * ") description ]));
       yield (tab +:+ " */" +:+ nl);
       (let* methodName := prop method "name" in
        let* m := sentenceCase methodName in
        yield (tab +:+ "onDid" +:+ m +:+ ": Event<" +:+ m +:+ "Event>;" +:+ nl)) ]).

(** [metadata] is what reading and parsing [<name>.json] gives. *)
Definition createTypescriptComm (metadata : result value) (name : string)
  (frontend backend : value) : gen :=
  let contracts := [backend; frontend] in
  let* _ := metadata in
  seqG [
    yield (typescriptHeader name);
    when (truthy frontend)
      (yield ("import { Event } from 'vs/base/common/event';" +:+ nl));
    yield typescriptImports;
    forG contracts (fun source =>
      when (truthy source)
        (seqG [
           objectVisitor [] source (typescriptObject contracts);
           enumVisitor [] source typescriptEnum ]));
    forG [backend; frontend] (fun source =>
      when (truthy source) (typescriptAliases contracts source backend));
    when (truthy frontend)
      (let* methods := prop frontend "methods" in
       let* methods := iterate methods in
       seqG [
         forG methods (typescriptEventInterface contracts);
         yield ("export enum " +:+ snakeCaseToSentenceCase name +:+ "Event {" +:+ nl);
         (let* events := typescriptEvents methods in
          yield (join ("," +:+ nl) events));
         yield (nl +:+ "}" +:+ nl +:+ nl) ]);
    yield ("export class Positron" +:+ snakeCaseToSentenceCase name +:+
           "Comm extends PositronBaseComm {" +:+ nl);
    yield (tab +:+ "constructor(instance: IRuntimeClientInstance<any, any>) {" +:+ nl);
    yield (tab +:+ tab +:+ "super(instance);" +:+ nl);
    when (truthy frontend)
      (let* methods := prop frontend "methods" in
       let* methods := iterate methods in
       forG methods typescriptEmitter);
    yield (tab +:+ "}" +:+ nl +:+ nl);
    when (truthy backend)
      (let* methods := prop backend "methods" in
       let* methods := iterate methods in
       forG methods (typescriptMethod contracts));
    when (truthy frontend)
      (seqG [
         yield nl;
         (let* methods := prop frontend "methods" in
          let* methods := iterate methods in
          forG methods typescriptEventMember) ]);
    yield ("}" +:+ nl +:+ nl) ].

End Emitters.

(** ** The orchestrator *)

(** The world the script runs in: the directory of the contracts as
    [readdirSync] lists it, every file with what [JSON.parse] makes of it
    ([None] when it is not JSON); the directories that exist; the files
    written so far, by path; and the names pushed on [comms]. The text sent
    to [console.log] is not kept. *)
Record world : Type := World {
  commsDir : list (string * option value);
  directories : gset string;
  files : gmap string string;
  comms : list string
}.

Definition tsOutputDir : string :=
  "../../src/vs/workbench/services/languageRuntime/common".
Definition rustOutputDir : string :=
  "../../../amalthea/crates/amalthea/src/comm".
Definition pythonOutputDir : string :=
  "../../extensions/positron-python/pythonFiles/positron".

(** A computation over the world that may throw. *)
Definition M (A : Type) : Type := world -> world * result A.

Definition ret {A : Type} (a : A) : M A := fun w => (w, Ok a).

Definition bindM {A B : Type} (m : M A) (k : A -> M B) : M B :=
  fun w =>
    match m w with
    | (w', Ok a) => k a w'
    | (w', Throw e) => (w', Throw e)
    end.

Notation "'do' x '<-' m ';' k" := (bindM m (fun x => k))
  (at level 10, x name, m at level 100, k at level 200).

(** A pure step: it throws or returns, and leaves the world alone. *)
Definition lift {A : Type} (r : result A) : M A := fun w => (w, r).

(** The outcome of [m], for a callee that receives it. *)
Definition attempt {A : Type} (m : M A) : M (result A) :=
  fun w => let '(w', r) := m w in (w', Ok r).

(** [path.join(dir, file)] for a plain file name. *)
Definition pathJoin (dir file : string) : string := dir +:+ "/" +:+ file.

Definition existsSync (file : string) : M bool :=
  fun w => (w, Ok (existsb (fun e => String.eqb (fst e) file) (commsDir w))).

(** [JSON.parse(readFileSync(path.join(commsDir, file)))]. *)
Definition readJson (file : string) : M value :=
  fun w =>
    match assoc file (commsDir w) with
    | Some (Some v) => (w, Ok v)
    | Some None => (w, Throw SyntaxError)
    | None =>
        (w, Throw (Error ("ENOENT: no such file or directory, open '" +:+ file +:+ "'")))
    end.

(** The world once [content] is the text of the file at [path]. *)
Definition setFile (path content : string) (w : world) : world :=
  World (commsDir w) (directories w) (<[path := content]> (files w)) (comms w).

Definition writeFileSync (dir file content : string) : M unit :=
  fun w =>
    if decide (dir ∈ directories w) then
      (setFile (pathJoin dir file) content w, Ok tt)
    else
      (w, Throw (Error ("ENOENT: no such file or directory, open '" +:+
                        pathJoin dir file +:+ "'"))).

Definition pushComm (name : string) : M unit :=
  fun w =>
    (World (commsDir w) (directories w) (files w) (comms w ++ [name]), Ok tt).

(** [s.endsWith(suffix)]. *)
Definition endsWith (suffix s : string) : bool :=
  (String.length suffix <=? String.length s)%nat &&
  String.eqb (substring (String.length s - String.length suffix)
                        (String.length suffix) s) suffix.

(** [file.replace(/\.json$/, '')] for a file that ends with [.json]. *)
Definition baseName (file : string) : string :=
  substring 0 (String.length file - 5) file.

Section Orchestrator.

Variable year : string.

(** [python3 -m black <file>]: the formatted text, or [None] when the
    command fails. *)
Variable black : string -> option string.

(** [python3 -m black --version] succeeds. *)
Variable blackInstalled : bool.

Definition execBlack (path : string) : M unit :=
  fun w =>
    match files w !! path with
    | Some content =>
        match black content with
        | Some formatted => (setFile path formatted w, Ok tt)
        | None => (w, Throw (Error ("Command failed: python3 -m black " +:+ path)))
        end
    | None => (w, Throw (Error ("Command failed: python3 -m black " +:+ path)))
    end.

(** The contract of one direction, [null] without its file. *)
Definition readContract (file : string) : M value :=
  do present <- existsSync file;
  if present then readJson file else ret VNull.

(** The body of the loop of [createCommInterface] for a comm [name] that
    has a contract. *)
Definition processComm (name : string) : M unit :=
  do frontend <- readContract (name +:+ "-frontend-openrpc.json");
  do backend <- readContract (name +:+ "-backend-openrpc.json");
  do metadata <- attempt (readJson (name +:+ ".json"));
  do ts <- lift (createTypescriptComm year metadata name frontend backend);
  do _ <- writeFileSync tsOutputDir
            ("positron" +:+ snakeCaseToSentenceCase name +:+ "Comm.ts") ts;
  do rust <- lift (createRustComm year name frontend backend);
  do _ <- writeFileSync rustOutputDir (name +:+ "_comm.rs") rust;
  do python <- lift (createPythonComm year name frontend backend);
  do _ <- writeFileSync pythonOutputDir (name +:+ "_comm.py") python;
  do _ <- execBlack (pathJoin pythonOutputDir (name +:+ "_comm.py"));
  pushComm name.

Fixpoint forM (l : list string) (body : string -> M unit) : M unit :=
  match l with
  | [] => ret tt
  | x :: l' => do _ <- body x; forM l' body
  end.

Definition createCommInterface : M unit :=
  fun w =>
    forM (map fst (commsDir w)) (fun file =>
      if negb (endsWith ".json" file) then ret tt
      else
        let name := baseName file in
        do frontend <- existsSync (name +:+ "-frontend-openrpc.json");
        do backend <- existsSync (name +:+ "-backend-openrpc.json");
        if frontend || backend then processComm name else ret tt) w.

(** The script: the two checks, then the loop; the exit code with the world
    it leaves. *)
Definition main (w : world) : world * Z :=
  if decide (rustOutputDir ∈ directories w) then
    if blackInstalled then
      match createCommInterface w with
      | (w', Ok _) => (w', 0%Z)
      | (w', Throw _) => (w', 1%Z)
      end
    else (w, 1%Z)
  else (w, 1%Z).

End Orchestrator.

(** ** Notions the properties are stated with *)

(** The lines a state of the loop of [formatLines] stands for. *)
Definition flush (st : list string * string) : list string :=
  fst st ++ [snd st].

(** Every word but the last carries a character. *)
Fixpoint innerWordsFull (ws : list string) : bool :=
  match ws with
  | [] => true
  | w :: rest =>
      match rest with
      | [] => true
      | _ => nonEmpty w && innerWordsFull rest
      end
  end.

(** The segments of a ref: its parts between slashes, without the [#]
    markers. *)
Definition segments (ref : string) : list string :=
  List.filter (fun part => negb (String.eqb part "#")) (split "/" ref).

(** The segments as the specification words them: the parts between
    slashes, without a leading root marker. *)
Definition segments_spec (ref : string) : list string :=
  match split "/" ref with
  | part :: rest => if String.eqb part "#" then rest else part :: rest
  | [] => []
  end.

(** Every segment, in turn, is a key of the value reached so far. *)
Inductive resolves : list string -> value -> Prop :=
| resolves_nil (target : value) : resolves [] target
| resolves_cons (part : string) (rest : list string) (target next : value)
    (members : list (string * value)) :
    ownMembers target = Ok members ->
    assoc part members = Some next ->
    resolves rest next ->
    resolves (part :: rest) target.

(** Some segment is not a key of the value reached so far. *)
Inductive lacks : list string -> value -> Prop :=
| lacks_here (part : string) (rest : list string) (target : value)
    (members : list (string * value)) :
    ownMembers target = Ok members ->
    assoc part members = None ->
    lacks (part :: rest) target
| lacks_below (part : string) (rest : list string) (target next : value)
    (members : list (string * value)) :
    ownMembers target = Ok members ->
    assoc part members = Some next ->
    lacks rest next ->
    lacks (part :: rest) target.

(** A callback that writes down the context it is called with. *)
Definition traceContext : callback :=
  fun context _ => Ok (join "," (map toString context) +:+ ";").

(** The context a child of an object is visited with. *)
Definition enumChildContext (name : value) (key : string) (context : list value)
  : list value :=
  if truthy name then name :: context
  else if String.eqb key "properties" || String.eqb key "params" then context
  else VStr key :: context.

Definition objectChildContext (key : string) (context : list value) : list value :=
  if String.eqb key "schema" then context else VStr key :: context.

(** The child context the specification words for both visitors. *)
Definition childContext_spec (name : value) (key : string) (context : list value)
  : list value :=
  if String.eqb key "properties" || String.eqb key "params" || String.eqb key "schema"
  then context
  else if truthy name then name :: context
  else VStr key :: context.

(** The identifier a ref stands for. *)
Definition refName (ref : string) : string :=
  snakeCaseToSentenceCase (List.last (split "/" ref) EmptyString).

(** A contract that [parseRef] leaves behind: absent, or lacking a segment. *)
Definition passedOver (ref : string) (contract : value) : Prop :=
  truthy contract = true -> lacks (segments ref) contract.

(** The object definitions [objectVisitor] calls back on, each with its
    context, from a contract entered with [context]. *)
Inductive reaches : list value -> value -> list value -> value -> Prop :=
| reaches_node (context : list value) (members : list (string * value)) :
    isStr (member "type" members) "object" = true ->
    reaches context (VObj members) context (VObj members)
| reaches_properties (context : list value) (members : list (string * value))
    (context' : list value) (node : value) :
    isStr (member "type" members) "object" = true ->
    reaches context (member "properties" members) context' node ->
    reaches context (VObj members) context' node
| reaches_member (context : list value) (members : list (string * value))
    (key : string) (child : value) (context' : list value) (node : value) :
    isStr (member "type" members) "object" = false ->
    In (key, child) members ->
    reaches (objectChildContext key context) child context' node ->
    reaches context (VObj members) context' node
| reaches_item (context : list value) (items : list value) (item : value)
    (context' : list value) (node : value) :
    In item items ->
    reaches context item context' node ->
    reaches context (VArr items) context' node.

(** A generator that throws. *)
Definition fails {A : Type} (r : result A) : Prop := exists e, r = Throw e.

Definition isOk {A : Type} (r : result A) : bool :=
  match r with
  | Ok _ => true
  | Throw _ => false
  end.

(** ** Sample contracts *)

Definition str (s : string) : value := VStr s.

(** The scenario of the specification: the parameter [mode] of the method
    [set_mode] is an enum of the strings [a] and [b]. *)
Definition modeSchema : value :=
  VObj [("type", str "string"); ("enum", VArr [str "a"; str "b"])].

Definition setMode : value :=
  VObj [("name", str "set_mode");
        ("summary", str "Set the mode");
        ("description", str "Sets the mode of the grid");
        ("params", VArr [VObj [("name", str "mode");
                               ("description", str "The mode");
                               ("schema", modeSchema)]]);
        ("result", VObj [])].

Definition modeBackend : value :=
  VObj [("openrpc", str "1.3.0");
        ("info", VObj [("title", str "Mode Backend"); ("version", str "1.0.0")]);
        ("methods", VArr [setMode])].

(** A backend with one method [do_ping(value)]; the method and its
    parameter carry a description only when asked to. *)
Definition doPing (methodDescribed paramDescribed : bool) : value :=
  VObj ([("name", str "do_ping"); ("summary", str "Ping the backend")] ++
        (if methodDescribed then [("description", str "Sends a ping")] else []) ++
        [("params",
          VArr [VObj ([("name", str "value")] ++
                      (if paramDescribed then [("description", str "The value")]
                       else []) ++
                      [("schema", VObj [("type", str "string")])])]);
         ("result",
          VObj [("schema", VObj [("type", str "string");
                                 ("description", str "The echo")])])]).

Definition pingBackend (methodDescribed paramDescribed : bool) : value :=
  VObj [("openrpc", str "1.3.0");
        ("info", VObj [("title", str "Ping Backend"); ("version", str "1.0.0")]);
        ("methods", VArr [doPing methodDescribed paramDescribed])].

(** A backend whose method returns an object with a field that has no
    description. *)
Definition statusBackend : value :=
  VObj [("openrpc", str "1.3.0");
        ("methods",
         VArr [VObj [("name", str "get_status");
                     ("summary", str "Get the status");
                     ("description", str "Gets the status");
                     ("params", VArr []);
                     ("result",
                      VObj [("schema",
                             VObj [("type", str "object");
                                   ("name", str "status");
                                   ("description", str "The status");
                                   ("properties",
                                    VObj [("code", VObj [("type", str "integer")])]);
                                   ("required", VArr [str "code"])])])]])].

(** Two contracts that each declare a shared type. *)
Definition aliasBackend : value :=
  VObj [("methods", VArr []);
        ("components",
         VObj [("schemas",
                VObj [("row_index", VObj [("type", str "integer");
                                          ("description", str "A row index")])])])].

Definition aliasFrontend : value :=
  VObj [("methods", VArr []);
        ("components",
         VObj [("schemas",
                VObj [("event_id", VObj [("type", str "string");
                                         ("description", str "An event id")])])])].

(** A contract with a shared object type. *)
Definition sharedSchemas : value :=
  VObj [("methods", VArr []);
        ("components",
         VObj [("schemas",
                VObj [("column_schema",
                       VObj [("type", str "object");
                             ("description", str "A column");
                             ("properties", VObj []);
                             ("additionalProperties", VBool true)])])])].

(** Two fragments for the visitors: an enum under [result.schema], and an
    object under [params] in a parameter named [options]. *)
Definition enumUnderSchema : value :=
  VObj [("result", VObj [("schema", modeSchema)])].

Definition objectUnderParams : value :=
  VObj [("params",
         VArr [VObj [("name", str "options");
                     ("schema", VObj [("type", str "object");
                                      ("properties", VObj [])])]])].

(** The formatter of the sample worlds leaves the text as it is. *)
Definition blackIdentity (text : string) : option string := Some text.

(** A world with the three output directories and the contracts of one comm
    [ping]. *)
Definition pingWorld (backend : value) : world :=
  World [("ping.json", Some (VObj [("name", str "ping")]));
         ("ping-backend-openrpc.json", Some backend)]
        ({[ tsOutputDir; rustOutputDir; pythonOutputDir ]})
        ∅
        [].

Definition tsFile (name : string) : string :=
  pathJoin tsOutputDir ("positron" +:+ snakeCaseToSentenceCase name +:+ "Comm.ts").
Definition rustFile (name : string) : string :=
  pathJoin rustOutputDir (name +:+ "_comm.rs").
Definition pythonFile (name : string) : string :=
  pathJoin pythonOutputDir (name +:+ "_comm.py").

(** The object definition [node] has a property whose description is
    missing or empty. *)
Definition hasUndescribedProperty (node : value) : Prop :=
  exists members key schema,
    prop node "properties" = Ok (VObj members) /\
    In (key, schema) members /\
    forall description,
      prop schema "description" = Ok description -> truthy description = false.

(** The text holds the declaration of [n]: the identifier stands between
    the opening keyword of the target and what follows an identifier in that
    kind of declaration. *)
Definition declares (opening n closing text : string) : Prop :=
  exists before after, text = before +:+ opening +:+ n +:+ closing +:+ after.

(** The text [needle] occurs in what a generator produces. *)
Definition mentions (needle : string) (g : gen) : bool :=
  match g with
  | Ok text => includesStr needle text
  | Throw _ => false
  end.

Definition rustModeEnum : string :=
  "/// Possible values for Mode in SetMode" +:+ nl +:+
  "#[derive(Debug, Serialize, Deserialize, PartialEq)]" +:+ nl +:+
  "pub enum SetModeMode {" +:+ nl +:+
  tab +:+ "#[serde(rename = " +:+ dq +:+ "a" +:+ dq +:+ ")]" +:+ nl +:+
  tab +:+ "A," +:+ nl +:+
  nl +:+
  tab +:+ "#[serde(rename = " +:+ dq +:+ "b" +:+ dq +:+ ")]" +:+ nl +:+
  tab +:+ "B" +:+ nl +:+
  "}" +:+ nl +:+ nl.

Definition pythonModeEnum : string :=
  "@enum.unique" +:+ nl +:+
  "class SetModeMode(str, enum.Enum):" +:+ nl +:+
  "    " +:+ tq +:+ nl +:+
  "    Possible values for Mode in SetMode" +:+ nl +:+
  "    " +:+ tq +:+ nl +:+
  nl +:+
  "    A = " +:+ dq +:+ "a" +:+ dq +:+ nl +:+
  nl +:+
  "    B = " +:+ dq +:+ "b" +:+ dq +:+ nl +:+
  nl +:+ nl.

Definition typescriptModeEnum : string :=
  "/**" +:+ nl +:+
  " * Possible values for Mode in SetMode" +:+ nl +:+
  " */" +:+ nl +:+
  "export enum SetModeMode {" +:+ nl +:+
  tab +:+ "A = 'a'," +:+ nl +:+
  tab +:+ "B = 'b'" +:+ nl +:+
  "}" +:+ nl +:+ nl.

(** ** Notions the further properties are stated with *)

(** One of the four comparison characters. *)
Definition isComparison (c : ascii) : bool :=
  Ascii.eqb c "=" || Ascii.eqb c "!" || Ascii.eqb c "<" || Ascii.eqb c ">".

(** No character of [s] satisfies [p]. *)
Fixpoint noneOf (p : ascii -> bool) (s : string) : bool :=
  match s with
  | EmptyString => true
  | String c r => negb (p c) && noneOf p r
  end.

(** No underscore of [s] stands immediately before a lower-case letter. *)
Fixpoint settled (s : string) : bool :=
  match s with
  | EmptyString => true
  | String c r =>
      match r with
      | String d _ => negb (Ascii.eqb c "_" && isLower d) && settled r
      | EmptyString => true
      end
  end.

(** An identifier as the transformer leaves one: no comparison character,
    and no underscore before a lower-case letter. *)
Definition isIdentifier (s : string) : bool :=
  noneOf isComparison s && settled s.

(** The first character of [s] is not a lower-case letter. *)
Definition headNotLower (s : string) : bool :=
  match s with
  | String c _ => negb (isLower c)
  | EmptyString => true
  end.


(** Two computations end the same way: both return, or both throw the same
    exception. *)
Definition sameOutcome {A B : Type} (r1 : result A) (r2 : result B) : Prop :=
  match r1, r2 with
  | Ok _, Ok _ => True
  | Throw e1, Throw e2 => e1 = e2
  | _, _ => False
  end.

(** Two type tables know the same kinds. *)
Definition sameKinds (m1 m2 : list (string * string)) : Prop :=
  forall kind, assoc kind m1 = None <-> assoc kind m2 = None.

(** The walk along the segments reaches [null] or [undefined] with a
    segment still to look up. *)
Inductive stuck : list string -> value -> Prop :=
| stuck_here (part : string) (rest : list string) (target : value) :
    ownMembers target = Throw TypeError ->
    stuck (part :: rest) target
| stuck_below (part : string) (rest : list string) (target next : value)
    (members : list (string * value)) :
    ownMembers target = Ok members ->
    assoc part members = Some next ->
    stuck rest next ->
    stuck (part :: rest) target.

(** A backend whose [components] member is [null]. *)
Definition nullComponents : value :=
  VObj [("methods", VArr []); ("components", VNull)].

(** Neither [null] nor [undefined] occurs in [v], at any depth. *)
Fixpoint noNull (v : value) : bool :=
  match v with
  | VUndefined | VNull => false
  | VBool _ | VNum _ | VStr _ => true
  | VArr items => forallb noNull items
  | VObj members => forallb (fun m => let '(_, x) := m in noNull x) members
  end.

(** Every object of [v] whose [type] is [object] has a [properties]
    member. *)
Fixpoint objectsComplete (v : value) : bool :=
  match v with
  | VArr items => forallb objectsComplete items
  | VObj members =>
      forallb (fun m => let '(_, x) := m in objectsComplete x) members &&
      (negb (isStr (member "type" members) "object") ||
       match assoc "properties" members with Some _ => true | None => false end)
  | _ => true
  end.

(** The callback returns on every call. *)
Definition returns (cb : callback) : Prop :=
  forall context x, isOk (cb context x) = true.

(** An exception of [cb], or the [TypeError] of the visitor itself. *)
Definition fromCallback (cb : callback) (e : exn) : Prop :=
  e = TypeError \/ exists context x, cb context x = Throw e.


(** The members of an enumeration, each rendered by [render], with [sep]
    between two members and [fin] after the last. *)
Definition enumMembers (render : string -> string) (sep fin : string)
  (values : list string) : string :=
  match values with
  | [] => EmptyString
  | _ => join sep (map render values) +:+ fin
  end.

(** The three files the generator writes for a comm. *)
Definition outputs (name : string) : list string :=
  [tsFile name; rustFile name; pythonFile name].

(** The file [file] of the listing names a comm the loop processes: it ends
    with [.json] and a contract of the comm is listed. *)
Definition namesComm (listing : list (string * option value)) (file : string) : bool :=
  endsWith ".json" file &&
  (existsb (fun e => String.eqb (fst e) (baseName file +:+ "-frontend-openrpc.json")) listing ||
   existsb (fun e => String.eqb (fst e) (baseName file +:+ "-backend-openrpc.json")) listing).

(** The comms of a listing, in the order the loop meets them. *)
Definition candidates (listing : list (string * option value)) : list string :=
  map baseName (List.filter (namesComm listing) (map fst listing)).

(** The path [p] is an output file of one of [names]. *)
Definition touched (names : list string) (p : string) : Prop :=
  exists name, In name names /\ In p (outputs name).

(** From [w] to [w'] the listing and the directories are the same, every
    file that is not an output of one of [names] is as it was, and no file
    is gone. *)
Definition grows (names : list string) (w w' : world) : Prop :=
  commsDir w' = commsDir w /\
  directories w' = directories w /\
  (forall p, ~ touched names p -> files w' !! p = files w !! p) /\
  (forall p, is_Some (files w !! p) -> is_Some (files w' !! p)).

(** Every output file of every one of [names] is there in [w]. *)
Definition written (names : list string) (w : world) : Prop :=
  forall name p, In name names -> In p (outputs name) -> is_Some (files w !! p).

(** An object schema [options] that declares no property. *)
Definition emptyOptions (extra : value) : value :=
  VObj [("type", str "object"); ("name", str "options");
        ("description", str "Free options"); ("properties", VObj []);
        ("additionalProperties", extra)].

(** ** The type deriver as the specification words it *)

(** A present contract resolves the ref, the contracts before it being
    absent or lacking a segment. *)
Definition resolvable (ref : string) (contracts : list value) : Prop :=
  exists before contract after,
    contracts = before ++ contract :: after /\
    Forall (passedOver ref) before /\
    truthy contract = true /\
    resolves (segments ref) contract.

(** The type of a schema node by the four rules, each under the condition
    that no rule before it applies: an array wraps the type of its items in
    the two array tokens of the table; a node with a [$ref] is the
    identifier of the ref; an object is its Pascal-cased [name], or the
    Pascal-cased key when it has none; any other kind is its entry in the
    table. *)
Inductive derives (contracts : list value) (typeMap : list (string * string))
  (key : string) : value -> string -> Prop :=
| derives_array (members : list (string * value)) (items : value) (inner : string) :
    member "type" members = VStr "array" ->
    assoc "items" members = Some items ->
    derives contracts typeMap key items inner ->
    derives contracts typeMap key (VObj members)
      (entry typeMap "array-begin" +:+ inner +:+ entry typeMap "array-end")
| derives_ref (members : list (string * value)) (ref : string) :
    isStr (member "type" members) "array" = false ->
    member "$ref" members = VStr ref ->
    nonEmpty ref = true ->
    resolvable ref contracts ->
    nonEmpty (refName ref) = true ->
    derives contracts typeMap key (VObj members) (refName ref)
| derives_named (members : list (string * value)) (name : string) :
    member "type" members = VStr "object" ->
    truthy (member "$ref" members) = false ->
    member "name" members = VStr name ->
    nonEmpty name = true ->
    derives contracts typeMap key (VObj members) (snakeCaseToSentenceCase name)
| derives_keyed (members : list (string * value)) :
    member "type" members = VStr "object" ->
    truthy (member "$ref" members) = false ->
    truthy (member "name" members) = false ->
    derives contracts typeMap key (VObj members) (snakeCaseToSentenceCase key)
| derives_primitive (members : list (string * value)) (kind target : string) :
    member "type" members = VStr kind ->
    kind <> "array" ->
    kind <> "object" ->
    truthy (member "$ref" members) = false ->
    assoc kind typeMap = Some target ->
    derives contracts typeMap key (VObj members) target.

(** A schema of each rule: an array of refs, a named object, an object
    without a name, and two plain kinds. *)
Definition columnsSchema : value :=
  VObj [("type", str "array");
        ("items", VObj [("$ref", str "#/components/schemas/column_schema")])].

Definition namedObjectSchema : value :=
  VObj [("type", str "object"); ("name", str "column_schema")].

Definition plainObjectSchema : value := VObj [("type", str "object")].

Definition kindSchema (kind : string) : value := VObj [("type", str kind)].

(** ** The identifiers of the declarations *)

(** The identifier of an object definition: its Pascal-cased [name] when it
    has one, and otherwise the Pascal-cased entry on top of the context, or
    the entry below it when the top is [items]. There is none when that
    name is no string. *)
Definition objectIdentifier (context : list value) (node : value) : option string :=
  match prop node "name" with
  | Ok name =>
      match (if truthy name then name
             else if isStr (at_ context 0) "items" then at_ context 1
             else at_ context 0) with
      | VStr s => Some (snakeCaseToSentenceCase s)
      | _ => None
      end
  | Throw _ => None
  end.

(** The identifier of an enum: the Pascal-cased second entry of the context
    followed by the Pascal-cased first. *)
Definition enumIdentifier (context : list value) : option string :=
  match at_ context 1, at_ context 0 with
  | VStr owner, VStr field =>
      Some (snakeCaseToSentenceCase owner +:+ snakeCaseToSentenceCase field)
  | _, _ => None
  end.

(** The identifier of an enum as the specification words it: the explicit
    name of the enum node when it has one. *)
Definition enumIdentifier_spec (context : list value) (node : value) : option string :=
  match prop node "name" with
  | Ok (VStr name) =>
      if nonEmpty name then Some (snakeCaseToSentenceCase name)
      else enumIdentifier context
  | _ => enumIdentifier context
  end.

(** One of the five plain kinds of the type tables. *)
Definition isPrimitive (kind : string) : bool :=
  existsb (String.eqb kind) ["boolean"; "integer"; "number"; "string"; "null"].

(** A described property of a plain kind. *)
Definition plainProperty (schema : value) : bool :=
  match schema with
  | VObj members =>
      match member "description" members, member "type" members with
      | VStr description, VStr kind =>
          nonEmpty description && isPrimitive kind &&
          negb (truthy (member "$ref" members))
      | _, _ => false
      end
  | _ => false
  end.

(** A described object definition with at least one property, all of them
    plain, whose [required] member is a list or is absent. *)
Definition plainObject (node : value) : bool :=
  match node with
  | VObj members =>
      match member "description" members, member "properties" members with
      | VStr description, VObj (p :: properties) =>
          nonEmpty description &&
          forallb (fun p => plainProperty (snd p)) (p :: properties) &&
          match member "required" members with
          | VArr _ => true
          | required => negb (truthy required)
          end
      | _, _ => false
      end
  | _ => false
  end.

(** The enum of the scenario, with a name of its own. *)
Definition namedModeSchema : value :=
  VObj [("type", str "string"); ("name", str "color");
        ("enum", VArr [str "a"; str "b"])].

Definition namedModeBackend : value :=
  VObj [("methods",
         VArr [VObj [("name", str "set_mode");
                     ("summary", str "Set the mode");
                     ("description", str "Sets the mode of the grid");
                     ("params", VArr [VObj [("name", str "mode");
                                            ("description", str "The mode");
                                            ("schema", namedModeSchema)]]);
                     ("result", VObj [])]])].

(** The object definition of [statusBackend], with its field described. *)
Definition statusNode : value :=
  VObj [("type", str "object");
        ("name", str "status");
        ("description", str "The status");
        ("properties",
         VObj [("code", VObj [("type", str "integer");
                              ("description", str "The status code")])]);
        ("required", VArr [str "code"])].

(** ** The enum scenario *)

(** The text [block] stands in [text]. *)
Definition contains (block text : string) : Prop :=
  exists before after, text = before +:+ block +:+ after.

(** The contract has a method [set_mode] with a parameter [mode] whose
    schema carries the enum of the strings [a] and [b]; neither the
    contract, nor the method, nor the parameter carries an [enum] of its
    own. *)
Definition modeScenario (contract : value) : Prop :=
  exists contractMembers methods methodMembers params paramMembers schemaMembers,
    contract = VObj contractMembers /\
    truthy (member "enum" contractMembers) = false /\
    In ("methods", VArr methods) contractMembers /\
    In (VObj methodMembers) methods /\
    truthy (member "enum" methodMembers) = false /\
    member "name" methodMembers = VStr "set_mode" /\
    In ("params", VArr params) methodMembers /\
    In (VObj paramMembers) params /\
    truthy (member "enum" paramMembers) = false /\
    member "name" paramMembers = VStr "mode" /\
    In ("schema", VObj schemaMembers) paramMembers /\
    member "enum" schemaMembers = VArr [VStr "a"; VStr "b"].

(** The contract of the scenario, with or without the [type] of the enum,
    the description of the method, and its result. *)
Definition modeContract (typed described withResult : bool) : value :=
  VObj [("methods",
         VArr [VObj ([("name", str "set_mode"); ("summary", str "Set the mode")] ++
                     (if described
                      then [("description", str "Sets the mode of the grid")]
                      else []) ++
                     [("params",
                       VArr [VObj [("name", str "mode");
                                   ("description", str "The mode");
                                   ("schema",
                                    VObj ((if typed then [("type", str "string")]
                                           else []) ++
                                          [("enum", VArr [str "a"; str "b"])]))]])] ++
                     (if withResult then [("result", VObj [])] else []))])].

(** ** Exceptions and descriptions *)

(** Every exception of [r] satisfies [P]. *)
Definition throwsOnly {A : Type} (P : exn -> Prop) (r : result A) : Prop :=
  forall e, r = Throw e -> P e.

(** An exception that names no description: a type error, a ref that no
    contract resolves, or a type that the table does not know. *)
Definition undescriptive (e : exn) : Prop :=
  e = TypeError \/
  (exists ref, e = Error ("Could not find ref: " +:+ ref)) \/
  (exists type, e = Error ("Unknown type: " +:+ type)).

(** What the Python generation throws: an exception that names no
    description, or [No description] for a method of the backend that has
    none. *)
Definition pythonExceptions (backend : value) (e : exn) : Prop :=
  undescriptive e \/
  exists methods method description methodName,
    (let* listed := prop backend "methods" in iterate listed) = Ok methods /\
    In method methods /\
    prop method "description" = Ok description /\
    truthy description = false /\
    prop method "name" = Ok methodName /\
    e = Error ("No description for '" +:+ toString methodName +:+
               "'; please add a description to the schema").

(** What the TypeScript generation throws: an exception that names no
    description, the exception of reading the metadata, [No description]
    for a property of an object definition, [No properties] for an object
    definition, or [No schema] for a parameter of a method. *)
Definition typescriptExceptions (metadata : result value) (e : exn) : Prop :=
  undescriptive e \/
  metadata = Throw e \/
  (exists typeName key,
     e = Error ("No description for the '" +:+ typeName +:+ "." +:+ key +:+
                "' value; please add a description to the schema")) \/
  (exists typeName,
     e = Error ("No properties for '" +:+ typeName +:+
                "'; please add properties to the schema")) \/
  (exists methodName paramName,
     e = Error ("No schema for '" +:+ methodName +:+ "' parameter '" +:+
                paramName +:+ "'")).

(** The backend declares a shared type that is no object and has no
    description. *)
Definition hasUndescribedAlias (backend : value) : Prop :=
  exists components schemas entries key schema type,
    prop backend "components" = Ok components /\
    truthy components = true /\
    prop components "schemas" = Ok schemas /\
    truthy schemas = true /\
    ownMembers schemas = Ok entries /\
    In (key, schema) entries /\
    prop schema "type" = Ok type /\
    isStr type "object" = false /\
    prop schema "description" = Ok VUndefined.

(** A backend with a shared type that has no description. *)
Definition bareAliasBackend : value :=
  VObj [("methods", VArr []);
        ("components",
         VObj [("schemas", VObj [("row_index", VObj [("type", str "integer")])])])].

(** * Properties *)

(** ** Strings *)

Lemma append_cons (x : ascii) (a b : string) :
  String x a +:+ b = String x (a +:+ b).
Proof. reflexivity. Qed.

Lemma append_assoc (a b c : string) : (a +:+ b) +:+ c = a +:+ (b +:+ c).
Proof.
  induction a as [|x a IH]; [reflexivity|].
  rewrite !append_cons. f_equal. exact IH.
Qed.

Lemma append_empty_r (a : string) : a +:+ EmptyString = a.
Proof.
  induction a as [|x a IH]; [reflexivity|].
  rewrite append_cons. f_equal. exact IH.
Qed.

Lemma isLower_not_underscore (d : ascii) :
  isLower d = true -> Ascii.eqb d "_" = false.
Proof.
  intros H. destruct (Ascii.eqb_spec d "_") as [->|]; [discriminate H | reflexivity].
Qed.

(** ** The naming transformer *)

Lemma replaceUnderscoreLower_spec_bounded (n : nat) :
  forall s, (String.length s <= n)%nat -> underscoresLead s = true ->
            replaceUnderscoreLower s = dropUnderscores false s.
Proof.
  induction n as [|n IH]; intros s Hn Hs.
  - destruct s; [reflexivity | simpl in Hn; lia].
  - destruct s as [|c r]; [reflexivity|].
    simpl in Hn, Hs |- *.
    destruct (Ascii.eqb c "_") eqn:Ec.
    + destruct r as [|d r']; [discriminate Hs|].
      apply andb_true_iff in Hs as [Hd Hr].
      rewrite Hd. simpl in Hr |- *.
      rewrite (isLower_not_underscore _ Hd) in Hr |- *.
      f_equal. apply IH; [simpl in Hn; lia | exact Hr].
    + f_equal. apply IH; [lia | exact Hs].
Qed.

Lemma replaceUnderscoreLower_spec (s : string) :
  underscoresLead s = true -> replaceUnderscoreLower s = dropUnderscores false s.
Proof. apply (replaceUnderscoreLower_spec_bounded (String.length s)). lia. Qed.

Lemma replaceUnderscoreLower_scan (s : string) :
  replaceUnderscoreLower s = scanUnderscores false s /\
  replaceUnderscoreLower (String "_" s) = scanUnderscores true s.
Proof.
  induction s as [|c r [IH1 IH2]]; [split; reflexivity|].
  assert (E : replaceUnderscoreLower (String c r) = scanUnderscores false (String c r)).
  { cbn [replaceUnderscoreLower scanUnderscores].
    destruct (Ascii.eqb_spec c "_") as [->|Hc]; [exact IH2 | now rewrite IH1]. }
  split; [exact E|].
  change (replaceUnderscoreLower (String "_" (String c r)))
    with (if isLower c then String (toUpperCase c) (replaceUnderscoreLower r)
          else String "_" (replaceUnderscoreLower (String c r))).
  rewrite E, IH1. cbn [scanUnderscores].
  now destruct (isLower c).
Qed.

(** C9, as amended. On every name [snakeCaseToCamelCase] replaces the four
    comparison characters and then removes each underscore that stands
    immediately before a lower-case letter, upper-casing that letter, every
    other underscore being kept; [snakeCaseToSentenceCase] does the same and
    upper-cases a leading lower-case letter. On the names whose underscores,
    once the comparison characters are replaced, each stand before a
    lower-case letter, this is the pipeline of the specification, which drops
    every underscore. Both are total functions. *)
Theorem naming_pipeline (name : string) :
  snakeCaseToCamelCase name = toCamel_amended name /\
  snakeCaseToSentenceCase name = upperFirst (toCamel_amended name) /\
  (underscoresLead (escapeComparison name) = true ->
   snakeCaseToCamelCase name = toCamel_spec name /\
   snakeCaseToSentenceCase name = toPascal_spec name).
Proof.
  assert (E : snakeCaseToCamelCase name = toCamel_amended name)
    by apply replaceUnderscoreLower_scan.
  split; [exact E|]. split.
  - unfold snakeCaseToSentenceCase. now rewrite E.
  - intros H.
    assert (E' : snakeCaseToCamelCase name = toCamel_spec name)
      by (apply replaceUnderscoreLower_spec, H).
    unfold snakeCaseToSentenceCase, toPascal_spec. now rewrite E'.
Qed.

Lemma naming_pipeline_witness :
  snakeCaseToCamelCase "row_count>=" = "rowCountGtEq" /\
  snakeCaseToSentenceCase "row_count>=" = "RowCountGtEq".
Proof.
  destruct (naming_pipeline "row_count>=") as (_ & _ & H).
  destruct (H eq_refl) as [Hc Hp].
  rewrite Hc, Hp. split; reflexivity.
Defined.

(** C9 as stated fails: an underscore that no lower-case letter follows is
    kept. *)
Lemma naming_pipeline_counterexample :
  snakeCaseToCamelCase "level_1" = "level_1" /\
  toCamel_spec "level_1" = "level1" /\
  snakeCaseToCamelCase "level_1" <> toCamel_spec "level_1".
Proof. repeat split; try reflexivity. discriminate. Qed.

(** ** Comment wrapping *)

Lemma split_not_nil (c : ascii) (s : string) : split c s <> [].
Proof.
  destruct s as [|d r]; simpl; [discriminate|].
  destruct (Ascii.eqb d c); [discriminate|].
  destruct (split c r); discriminate.
Qed.

Lemma join_cons (sep x : string) (l : list string) :
  l <> [] -> join sep (x :: l) = x +:+ sep +:+ join sep l.
Proof. destruct l; [congruence | reflexivity]. Qed.

Lemma join_split (c : ascii) (s : string) :
  join (String c EmptyString) (split c s) = s.
Proof.
  induction s as [|d r IH]; [reflexivity|].
  simpl. destruct (Ascii.eqb_spec d c) as [->|Hd].
  - rewrite join_cons by apply split_not_nil. rewrite IH. reflexivity.
  - pose proof (split_not_nil c r) as Hne.
    destruct (split c r) as [|w ws]; [congruence|].
    destruct ws as [|w' ws].
    + simpl in IH |- *. now rewrite IH.
    + rewrite join_cons in IH |- * by discriminate.
      rewrite append_cons. now rewrite IH.
Qed.

Lemma join_snoc (sep x : string) (l : list string) :
  l <> [] -> join sep (l ++ [x]) = join sep l +:+ sep +:+ x.
Proof.
  induction l as [|a l IH]; [congruence|]. intros _.
  destruct l as [|b l]; [reflexivity|].
  change ((a :: b :: l) ++ [x]) with (a :: ((b :: l) ++ [x])).
  rewrite join_cons by (destruct l; discriminate).
  rewrite IH by discriminate.
  rewrite (join_cons sep a (b :: l)) by discriminate.
  now rewrite !append_assoc.
Qed.

Lemma join_last_append (sep a b : string) (l : list string) :
  join sep (l ++ [a +:+ b]) = join sep (l ++ [a]) +:+ b.
Proof.
  destruct l as [|x l]; [reflexivity|].
  rewrite <- !app_comm_cons.
  assert (H : x :: l <> []) by discriminate.
  rewrite !app_comm_cons, !join_snoc by exact H.
  now rewrite !append_assoc.
Qed.

Lemma formatLines_flush (line : string) :
  formatLines line =
  flush (fold_left formatLines_step (split " " line) ([], EmptyString)).
Proof.
  unfold formatLines, flush.
  now destruct (fold_left formatLines_step (split " " line) ([], EmptyString)).
Qed.

Lemma length_zero (s : string) : (0 <? String.length s)%nat = nonEmpty s.
Proof. now destruct s. Qed.

Lemma step_join (lines : list string) (cur w : string) :
  nonEmpty cur = true ->
  join " " (flush (formatLines_step (lines, cur) w)) =
  join " " (flush (lines, cur)) +:+ " " +:+ w.
Proof.
  intros Hcur. unfold formatLines_step, flush.
  destruct (70 <? _)%nat; simpl fst; simpl snd.
  - apply join_snoc. destruct lines; discriminate.
  - rewrite length_zero, Hcur.
    rewrite append_assoc. apply join_last_append.
Qed.

Lemma step_current (lines : list string) (cur w : string) :
  nonEmpty cur = true -> nonEmpty w = true ->
  nonEmpty (snd (formatLines_step (lines, cur) w)) = true.
Proof.
  intros Hcur Hw. unfold formatLines_step.
  destruct (70 <? _)%nat; simpl; [exact Hw|].
  rewrite length_zero, Hcur. destruct cur; [discriminate | reflexivity].
Qed.

Lemma fold_join (ws : list string) :
  forall lines cur,
    nonEmpty cur = true -> innerWordsFull ws = true ->
    join " " (flush (fold_left formatLines_step ws (lines, cur))) =
    join " " (flush (lines, cur)) +:+
    String.concat EmptyString (map (fun w => " " +:+ w) ws).
Proof.
  induction ws as [|w rest IH]; intros lines cur Hcur Hws.
  - simpl. now rewrite append_empty_r.
  - cbn [fold_left map String.concat].
    destruct rest as [|w' rest].
    + cbn [fold_left]. rewrite step_join by exact Hcur. reflexivity.
    + cbn [innerWordsFull] in Hws. apply andb_true_iff in Hws as [Hw Hrest].
      pose proof (step_join lines cur w Hcur) as Hj.
      pose proof (step_current lines cur w Hcur Hw) as Hc.
      destruct (formatLines_step (lines, cur) w) as [lines' cur'].
      rewrite IH by assumption. rewrite Hj.
      set (tail := map _ (w' :: rest)).
      cbn [String.concat]. 
      destruct tail eqn:Et; [discriminate Et|].
      rewrite <- Et. now rewrite !append_assoc.
Qed.

Lemma join_map_space (w : string) (ws : list string) :
  join " " (w :: ws) =
  w +:+ String.concat EmptyString (map (fun w => " " +:+ w) ws).
Proof.
  revert w. induction ws as [|w' ws IH]; intros w.
  - simpl. now rewrite append_empty_r.
  - rewrite join_cons by discriminate. rewrite IH.
    cbn [map String.concat].
    destruct (map _ ws) eqn:E.
    + destruct ws; [|discriminate E]. simpl. now rewrite !append_empty_r.
    + now rewrite !append_assoc.
Qed.

Lemma noDoubleSpace_cons (c d : ascii) (r : string) :
  noDoubleSpace (String c (String d r)) =
  negb (Ascii.eqb c " " && Ascii.eqb d " ") && noDoubleSpace (String d r).
Proof. reflexivity. Qed.

Lemma split_words_full (s : string) :
  noDoubleSpace s = true ->
  (startsWithSpace s = false -> innerWordsFull (split " " s) = true) /\
  innerWordsFull (tl (split " " s)) = true.
Proof.
  induction s as [|c r IH]; intros Hs; [split; reflexivity|].
  assert (Hr : noDoubleSpace r = true).
  { destruct r; [reflexivity|]. rewrite noDoubleSpace_cons in Hs.
    apply andb_true_iff in Hs as [_ Hs]. exact Hs. }
  destruct (IH Hr) as [IH1 IH2].
  cbn [split startsWithSpace]. destruct (Ascii.eqb c " ") eqn:Ec.
  - split; [discriminate|]. cbn [tl]. apply IH1.
    destruct r as [|d r']; [reflexivity|].
    rewrite noDoubleSpace_cons, Ec in Hs. cbn [startsWithSpace].
    destruct (Ascii.eqb d " "); [discriminate Hs | reflexivity].
  - pose proof (split_not_nil " " r) as Hne.
    destruct (split " " r) as [|w ws]; [congruence|].
    cbn [tl] in IH2 |- *. split; [intros _ | exact IH2].
    cbn [innerWordsFull]. destruct ws; [reflexivity|].
    now rewrite IH2.
Qed.

Lemma first_word_full (s : string) :
  startsWithSpace s = false -> s <> EmptyString ->
  nonEmpty (firstWord s) = true.
Proof.
  destruct s as [|c r]; [congruence|]. intros Hc _.
  unfold firstWord. simpl in Hc |- *. rewrite Hc.
  now destruct (split " " r).
Qed.

Lemma formatLines_join (line : string) :
  noDoubleSpace line = true -> startsWithSpace line = false ->
  (String.length (firstWord line) < 70)%nat ->
  join " " (formatLines line) = line.
Proof.
  intros Hd Hs Hlen.
  destruct (String.eqb_spec line EmptyString) as [->|Hne]; [reflexivity|].
  rewrite formatLines_flush.
  pose proof (first_word_full line Hs Hne) as Hw.
  destruct (split_words_full line Hd) as [Hfull _]. specialize (Hfull Hs).
  rewrite <- (join_split " " line) at 2.
  unfold firstWord in Hlen, Hw.
  destruct (split " " line) as [|w ws]; [discriminate Hw|].
  cbn [hd] in Hlen, Hw. cbn [fold_left].
  assert (E : formatLines_step ([], EmptyString) w = ([], w)).
  { unfold formatLines_step. cbn [String.length Nat.add].
    destruct (Nat.ltb_spec 70 (String.length w + 1)); [lia | reflexivity]. }
  rewrite E, fold_join.
  - unfold flush. cbn [fst snd app]. change (join " " [w]) with w.
    now rewrite join_map_space.
  - exact Hw.
  - destruct ws as [|w' ws]; [reflexivity|].
    cbn [innerWordsFull] in Hfull. now apply andb_true_iff in Hfull as [_ H].
Qed.

(** *** The words are kept, whatever the text *)

Lemma split_append_sep (c : ascii) (a b : string) :
  split c (a +:+ String c b) = split c a ++ split c b.
Proof.
  induction a as [|x a IH].
  - simpl. now rewrite Ascii.eqb_refl.
  - rewrite append_cons. cbn [split]. rewrite IH.
    destruct (Ascii.eqb x c); [reflexivity|].
    pose proof (split_not_nil c a) as Hne.
    now destruct (split c a); [congruence|].
Qed.

Lemma split_word (c : ascii) (s : string) :
  Forall (fun w => split c w = [w]) (split c s).
Proof.
  induction s as [|d r IH]; [now repeat constructor|].
  cbn [split]. destruct (Ascii.eqb d c) eqn:Ed.
  - constructor; [reflexivity | exact IH].
  - pose proof (split_not_nil c r) as Hne.
    destruct (split c r) as [|w ws]; [congruence|].
    inversion IH as [|? ? Hw Hws]; subst.
    constructor; [|exact Hws].
    cbn [split]. now rewrite Ed, Hw.
Qed.

Lemma wordsOf_append (a b : string) :
  wordsOf (a +:+ " " +:+ b) = wordsOf a ++ wordsOf b.
Proof.
  unfold wordsOf.
  change (a +:+ " " +:+ b) with (a +:+ String " " b).
  now rewrite split_append_sep, List.filter_app.
Qed.

Lemma flat_map_snoc {A B : Type} (f : A -> list B) (l : list A) (x : A) :
  flat_map f (l ++ [x]) = flat_map f l ++ f x.
Proof. rewrite flat_map_app. simpl. now rewrite app_nil_r. Qed.

Lemma step_words (lines : list string) (cur w : string) :
  split " " w = [w] ->
  flat_map wordsOf (flush (formatLines_step (lines, cur) w)) =
  flat_map wordsOf (flush (lines, cur)) ++ List.filter nonEmpty [w].
Proof.
  intros Hw. unfold formatLines_step, flush.
  assert (Ew : wordsOf w = List.filter nonEmpty [w]) by (unfold wordsOf; now rewrite Hw).
  destruct (70 <? _)%nat; cbn [fst snd].
  - now rewrite flat_map_snoc, Ew.
  - rewrite !flat_map_snoc, <- app_assoc. f_equal.
    rewrite length_zero. destruct cur as [|x cur].
    + change (nonEmpty EmptyString) with false. cbv iota. exact Ew.
    + change (nonEmpty (String x cur)) with true. cbv iota.
      rewrite append_assoc, wordsOf_append. now rewrite Ew.
Qed.

Lemma fold_words (ws : list string) :
  forall st,
    Forall (fun w => split " " w = [w]) ws ->
    flat_map wordsOf (flush (fold_left formatLines_step ws st)) =
    flat_map wordsOf (flush st) ++ List.filter nonEmpty ws.
Proof.
  induction ws as [|w rest IH]; intros st Hws.
  - simpl. now rewrite app_nil_r.
  - inversion Hws as [|? ? Hw Hrest]; subst.
    cbn [fold_left]. rewrite IH by exact Hrest.
    destruct st as [lines cur]. rewrite step_words by exact Hw.
    rewrite <- app_assoc. f_equal.
    simpl. now destruct (nonEmpty w).
Qed.

Lemma formatLines_words (line : string) :
  flat_map wordsOf (formatLines line) = wordsOf line.
Proof.
  rewrite formatLines_flush, fold_words by apply split_word. reflexivity.
Qed.

Lemma fold_comment (leader : string) (lines : list string) (acc : string) :
  fold_left (fun result line => result +:+ leader +:+ line +:+ nl) lines acc =
  acc +:+ String.concat EmptyString (map (fun l => leader +:+ l +:+ nl) lines).
Proof.
  revert acc. induction lines as [|l lines IH]; intros acc.
  - simpl. now rewrite append_empty_r.
  - cbn [fold_left map]. rewrite IH.
    cbn [String.concat]. destruct (map _ lines) eqn:E.
    + destruct lines; [|discriminate E]. simpl. now rewrite !append_empty_r.
    + rewrite !append_assoc. reflexivity.
Qed.

(** C10, as amended. On a text that has no two consecutive spaces, does not
    start with a space and whose first word is shorter than 70 characters,
    the lines of [formatLines] joined by single spaces are the text; on
    every text the lines carry the words of the text, each once and in
    order; and [formatComment] writes every line after the leader, ended by
    a line feed. *)
Theorem formatLines_preserves (leader line : string) :
  (noDoubleSpace line = true ->
   startsWithSpace line = false ->
   (String.length (firstWord line) < 70)%nat ->
   join " " (formatLines line) = line) /\
  flat_map wordsOf (formatLines line) = wordsOf line /\
  formatComment leader line =
  String.concat EmptyString (map (fun l => leader +:+ l +:+ nl) (formatLines line)).
Proof.
  split; [|split].
  - apply formatLines_join.
  - apply formatLines_words.
  - unfold formatComment. now rewrite fold_comment.
Qed.

Lemma formatLines_preserves_witness :
  join " " (formatLines "The current mode of the grid") = "The current mode of the grid".
Proof.
  apply (proj1 (formatLines_preserves "/// " "The current mode of the grid"));
    [reflexivity | reflexivity | simpl; lia].
Defined.

(** C10 as stated fails: a leading space is lost, and a first word of 70
    characters or more is preceded by an empty line. *)
Lemma formatLines_counterexample :
  noDoubleSpace " a" = true /\
  formatLines " a" = ["a"] /\
  join " " (formatLines " a") <> " a".
Proof. repeat split; try reflexivity. discriminate. Qed.

(** ** The reference resolver *)

Lemma walk_resolves (parts : list string) :
  forall target,
    walk parts target = Ok true <->
    resolves (List.filter (fun part => negb (String.eqb part "#")) parts) target.
Proof.
  induction parts as [|part rest IH]; intros target.
  - split; [constructor | reflexivity].
  - cbn [walk List.filter]. destruct (String.eqb part "#"); cbn [negb]; [apply IH|].
    split.
    + intros H. destruct (ownMembers target) as [members|] eqn:Em; [|discriminate H].
      cbn [bind] in H. destruct (assoc part members) as [next|] eqn:Ea;
        [|discriminate H].
      econstructor; [exact Em | exact Ea | now apply IH].
    + intros H. inversion H as [|? ? ? next members Em Ea Hr]; subst.
      rewrite Em. cbn [bind]. rewrite Ea. now apply IH.
Qed.

Lemma walk_lacks (parts : list string) :
  forall target,
    walk parts target = Ok false <->
    lacks (List.filter (fun part => negb (String.eqb part "#")) parts) target.
Proof.
  induction parts as [|part rest IH]; intros target.
  - split; [discriminate | intros H; inversion H].
  - cbn [walk List.filter]. destruct (String.eqb part "#"); cbn [negb]; [apply IH|].
    split.
    + intros H. destruct (ownMembers target) as [members|] eqn:Em; [|discriminate H].
      cbn [bind] in H. destruct (assoc part members) as [next|] eqn:Ea.
      * eapply lacks_below; [exact Em | exact Ea | now apply IH].
      * eapply lacks_here; [exact Em | exact Ea].
    + intros H. inversion H as [? ? ? members Em Ea | ? ? ? next members Em Ea Hr];
        subst; rewrite Em; cbn [bind]; rewrite Ea; [reflexivity | now apply IH].
Qed.

(** What a contract that is looked at contributes. *)
Lemma parseRef_step (ref : string) (contract : value) (rest : list value) :
  truthy contract = true ->
  (resolves (segments ref) contract -> nonEmpty (refName ref) = true ->
   parseRef (VStr ref) (contract :: rest) = Ok (refName ref)) /\
  (lacks (segments ref) contract ->
   parseRef (VStr ref) (contract :: rest) = parseRef (VStr ref) rest).
Proof.
  intros Ht. cbn [parseRef]. rewrite Ht. cbn [negb parseRefFromContract].
  split.
  - intros Hr Hn. apply walk_resolves in Hr. rewrite Hr. cbn [bind].
    fold (refName ref). now rewrite Hn.
  - intros Hl. apply walk_lacks in Hl. now rewrite Hl.
Qed.

Lemma parseRef_absent (ref : value) (contract : value) (rest : list value) :
  truthy contract = false ->
  parseRef ref (contract :: rest) = parseRef ref rest.
Proof. intros Ht. cbn [parseRef]. now rewrite Ht. Qed.

Lemma parseRef_found (ref : string) (contracts : list value) (id : string) :
  parseRef (VStr ref) contracts = Ok id ->
  id = refName ref /\ nonEmpty id = true /\
  exists before contract after,
    contracts = before ++ contract :: after /\
    truthy contract = true /\
    resolves (segments ref) contract /\
    Forall (passedOver ref) before.
Proof.
  induction contracts as [|contract rest IH]; [discriminate|].
  intros H. destruct (truthy contract) eqn:Ht.
  - cbn [parseRef] in H. rewrite Ht in H. cbn [negb parseRefFromContract] in H.
    destruct (walk (split "/" ref) contract) as [[|]|] eqn:Ew; cbn [bind] in H;
      [| |discriminate H].
    + fold (refName ref) in H. destruct (nonEmpty (refName ref)) eqn:En.
      * injection H as <-. repeat split; [exact En|].
        exists [], contract, rest. repeat split; [exact Ht | | constructor].
        now apply walk_resolves.
      * destruct (IH H) as (Hid & Hne & before & c & after & -> & Hc & Hr & Hb).
        congruence.
    + destruct (IH H) as (Hid & Hne & before & c & after & -> & Hc & Hr & Hb).
      repeat split; [exact Hid | exact Hne|].
      exists (contract :: before), c, after. repeat split; try assumption.
      constructor; [|exact Hb]. intros _. now apply walk_lacks.
  - rewrite parseRef_absent in H by exact Ht.
    destruct (IH H) as (Hid & Hne & before & c & after & -> & Hc & Hr & Hb).
    repeat split; [exact Hid | exact Hne|].
    exists (contract :: before), c, after. repeat split; try assumption.
    constructor; [|exact Hb]. intros Ht'. congruence.
Qed.

Lemma parseRef_passes (ref : string) (before rest : list value) :
  Forall (passedOver ref) before ->
  parseRef (VStr ref) (before ++ rest) = parseRef (VStr ref) rest.
Proof.
  induction 1 as [|contract before Hc Hb IH]; [reflexivity|].
  rewrite <- app_comm_cons. destruct (truthy contract) eqn:Ht.
  - destruct (parseRef_step ref contract (before ++ rest) Ht) as [_ Hl].
    rewrite Hl by (apply Hc, Ht). exact IH.
  - rewrite parseRef_absent by exact Ht. exact IH.
Qed.

(** C4, as amended. [parseRef] looks at the contracts in the order of the
    list (backend before frontend), passing over the absent ones, and walks
    the parts of the ref as key lookups, skipping every [#] part. An
    identifier it returns is the Pascal-cased last part, is not empty, and
    comes with a present contract in which every segment resolves, every
    present contract before it lacking one; the first such contract decides;
    and when every present contract lacks a segment the error
    [Could not find ref] is thrown. *)
Theorem parseRef_resolution (ref : string) (contracts : list value) :
  (forall id,
     parseRef (VStr ref) contracts = Ok id ->
     id = refName ref /\ nonEmpty id = true /\
     exists before contract after,
       contracts = before ++ contract :: after /\
       truthy contract = true /\
       resolves (segments ref) contract /\
       Forall (passedOver ref) before) /\
  (forall before contract after,
     contracts = before ++ contract :: after ->
     Forall (passedOver ref) before ->
     truthy contract = true ->
     resolves (segments ref) contract ->
     nonEmpty (refName ref) = true ->
     parseRef (VStr ref) contracts = Ok (refName ref)) /\
  (Forall (passedOver ref) contracts ->
   parseRef (VStr ref) contracts = Throw (Error ("Could not find ref: " +:+ ref))).
Proof.
  split; [|split].
  - intros id. apply parseRef_found.
  - intros before contract after -> Hb Ht Hr Hn.
    rewrite parseRef_passes by exact Hb.
    now apply (parseRef_step ref contract after Ht).
  - intros Hall. rewrite <- (app_nil_r contracts).
    now rewrite parseRef_passes.
Qed.

Lemma parseRef_resolution_witness :
  parseRef (VStr "#/components/schemas/column_schema") [VNull; sharedSchemas] =
  Ok "ColumnSchema".
Proof.
  apply (proj1 (proj2 (parseRef_resolution "#/components/schemas/column_schema"
                         [VNull; sharedSchemas]))
           [VNull] sharedSchemas []).
  - reflexivity.
  - constructor; [|constructor]. intros H. discriminate H.
  - reflexivity.
  - apply walk_resolves. reflexivity.
  - reflexivity.
Defined.

(** C4 as stated fails: a [#] inside the ref is skipped too, so a ref
    resolves although one of its segments is not a key. *)
Lemma parseRef_counterexample :
  parseRef (VStr "#/components/#/schemas/column_schema") [sharedSchemas; VNull] =
  Ok "ColumnSchema" /\
  segments_spec "#/components/#/schemas/column_schema" =
  ["components"; "#"; "schemas"; "column_schema"] /\
  ~ resolves (segments_spec "#/components/#/schemas/column_schema") sharedSchemas.
Proof.
  split; [reflexivity|]. split; [reflexivity|].
  intros H. vm_compute in H.
  inversion H as [|part rest target next members Em Ea Hr]; subst.
  vm_compute in Em. injection Em as <-.
  vm_compute in Ea. injection Ea as <-.
  inversion Hr as [|part rest target next members Em Ea Hr']; subst.
  vm_compute in Em. injection Em as <-.
  vm_compute in Ea. discriminate Ea.
Qed.

(** ** The type deriver *)

Lemma withMember_member {B : Type} (name : string) (members : list (string * value))
  (body : value -> B) (missing : B) :
  withMember name members body missing =
  match assoc name members with
  | Some v => body v
  | None => missing
  end.
Proof.
  unfold withMember. induction members as [|[k v] members IH]; [reflexivity|].
  cbn [assoc]. now destruct (String.eqb k name).
Qed.

(** ** Generators *)

Lemma forG_cons {A : Type} (x : A) (l : list A) (f : A -> gen) :
  forG (x :: l) f = andThen (f x) (forG l f).
Proof. reflexivity. Qed.

Lemma forG_ext {A : Type} (l : list A) (f g : A -> gen) :
  (forall x, f x = g x) -> forG l f = forG l g.
Proof.
  intros H. induction l as [|x l IH]; [reflexivity|].
  now rewrite !forG_cons, H, IH.
Qed.

Lemma andThen_empty_r (g : gen) : andThen g (Ok EmptyString) = g.
Proof.
  destruct g as [x|e]; [|reflexivity].
  unfold andThen. cbn [bind]. now rewrite append_empty_r.
Qed.

(** ** The visitors *)

Lemma enumVisitor_object (context : list value) (members : list (string * value))
  (cb : callback) :
  truthy (member "enum" members) = false ->
  enumVisitor context (VObj members) cb =
  forG members (fun m =>
    enumVisitor (enumChildContext (member "name" members) (fst m) context) (snd m) cb).
Proof.
  intros He. cbn [enumVisitor]. rewrite He.
  apply forG_ext. intros [key child]. unfold enumChildContext. cbn [fst snd].
  destruct (truthy (member "name" members)); [reflexivity|].
  now destruct (String.eqb key "properties" || String.eqb key "params").
Qed.

Lemma objectVisitor_object (context : list value) (members : list (string * value))
  (cb : callback) :
  isStr (member "type" members) "object" = false ->
  objectVisitor context (VObj members) cb =
  forG members (fun m =>
    objectVisitor (objectChildContext (fst m) context) (snd m) cb).
Proof.
  intros Ht. cbn [objectVisitor]. rewrite Ht.
  apply forG_ext. intros [key child]. unfold objectChildContext. cbn [fst snd].
  now destruct (String.eqb key "schema").
Qed.

Lemma objectVisitor_node (context : list value) (members : list (string * value))
  (cb : callback) :
  isStr (member "type" members) "object" = true ->
  objectVisitor context (VObj members) cb =
  andThen (cb context (VObj members))
          (objectVisitor context (member "properties" members) cb).
Proof.
  intros Ht. cbn [objectVisitor]. rewrite Ht, withMember_member.
  unfold member. now destruct (assoc "properties" members).
Qed.

(** C8, as amended. The enum visitor enters every child of an object that
    has a [name] with that name pushed, whatever the key; without a name it
    enters the children under [properties] and [params] with the context
    unchanged and every other child, the one under [schema] too, with the
    key pushed. The object visitor never pushes a name: it enters the child
    under [schema] with the context unchanged and every other child, those
    under [properties] and [params] too, with the key pushed; the
    [properties] of an object definition are entered with the context
    unchanged. *)
Theorem visitor_contexts (context : list value) (members : list (string * value))
  (cb : callback) :
  (truthy (member "enum" members) = false ->
   enumVisitor context (VObj members) cb =
   forG members (fun m =>
     enumVisitor (enumChildContext (member "name" members) (fst m) context)
                 (snd m) cb)) /\
  (isStr (member "type" members) "object" = false ->
   objectVisitor context (VObj members) cb =
   forG members (fun m =>
     objectVisitor (objectChildContext (fst m) context) (snd m) cb)) /\
  (isStr (member "type" members) "object" = true ->
   objectVisitor context (VObj members) cb =
   andThen (cb context (VObj members))
           (objectVisitor context (member "properties" members) cb)) /\
  (forall name key,
     truthy name = true -> enumChildContext name key context = name :: context) /\
  (forall name key,
     truthy name = false ->
     enumChildContext name key context =
     if String.eqb key "properties" || String.eqb key "params" then context
     else VStr key :: context) /\
  (forall key,
     objectChildContext key context =
     if String.eqb key "schema" then context else VStr key :: context).
Proof.
  split; [apply enumVisitor_object|].
  split; [apply objectVisitor_object|].
  split; [apply objectVisitor_node|].
  unfold enumChildContext, objectChildContext.
  split; [|split].
  - intros name key ->. reflexivity.
  - intros name key ->. reflexivity.
  - reflexivity.
Qed.

Lemma visitor_contexts_witness :
  enumVisitor [] enumUnderSchema traceContext =
  enumVisitor [str "result"] (VObj [("schema", modeSchema)]) traceContext.
Proof.
  destruct (visitor_contexts [] [("result", VObj [("schema", modeSchema)])]
              traceContext) as [H _].
  unfold enumUnderSchema. rewrite (H eq_refl). apply andThen_empty_r.
Defined.

(** C8 as stated fails: the enum visitor pushes the key [schema], and the
    object visitor pushes the key [params] and not the name of the
    parameter. *)
Lemma visitor_contexts_counterexample :
  enumVisitor [] enumUnderSchema traceContext = Ok "schema,result;" /\
  objectVisitor [] objectUnderParams traceContext = Ok "params;" /\
  enumChildContext VUndefined "schema" [str "result"] <>
  childContext_spec VUndefined "schema" [str "result"] /\
  objectChildContext "params" [] <> childContext_spec (str "options") "params" [].
Proof. repeat split; try reflexivity; discriminate. Qed.

(** ** Generators that return *)

Lemma bind_ok {A B : Type} (r : result A) (k : A -> result B) (b : B) :
  bind r k = Ok b -> exists a, r = Ok a /\ k a = Ok b.
Proof. destruct r as [a|]; [|discriminate]. intros H. now exists a. Qed.

Lemma andThen_ok (a b : gen) (text : string) :
  andThen a b = Ok text -> exists x y, a = Ok x /\ b = Ok y /\ text = x +:+ y.
Proof.
  destruct a as [x|]; [|discriminate]. destruct b as [y|]; [|discriminate].
  intros H. injection H as <-. now exists x, y.
Qed.

Ltac invert_ok :=
  repeat match goal with
         | H : seqG _ = Ok _ |- _ => cbn [seqG fold_right] in H
         | H : andThen _ _ = Ok _ |- _ =>
             apply andThen_ok in H; destruct H as (? & ? & ? & ? & ->)
         | H : bind _ _ = Ok _ |- _ =>
             apply bind_ok in H; destruct H as (? & ? & ?)
         | H : yield _ = Ok _ |- _ => unfold yield in H
         | H : Ok _ = Ok _ |- _ => injection H as <-
         end.

(** ** The orchestrator *)

Section OrchestratorFacts.

Variable year : string.
Variable black : string -> option string.

Lemma readJson_world (file : string) (w : world) :
  readJson file w = (w, snd (readJson file w)).
Proof.
  unfold readJson. destruct (assoc file (commsDir w)) as [[v|]|]; reflexivity.
Qed.

Lemma writeFileSync_present (dir file content : string) (w : world) :
  dir ∈ directories w ->
  writeFileSync dir file content w = (setFile (pathJoin dir file) content w, Ok tt).
Proof. intros H. unfold writeFileSync. now destruct (decide _). Qed.

Lemma execBlack_written (path content : string) (w : world) :
  execBlack black path (setFile path content w) =
  match black content with
  | Some formatted => (setFile path formatted (setFile path content w), Ok tt)
  | None =>
      (setFile path content w,
       Throw (Error ("Command failed: python3 -m black " +:+ path)))
  end.
Proof.
  unfold execBlack. cbn [files setFile]. now rewrite lookup_insert_eq.
Qed.

(** C1, as amended. For a comm whose contracts are read and whose output
    directories exist, the three targets are generated and written in the
    order TypeScript, Rust, Python, each file only once the generation of
    its own target is complete. When a generation throws, the file of that
    target and of the later targets is neither created nor modified, while
    the files of the earlier targets are already written; the three files
    are all written only when the three generations succeed. *)
Theorem processComm_order (name : string) (w : world) (frontend backend : value) :
  readContract (name +:+ "-frontend-openrpc.json") w = (w, Ok frontend) ->
  readContract (name +:+ "-backend-openrpc.json") w = (w, Ok backend) ->
  tsOutputDir ∈ directories w ->
  rustOutputDir ∈ directories w ->
  pythonOutputDir ∈ directories w ->
  match createTypescriptComm year (snd (readJson (name +:+ ".json") w))
          name frontend backend with
  | Throw e => processComm year black name w = (w, Throw e)
  | Ok ts =>
      let w1 := setFile (tsFile name) ts w in
      match createRustComm year name frontend backend with
      | Throw e => processComm year black name w = (w1, Throw e)
      | Ok rust =>
          let w2 := setFile (rustFile name) rust w1 in
          match createPythonComm year name frontend backend with
          | Throw e => processComm year black name w = (w2, Throw e)
          | Ok python =>
              let w3 := setFile (pythonFile name) python w2 in
              processComm year black name w =
              match black python with
              | Some formatted =>
                  pushComm name (setFile (pythonFile name) formatted w3)
              | None =>
                  (w3, Throw (Error ("Command failed: python3 -m black " +:+
                                     pythonFile name)))
              end
          end
      end
  end.
Proof.
  intros Hf Hb Hts Hrust Hpy.
  unfold processComm, bindM. rewrite Hf, Hb.
  unfold attempt. rewrite readJson_world. unfold lift.
  destruct (createTypescriptComm _ _ _ _ _) as [ts|e]; [|reflexivity].
  rewrite writeFileSync_present by exact Hts. fold (tsFile name).
  destruct (createRustComm _ _ _ _) as [rust|e]; [|reflexivity].
  rewrite writeFileSync_present by exact Hrust. fold (rustFile name).
  destruct (createPythonComm _ _ _ _) as [python|e]; [|reflexivity].
  rewrite writeFileSync_present by exact Hpy. fold (pythonFile name).
  cbv zeta. rewrite execBlack_written.
  now destruct (black python).
Qed.

End OrchestratorFacts.

Lemma processComm_order_witness :
  snd (processComm "2024" blackIdentity "ping" (pingWorld (pingBackend false true))) =
  Throw (Error "No description for 'do_ping'; please add a description to the schema").
Proof.
  pose proof (processComm_order "2024" blackIdentity "ping"
                (pingWorld (pingBackend false true)) VNull (pingBackend false true)
                eq_refl eq_refl) as H.
  assert (Hts : tsOutputDir ∈ directories (pingWorld (pingBackend false true)))
    by (apply (bool_decide_unpack _); vm_compute; reflexivity).
  assert (Hrust : rustOutputDir ∈ directories (pingWorld (pingBackend false true)))
    by (apply (bool_decide_unpack _); vm_compute; reflexivity).
  assert (Hpy : pythonOutputDir ∈ directories (pingWorld (pingBackend false true)))
    by (apply (bool_decide_unpack _); vm_compute; reflexivity).
  specialize (H Hts Hrust Hpy).
  exact (f_equal snd H).
Defined.

(** C1 as stated fails: the Python generation throws after the TypeScript
    and Rust files of the comm are written. *)
Lemma processComm_counterexample :
  isOk (createTypescriptComm "2024" (Ok (VObj [("name", str "ping")])) "ping" VNull
          (pingBackend false true)) = true /\
  isOk (createRustComm "2024" "ping" VNull (pingBackend false true)) = true /\
  createPythonComm "2024" "ping" VNull (pingBackend false true) =
  Throw (Error "No description for 'do_ping'; please add a description to the schema") /\
  let end_ := processComm "2024" blackIdentity "ping"
                (pingWorld (pingBackend false true)) in
  snd end_ =
  Throw (Error "No description for 'do_ping'; please add a description to the schema") /\
  map fst (map_to_list (files (fst end_))) = [tsFile "ping"; rustFile "ping"].
Proof. vm_compute. repeat split; reflexivity. Qed.

(** ** Failures propagate *)

Lemma bind_fails {A B : Type} (r : result A) (k : A -> result B) :
  fails r -> fails (bind r k).
Proof. intros [e ->]. now exists e. Qed.

Lemma andThen_fails_l (a b : gen) : fails a -> fails (andThen a b).
Proof. intros [e ->]. now exists e. Qed.

Lemma andThen_fails_r (a b : gen) : fails b -> fails (andThen a b).
Proof.
  intros [e ->]. destruct a as [x|e']; [now exists e | now exists e'].
Qed.

Lemma seqG_fails (body : list gen) (g : gen) :
  In g body -> fails g -> fails (seqG body).
Proof.
  induction body as [|a body IH]; [intros []|].
  intros [->|Hin] Hg; cbn [seqG fold_right].
  - now apply andThen_fails_l.
  - apply andThen_fails_r. now apply IH.
Qed.

Lemma forG_fails {A : Type} (l : list A) (body : A -> gen) (x : A) :
  In x l -> fails (body x) -> fails (forG l body).
Proof.
  induction l as [|a l IH]; [intros []|].
  intros [->|Hin] Hx; rewrite forG_cons.
  - now apply andThen_fails_l.
  - apply andThen_fails_r. now apply IH.
Qed.

Lemma objectVisitor_fails (cb : callback) (context : list value) (root : value)
  (context' : list value) (node : value) :
  reaches context root context' node ->
  fails (cb context' node) ->
  fails (objectVisitor context root cb).
Proof.
  intros Hr Hcb.
  induction Hr as [context members Ht
                  |context members context' node Ht Hr IH
                  |context members key child context' node Ht Hin Hr IH
                  |context items item context' node Hin Hr IH].
  - rewrite objectVisitor_node by exact Ht. now apply andThen_fails_l.
  - rewrite objectVisitor_node by exact Ht. apply andThen_fails_r. now apply IH.
  - rewrite objectVisitor_object by exact Ht.
    apply (forG_fails members _ (key, child) Hin). now apply IH.
  - cbn [objectVisitor]. apply (forG_fails items _ item Hin). now apply IH.
Qed.

(** ** Missing descriptions *)

Lemma typescriptProperty_undescribed (contracts : list value) (name required : value)
  (key : string) (schema description : value) :
  prop schema "description" = Ok description ->
  truthy description = false ->
  typescriptProperty contracts name required (key, schema) =
  Throw (Error ("No description for the '" +:+ toString name +:+ "." +:+ key +:+
                "' value; please add a description to the schema")).
Proof.
  intros Hd Ht. unfold typescriptProperty. rewrite Hd. cbn [bind]. now rewrite Ht.
Qed.

Lemma typescriptProperty_fails (contracts : list value) (name required : value)
  (key : string) (schema : value) :
  (forall description,
     prop schema "description" = Ok description -> truthy description = false) ->
  fails (typescriptProperty contracts name required (key, schema)).
Proof.
  intros H. unfold typescriptProperty.
  destruct (prop schema "description") as [description|e] eqn:Hd;
    [|now exists e].
  cbn [bind]. rewrite (H description eq_refl). cbn [negb]. eexists; reflexivity.
Qed.

Lemma createTypescriptInterface_fails (contracts : list value)
  (name description required additionalProperties : value)
  (members : list (string * value)) (key : string) (schema : value) :
  In (key, schema) members ->
  (forall d, prop schema "description" = Ok d -> truthy d = false) ->
  fails (createTypescriptInterface contracts name description (VObj members)
           required additionalProperties).
Proof.
  intros Hin Hd. unfold createTypescriptInterface.
  destruct (negb (truthy description)); [eexists; reflexivity|].
  eapply seqG_fails.
  - do 5 right. left. reflexivity.
  - cbn [ownMembers bind].
    apply (forG_fails members _ (key, schema) Hin).
    now apply typescriptProperty_fails.
Qed.

Lemma typescriptObject_fails (contracts context : list value) (node : value) :
  hasUndescribedProperty node ->
  fails (typescriptObject contracts context node).
Proof.
  intros (members & key & schema & Hp & Hin & Hd).
  unfold typescriptObject.
  destruct (typescriptObjectName context node) as [name|e]; [|now exists e].
  cbn [bind].
  destruct (prop node "description") as [description|e]; [|now exists e].
  cbn [bind].
  match goal with
  | |- fails (bind ?r _) => destruct r as [description'|e]; [|now exists e]
  end.
  cbn [bind].
  destruct (prop node "additionalProperties") as [additional|e]; [|now exists e].
  cbn [bind]. rewrite Hp. cbn [bind].
  destruct (prop node "required") as [required|e]; [|now exists e].
  cbn [bind].
  now apply (createTypescriptInterface_fails _ _ _ _ _ members key schema).
Qed.

Lemma createTypescriptComm_fails (year : string) (metadata : result value)
  (name : string) (frontend backend source : value)
  (context : list value) (node : value) :
  In source [backend; frontend] ->
  truthy source = true ->
  reaches [] source context node ->
  hasUndescribedProperty node ->
  fails (createTypescriptComm year metadata name frontend backend).
Proof.
  intros Hin Ht Hr Hu. unfold createTypescriptComm.
  destruct metadata as [m|e]; [|now exists e]. cbn [bind].
  eapply seqG_fails.
  - do 3 right. left. reflexivity.
  - apply (forG_fails _ _ source Hin). rewrite Ht. cbn [when].
    eapply seqG_fails; [left; reflexivity|].
    apply (objectVisitor_fails _ _ _ context node Hr).
    now apply typescriptObject_fails.
Qed.

Lemma pythonRequest_undescribed (contracts : list value) (name : string)
  (members : list (string * value)) :
  truthy (member "description" members) = false ->
  pythonRequest contracts name (VObj members) =
  Throw (Error ("No description for '" +:+ toString (member "name" members) +:+
                "'; please add a description to the schema")).
Proof.
  intros Hd. unfold pythonRequest. cbn [prop bind]. now rewrite Hd.
Qed.

Lemma createPythonComm_fails (year name : string) (frontend backend : value)
  (methods : list value) (members : list (string * value)) :
  truthy backend = true ->
  prop backend "methods" = Ok (VArr methods) ->
  In (VObj members) methods ->
  truthy (member "description" members) = false ->
  fails (createPythonComm year name frontend backend).
Proof.
  intros Hb Hm Hin Hd. unfold createPythonComm.
  eapply seqG_fails.
  - do 3 right. left. reflexivity.
  - rewrite Hb. cbn [when]. rewrite Hm. cbn [bind iterate].
    apply (forG_fails methods _ (VObj members) Hin).
    rewrite pythonRequest_undescribed by exact Hd. eexists; reflexivity.
Qed.

Lemma pythonFile_not_tsFile (name name' : string) : pythonFile name <> tsFile name'.
Proof. intros H. vm_compute in H. discriminate H. Qed.

Lemma pythonFile_not_rustFile (name name' : string) : pythonFile name <> rustFile name'.
Proof. intros H. vm_compute in H. discriminate H. Qed.

Section AbortedTargets.

Variable year : string.
Variable black : string -> option string.

Lemma writeFileSync_other (dir file content path : string) (w : world) :
  pathJoin dir file <> path ->
  files (fst (writeFileSync dir file content w)) !! path = files w !! path.
Proof.
  intros Hne. unfold writeFileSync. destruct (decide _); [|reflexivity].
  cbn [fst files setFile]. now rewrite lookup_insert_ne.
Qed.

Lemma writeFileSync_throws (dir file content : string) (w w' : world) (e : exn) :
  writeFileSync dir file content w = (w', Throw e) -> w' = w.
Proof.
  unfold writeFileSync. destruct (decide _); [discriminate|]. congruence.
Qed.

Lemma processComm_typescript_aborts (name : string) (w : world)
  (frontend backend : value) :
  readContract (name +:+ "-frontend-openrpc.json") w = (w, Ok frontend) ->
  readContract (name +:+ "-backend-openrpc.json") w = (w, Ok backend) ->
  fails (createTypescriptComm year (snd (readJson (name +:+ ".json") w))
           name frontend backend) ->
  fst (processComm year black name w) = w.
Proof.
  intros Hf Hb [e He].
  unfold processComm, bindM. rewrite Hf, Hb.
  unfold attempt. rewrite readJson_world. unfold lift. now rewrite He.
Qed.

Lemma processComm_python_aborts (name : string) (w : world)
  (frontend backend : value) :
  readContract (name +:+ "-frontend-openrpc.json") w = (w, Ok frontend) ->
  readContract (name +:+ "-backend-openrpc.json") w = (w, Ok backend) ->
  fails (createPythonComm year name frontend backend) ->
  files (fst (processComm year black name w)) !! pythonFile name =
  files w !! pythonFile name.
Proof.
  intros Hf Hb [e He].
  unfold processComm, bindM. rewrite Hf, Hb.
  unfold attempt. rewrite readJson_world. unfold lift.
  destruct (createTypescriptComm _ _ _ _ _) as [ts|]; [|reflexivity].
  pose proof (writeFileSync_other tsOutputDir
                ("positron" +:+ snakeCaseToSentenceCase name +:+ "Comm.ts") ts
                (pythonFile name) w) as H1.
  destruct (writeFileSync tsOutputDir _ ts w) as [w1 [[]|e1]] eqn:E1;
    cbn [fst] in H1.
  2:{ now rewrite (writeFileSync_throws _ _ _ _ _ _ E1). }
  rewrite <- H1 by (apply not_eq_sym, pythonFile_not_tsFile).
  destruct (createRustComm _ _ _ _) as [rust|]; [|reflexivity].
  pose proof (writeFileSync_other rustOutputDir (name +:+ "_comm.rs") rust
                (pythonFile name) w1) as H2.
  destruct (writeFileSync rustOutputDir _ rust w1) as [w2 [[]|e2]] eqn:E2;
    cbn [fst] in H2.
  2:{ now rewrite (writeFileSync_throws _ _ _ _ _ _ E2). }
  rewrite <- H2 by (apply not_eq_sym, pythonFile_not_rustFile).
  now rewrite He.
Qed.

End AbortedTargets.

(** ** Scenarios *)

(** C7 on the code. While the frontend contract is visited, the aliases
    written are those of the backend: with both contracts declaring shared
    types the alias of the frontend is never written and the one of the
    backend is written twice, and with the frontend alone the generation
    stops on a [TypeError]. *)
Theorem shared_aliases_read_backend :
  rustAliases [aliasBackend; aliasFrontend] aliasFrontend aliasBackend =
  Ok ("/// A row index" +:+ nl +:+ "type RowIndex = i64;" +:+ nl +:+ nl) /\
  typescriptAliases [aliasBackend; aliasFrontend] aliasFrontend aliasBackend =
  Ok ("/**" +:+ nl +:+ " * A row index" +:+ nl +:+ " */" +:+ nl +:+
      "export type RowIndex = number;" +:+ nl +:+ nl) /\
  mentions "type EventId"
    (createRustComm "2024" "grid" aliasFrontend aliasBackend) = false /\
  mentions ("type RowIndex = i64;" +:+ nl +:+ nl +:+
            "/// A row index" +:+ nl +:+ "type RowIndex = i64;")
    (createRustComm "2024" "grid" aliasFrontend aliasBackend) = true /\
  mentions "type EventId"
    (createTypescriptComm "2024" (Ok (VObj [("name", str "grid")])) "grid"
       aliasFrontend aliasBackend) = false /\
  createRustComm "2024" "grid" aliasFrontend VNull = Throw TypeError /\
  createTypescriptComm "2024" (Ok (VObj [("name", str "grid")])) "grid"
    aliasFrontend VNull = Throw TypeError.
Proof. vm_compute. repeat split; reflexivity. Qed.

(** * Further properties *)

(** ** The naming transformer leaves identifiers alone *)

Lemma toUpperCase_plain (c : ascii) :
  isLower c = true ->
  isLower (toUpperCase c) = false /\ isComparison (toUpperCase c) = false /\
  Ascii.eqb (toUpperCase c) "_" = false.
Proof.
  destruct c as [[] [] [] [] [] [] [] []]; vm_compute; intros H;
    try discriminate H; repeat split.
Qed.

Lemma noneOf_append (p : ascii -> bool) (a b : string) :
  noneOf p (a +:+ b) = noneOf p a && noneOf p b.
Proof.
  induction a as [|x a IH]; [reflexivity|].
  rewrite append_cons. cbn [noneOf]. rewrite IH. now rewrite andb_assoc.
Qed.

Lemma replaceAll_removes (c : ascii) (by_ s : string) :
  noneOf (Ascii.eqb c) by_ = true ->
  noneOf (Ascii.eqb c) (replaceAll c by_ s) = true.
Proof.
  intros Hby. induction s as [|d r IH]; [reflexivity|].
  cbn [replaceAll]. destruct (Ascii.eqb d c) eqn:Ed.
  - now rewrite noneOf_append, Hby.
  - cbn [noneOf]. now rewrite Ascii.eqb_sym, Ed, IH.
Qed.

Lemma replaceAll_keeps (d c : ascii) (by_ s : string) :
  noneOf (Ascii.eqb d) by_ = true ->
  noneOf (Ascii.eqb d) s = true ->
  noneOf (Ascii.eqb d) (replaceAll c by_ s) = true.
Proof.
  intros Hby. induction s as [|x r IH]; [reflexivity|].
  cbn [replaceAll noneOf]. intros H. apply andb_true_iff in H as [Hx Hr].
  destruct (Ascii.eqb x c).
  - now rewrite noneOf_append, Hby, IH.
  - cbn [noneOf]. now rewrite Hx, IH.
Qed.

Lemma replaceAll_absent (c : ascii) (by_ s : string) :
  noneOf (Ascii.eqb c) s = true -> replaceAll c by_ s = s.
Proof.
  induction s as [|x r IH]; [reflexivity|].
  cbn [replaceAll noneOf]. intros H. apply andb_true_iff in H as [Hx Hr].
  rewrite Ascii.eqb_sym. destruct (Ascii.eqb c x); [discriminate Hx|].
  now rewrite IH.
Qed.

Lemma noneOf_isComparison (s : string) :
  noneOf isComparison s =
  noneOf (Ascii.eqb "=") s && noneOf (Ascii.eqb "!") s &&
  noneOf (Ascii.eqb "<") s && noneOf (Ascii.eqb ">") s.
Proof.
  induction s as [|c r IH]; [reflexivity|].
  cbn [noneOf]. rewrite IH. unfold isComparison.
  rewrite (Ascii.eqb_sym c "="), (Ascii.eqb_sym c "!"),
    (Ascii.eqb_sym c "<"), (Ascii.eqb_sym c ">").
  destruct (Ascii.eqb "=" c), (Ascii.eqb "!" c), (Ascii.eqb "<" c),
    (Ascii.eqb ">" c), (noneOf (Ascii.eqb "=") r), (noneOf (Ascii.eqb "!") r),
    (noneOf (Ascii.eqb "<") r), (noneOf (Ascii.eqb ">") r); reflexivity.
Qed.

Lemma escapeComparison_clean (name : string) :
  noneOf isComparison (escapeComparison name) = true.
Proof.
  rewrite noneOf_isComparison. unfold escapeComparison.
  repeat (apply andb_true_iff; split);
    repeat first [ apply replaceAll_removes; reflexivity
                 | apply replaceAll_keeps; [reflexivity|] ].
Qed.

Lemma escapeComparison_identifier (s : string) :
  noneOf isComparison s = true -> escapeComparison s = s.
Proof.
  rewrite noneOf_isComparison. intros H.
  apply andb_true_iff in H as [H Hgt]. apply andb_true_iff in H as [H Hlt].
  apply andb_true_iff in H as [Heq Hnot].
  unfold escapeComparison.
  now rewrite (replaceAll_absent "=") by exact Heq;
    rewrite (replaceAll_absent "!") by exact Hnot;
    rewrite (replaceAll_absent "<") by exact Hlt;
    rewrite (replaceAll_absent ">") by exact Hgt.
Qed.

Lemma settled_cons (c d : ascii) (r : string) :
  settled (String c (String d r)) =
  negb (Ascii.eqb c "_" && isLower d) && settled (String d r).
Proof. reflexivity. Qed.

Lemma replaceUnderscoreLower_settled_id (s : string) :
  settled s = true -> replaceUnderscoreLower s = s.
Proof.
  induction s as [|c r IH]; [reflexivity|]. intros H.
  assert (Hr : settled r = true).
  { destruct r; [reflexivity|]. rewrite settled_cons in H.
    now apply andb_true_iff in H as [_ H]. }
  cbn [replaceUnderscoreLower]. destruct (Ascii.eqb c "_") eqn:Ec.
  - destruct r as [|d r']; [reflexivity|].
    rewrite settled_cons, Ec in H. cbn [andb] in H.
    destruct (isLower d); [discriminate H|]. now rewrite IH.
  - now rewrite IH.
Qed.

Lemma settled_underscore (s : string) :
  settled (String "_" s) = headNotLower s && settled s.
Proof. destruct s; reflexivity. Qed.

Lemma settled_other (c : ascii) (s : string) :
  Ascii.eqb c "_" = false -> settled (String c s) = settled s.
Proof. intros H. destruct s; [reflexivity|]. now rewrite settled_cons, H. Qed.

Lemma replaceUnderscoreLower_shape (n : nat) :
  forall s, (String.length s <= n)%nat ->
    settled (replaceUnderscoreLower s) = true /\
    (headNotLower s = true -> headNotLower (replaceUnderscoreLower s) = true) /\
    (forall p, (forall c, isLower c = true -> p (toUpperCase c) = false) ->
               noneOf p s = true -> noneOf p (replaceUnderscoreLower s) = true).
Proof.
  induction n as [|n IH]; intros s Hn.
  - destruct s; [repeat split; auto | simpl in Hn; lia].
  - destruct s as [|c r]; [repeat split; auto|].
    simpl in Hn. assert (Hr : (String.length r <= n)%nat) by lia.
    destruct (IH r Hr) as (IHs & IHh & IHp).
    cbn [replaceUnderscoreLower]. destruct (Ascii.eqb_spec c "_") as [->|Hc].
    + destruct r as [|d r']; [repeat split; auto|].
      destruct (isLower d) eqn:Hd.
      * destruct (toUpperCase_plain d Hd) as (Hl & _ & Hu).
        assert (Hr' : (String.length r' <= n)%nat) by (simpl in Hr; lia).
        destruct (IH r' Hr') as (IHs' & _ & IHp').
        split; [|split].
        -- now rewrite settled_other.
        -- intros _. cbn [headNotLower]. now rewrite Hl.
        -- intros p Hp H. cbn [noneOf] in H |- *.
           apply andb_true_iff in H as [_ H]. apply andb_true_iff in H as [_ H].
           now rewrite (Hp d Hd), IHp'.
      * split; [|split].
        -- rewrite settled_underscore, IHs, andb_true_r. apply IHh.
           cbn [headNotLower]. now rewrite Hd.
        -- intros _. reflexivity.
        -- intros p Hp H. cbn [noneOf] in H.
           apply andb_true_iff in H as [H1 H2].
           change (noneOf p (String "_" (replaceUnderscoreLower (String d r'))))
             with (negb (p "_"%char) && noneOf p (replaceUnderscoreLower (String d r'))).
           rewrite H1. apply IHp; [exact Hp|]. exact H2.
    + apply Ascii.eqb_neq in Hc. split; [|split].
      * now rewrite settled_other.
      * intros H. exact H.
      * intros p Hp H. cbn [noneOf] in H |- *.
        apply andb_true_iff in H as [H1 H2]. now rewrite H1, IHp.
Qed.

Lemma snakeCaseToCamelCase_identifier (name : string) :
  isIdentifier (snakeCaseToCamelCase name) = true.
Proof.
  unfold isIdentifier, snakeCaseToCamelCase.
  destruct (replaceUnderscoreLower_shape _ (escapeComparison name) (le_n _))
    as (Hs & _ & Hp).
  rewrite Hs, andb_true_r. apply Hp; [|apply escapeComparison_clean].
  intros c Hc. now destruct (toUpperCase_plain c Hc) as (_ & H & _).
Qed.

Lemma camel_of_identifier (s : string) :
  isIdentifier s = true -> snakeCaseToCamelCase s = s.
Proof.
  unfold isIdentifier. intros H. apply andb_true_iff in H as [Hc Hs].
  unfold snakeCaseToCamelCase.
  now rewrite escapeComparison_identifier, replaceUnderscoreLower_settled_id.
Qed.

Lemma upperFirst_identifier (s : string) :
  isIdentifier s = true -> isIdentifier (upperFirst s) = true.
Proof.
  destruct s as [|c r]; [auto|]. cbn [upperFirst].
  destruct (isLower c) eqn:Hc; [|auto].
  destruct (toUpperCase_plain c Hc) as (_ & Hcmp & Hu).
  unfold isIdentifier. cbn [noneOf]. intros H.
  apply andb_true_iff in H as [H1 H2]. apply andb_true_iff in H1 as [_ H1].
  rewrite Hcmp, H1. cbn [negb andb].
  rewrite settled_other by exact Hu.
  destruct r as [|d r']; [reflexivity|]. rewrite settled_cons in H2.
  now apply andb_true_iff in H2 as [_ H2].
Qed.

Lemma upperFirst_idempotent (s : string) : upperFirst (upperFirst s) = upperFirst s.
Proof.
  destruct s as [|c r]; [reflexivity|]. cbn [upperFirst].
  destruct (isLower c) eqn:Hc; cbn [upperFirst].
  - now destruct (toUpperCase_plain c Hc) as (-> & _).
  - now rewrite Hc.
Qed.

(** X1. The identifiers the transformer returns hold none of the comparison
    characters [=], [!], [<], [>] and no underscore before a lower-case
    letter, whatever the name they are made from. *)
Theorem naming_output_identifier (name : string) :
  isIdentifier (snakeCaseToCamelCase name) = true /\
  isIdentifier (snakeCaseToSentenceCase name) = true.
Proof.
  split; [apply snakeCaseToCamelCase_identifier|].
  apply upperFirst_identifier, snakeCaseToCamelCase_identifier.
Qed.

(** X2. The transformer is idempotent, alone and mixed: converting an
    identifier that is already converted changes nothing, and the Pascal
    case of a camel-cased name is the Pascal case of the name. *)
Theorem naming_idempotent (name : string) :
  snakeCaseToCamelCase (snakeCaseToCamelCase name) = snakeCaseToCamelCase name /\
  snakeCaseToSentenceCase (snakeCaseToSentenceCase name) =
  snakeCaseToSentenceCase name /\
  snakeCaseToCamelCase (snakeCaseToSentenceCase name) =
  snakeCaseToSentenceCase name /\
  snakeCaseToSentenceCase (snakeCaseToCamelCase name) =
  snakeCaseToSentenceCase name.
Proof.
  pose proof (snakeCaseToCamelCase_identifier name) as Hi.
  assert (Hp : isIdentifier (snakeCaseToSentenceCase name) = true)
    by apply upperFirst_identifier, snakeCaseToCamelCase_identifier.
  assert (Hc : snakeCaseToCamelCase (snakeCaseToCamelCase name) =
               snakeCaseToCamelCase name)
    by now apply camel_of_identifier.
  split; [exact Hc|]. split; [|split].
  - unfold snakeCaseToSentenceCase at 1. rewrite camel_of_identifier by exact Hp.
    apply upperFirst_idempotent.
  - now apply camel_of_identifier.
  - unfold snakeCaseToSentenceCase at 1. now rewrite Hc.
Qed.

(** ** The width of wrapped lines *)

Lemma length_append (a b : string) :
  String.length (a +:+ b) = (String.length a + String.length b)%nat.
Proof.
  induction a as [|x a IH]; [reflexivity|].
  rewrite append_cons. cbn [String.length]. now rewrite IH.
Qed.

Lemma step_width (words lines : list string) (cur w : string)
  (fits := fun l => (String.length l <= 70)%nat \/ In l words) :
  In w words -> Forall fits lines -> fits cur ->
  Forall fits (fst (formatLines_step (lines, cur) w)) /\
  fits (snd (formatLines_step (lines, cur) w)).
Proof.
  intros Hw Hl Hc. unfold formatLines_step.
  destruct (Nat.ltb_spec 70 (String.length cur + String.length w + 1)) as [Hlt|Hle];
    cbn [fst snd].
  - split; [|now right]. apply Forall_app. split; [exact Hl|]. now constructor.
  - split; [exact Hl|]. left.
    destruct (0 <? String.length cur)%nat;
      rewrite !length_append; cbn [String.length]; lia.
Qed.

Lemma fold_width (words ws lines : list string) (cur : string)
  (fits := fun l => (String.length l <= 70)%nat \/ In l words) :
  incl ws words -> Forall fits lines -> fits cur ->
  Forall fits (flush (fold_left formatLines_step ws (lines, cur))).
Proof.
  revert lines cur. induction ws as [|w ws IH]; intros lines cur Hin Hl Hc.
  - unfold flush. cbn [fold_left fst snd]. apply Forall_app. split; [exact Hl|].
    now constructor.
  - cbn [fold_left].
    destruct (step_width words lines cur w) as [Hl' Hc']; try assumption.
    { apply Hin. now left. }
    destruct (formatLines_step (lines, cur) w) as [lines' cur'].
    apply IH; try assumption. intros x Hx. apply Hin. now right.
Qed.

(** X3. Every line [formatLines] returns is at most 70 characters long or
    is one single word of the text; so no line is longer than 70 characters
    when no word of the text is. *)
Theorem formatLines_width (line : string) :
  Forall (fun l => (String.length l <= 70)%nat \/ In l (split " " line))
         (formatLines line) /\
  (Forall (fun w => (String.length w <= 70)%nat) (split " " line) ->
   Forall (fun l => (String.length l <= 70)%nat) (formatLines line)).
Proof.
  assert (H : Forall (fun l => (String.length l <= 70)%nat \/ In l (split " " line))
                     (formatLines line)).
  { rewrite formatLines_flush. apply fold_width.
    - intros x Hx. exact Hx.
    - constructor.
    - left. cbn. lia. }
  split; [exact H|]. intros Hw.
  eapply List.Forall_impl; [|exact H]. cbn beta. intros l [Hl|Hl]; [exact Hl|].
  rewrite List.Forall_forall in Hw. exact (Hw l Hl).
Qed.

Lemma formatLines_width_witness :
  Forall (fun l => (String.length l <= 70)%nat)
         (formatLines "The mode of the grid, as set by the last call of set_mode that came back without an error").
Proof.
  apply (proj2 (formatLines_width _)).
  vm_compute split.
  repeat (apply List.Forall_cons; [cbn [String.length]; lia|]).
  apply List.Forall_nil.
Defined.

(** ** Values, by their structure *)

Lemma value_nested_ind (P : value -> Prop) :
  P VUndefined -> P VNull -> (forall b, P (VBool b)) -> (forall n, P (VNum n)) ->
  (forall s, P (VStr s)) ->
  (forall items, Forall P items -> P (VArr items)) ->
  (forall members, Forall (fun m => P (snd m)) members -> P (VObj members)) ->
  forall v, P v.
Proof.
  intros Hu Hn Hb Hz Hs Ha Ho.
  fix IH 1. intros [| |b|n|s|items|members].
  - exact Hu.
  - exact Hn.
  - apply Hb.
  - apply Hz.
  - apply Hs.
  - apply Ha. induction items as [|x items IHitems]; constructor; [apply IH | exact IHitems].
  - apply Ho. induction members as [|[k x] members IHmembers]; constructor;
      [apply IH | exact IHmembers].
Qed.

Lemma Forall_assoc (P : value -> Prop) (members : list (string * value))
  (name : string) (v : value) :
  Forall (fun m => P (snd m)) members -> assoc name members = Some v -> P v.
Proof.
  induction 1 as [|[k x] members Hx _ IH]; [discriminate|].
  cbn [assoc]. destruct (String.eqb k name); [|exact IH].
  intros H. injection H as <-. exact Hx.
Qed.

(** ** The three targets derive types together *)

Lemma sameOutcome_refl {A : Type} (r : result A) : sameOutcome r r.
Proof. now destruct r. Qed.

Lemma deriveType_sameOutcome (contracts : list value) (m1 m2 : list (string * string))
  (key : value) :
  sameKinds m1 m2 ->
  forall schema,
    sameOutcome (deriveType contracts m1 key schema)
                (deriveType contracts m2 key schema).
Proof.
  intros Hk schema. induction schema as [| | | | |items _|members IH]
    using value_nested_ind; try exact I; try reflexivity.
  cbn [deriveType].
  destruct (isStr (member "type" members) "array").
  - rewrite !withMember_member.
    destruct (assoc "items" members) as [items|] eqn:Ei; [|reflexivity].
    pose proof (Forall_assoc
                  (fun v => sameOutcome (deriveType contracts m1 key v)
                                        (deriveType contracts m2 key v))
                  _ _ _ IH Ei) as Hi. cbn beta in Hi.
    destruct (deriveType contracts m1 key items), (deriveType contracts m2 key items);
      cbn [bind]; exact Hi.
  - destruct (truthy (member "$ref" members)); [apply sameOutcome_refl|].
    destruct (isStr (member "type" members) "object"); [apply sameOutcome_refl|].
    destruct (member "type" members) as [| | | |kind| |]; try reflexivity.
    specialize (Hk kind).
    destruct (assoc kind m1), (assoc kind m2); cbn; try exact I; try reflexivity.
    + destruct Hk as [_ Hk]. now specialize (Hk eq_refl).
    + destruct Hk as [Hk _]. now specialize (Hk eq_refl).
Qed.

Lemma tables_sameKinds :
  sameKinds TypescriptTypeMap RustTypeMap /\ sameKinds RustTypeMap PythonTypeMap.
Proof.
  split; intros kind; cbn [TypescriptTypeMap RustTypeMap PythonTypeMap assoc];
    repeat match goal with
           | |- context [String.eqb ?a kind] => destruct (String.eqb a kind)
           end; split; intros H; first [discriminate H | reflexivity].
Qed.

(** X4. A schema has a type in one target exactly when it has one in every
    target: on the same contracts, key and schema, [deriveType] with the
    TypeScript, the Rust and the Python table either returns three times or
    throws the same exception three times. *)
Theorem deriveType_targets_agree (contracts : list value) (key schema : value) :
  sameOutcome (deriveType contracts TypescriptTypeMap key schema)
              (deriveType contracts RustTypeMap key schema) /\
  sameOutcome (deriveType contracts RustTypeMap key schema)
              (deriveType contracts PythonTypeMap key schema).
Proof.
  split; apply deriveType_sameOutcome; apply tables_sameKinds.
Qed.

(** ** More on the reference resolver *)

(** X5. The identifier of a ref depends on the ref alone: whatever the
    contracts, and in whatever order they are tried, two resolutions of one
    ref that succeed return the same identifier, the Pascal-cased last
    part of the ref. *)
Theorem parseRef_identifier_unique (ref : string) (contracts contracts' : list value)
  (a b : string) :
  parseRef (VStr ref) contracts = Ok a ->
  parseRef (VStr ref) contracts' = Ok b ->
  a = b /\ a = refName ref.
Proof.
  intros Ha Hb.
  destruct (parseRef_found ref contracts a Ha) as [-> _].
  destruct (parseRef_found ref contracts' b Hb) as [-> _].
  split; reflexivity.
Qed.

Lemma parseRef_identifier_unique_witness :
  refName "#/components/schemas/column_schema" = "ColumnSchema".
Proof.
  assert (H1 : parseRef (VStr "#/components/schemas/column_schema")
                 [sharedSchemas; VNull] = Ok "ColumnSchema")
    by (vm_compute; reflexivity).
  assert (H2 : parseRef (VStr "#/components/schemas/column_schema")
                 [VNull; sharedSchemas] = Ok "ColumnSchema")
    by (vm_compute; reflexivity).
  exact (eq_sym (proj2 (parseRef_identifier_unique
                          "#/components/schemas/column_schema"
                          [sharedSchemas; VNull] [VNull; sharedSchemas]
                          "ColumnSchema" "ColumnSchema" H1 H2))).
Defined.

Lemma walk_stuck (parts : list string) :
  forall target,
    stuck (List.filter (fun part => negb (String.eqb part "#")) parts) target ->
    walk parts target = Throw TypeError.
Proof.
  induction parts as [|part rest IH]; intros target H; [inversion H|].
  cbn [walk List.filter] in H |- *.
  destruct (String.eqb part "#"); cbn [negb] in H; [now apply IH|].
  inversion H as [? ? ? Em | ? ? ? next members Em Ea Hs]; subst; rewrite Em.
  - reflexivity.
  - cbn [bind]. rewrite Ea. now apply IH.
Qed.

(** X6. When the walk through a present contract reaches [null] with a
    segment still to look up, [parseRef] throws a [TypeError] at once: the
    contracts after it are not tried, even if one of them resolves the ref,
    and the error is not [Could not find ref]. *)
Theorem parseRef_stops_on_null (ref : string) (before after : list value)
  (contract : value) :
  Forall (passedOver ref) before ->
  truthy contract = true ->
  stuck (segments ref) contract ->
  parseRef (VStr ref) (before ++ contract :: after) = Throw TypeError.
Proof.
  intros Hb Ht Hs. rewrite parseRef_passes by exact Hb.
  cbn [parseRef]. rewrite Ht. cbn [negb parseRefFromContract].
  now rewrite (walk_stuck _ _ Hs).
Qed.

Lemma parseRef_stops_on_null_witness :
  parseRef (VStr "#/components/schemas/column_schema") [nullComponents; sharedSchemas] =
  Throw TypeError /\
  parseRef (VStr "#/components/schemas/column_schema") [sharedSchemas] =
  Ok "ColumnSchema".
Proof.
  split; [|reflexivity].
  apply (parseRef_stops_on_null "#/components/schemas/column_schema" []
           [sharedSchemas] nullComponents).
  - constructor.
  - reflexivity.
  - change (stuck ["components"; "schemas"; "column_schema"] nullComponents).
    apply (stuck_below "components" _ nullComponents VNull
             [("methods", VArr []); ("components", VNull)]);
      [reflexivity | reflexivity |].
    apply stuck_here. reflexivity.
Defined.

(** ** What the visitors throw *)

Lemma andThen_throw (a b : gen) (e : exn) :
  andThen a b = Throw e -> a = Throw e \/ b = Throw e.
Proof.
  destruct a as [x|e']; [|now left].
  destruct b as [y|e']; [discriminate | now right].
Qed.

Lemma forG_throw {A : Type} (l : list A) (body : A -> gen) (e : exn) :
  forG l body = Throw e -> exists x, In x l /\ body x = Throw e.
Proof.
  induction l as [|a l IH]; [discriminate|].
  rewrite forG_cons. intros H. apply andThen_throw in H as [H|H].
  - exists a. split; [now left | exact H].
  - destruct (IH H) as (x & Hx & Hb). exists x. split; [now right | exact Hb].
Qed.

Lemma forG_isOk {A : Type} (l : list A) (body : A -> gen) :
  (forall x, In x l -> isOk (body x) = true) -> isOk (forG l body) = true.
Proof.
  induction l as [|a l IH]; [reflexivity|]. intros H.
  rewrite forG_cons.
  pose proof (H a (or_introl eq_refl)) as Ha.
  assert (Hl : isOk (forG l body) = true) by (apply IH; intros x Hx; apply H; now right).
  destruct (body a); [|discriminate Ha]. now destruct (forG l body).
Qed.

Lemma enumVisitor_throw (cb : callback) (e : exn) :
  forall v context, enumVisitor context v cb = Throw e -> fromCallback cb e.
Proof.
  induction v as [| | | | |items IH|members IH] using value_nested_ind;
    intros context H; cbn [enumVisitor] in H; try discriminate H.
  - injection H as <-. now left.
  - injection H as <-. now left.
  - apply forG_throw in H as (x & Hx & Hb).
    rewrite List.Forall_forall in IH. exact (IH x Hx context Hb).
  - destruct (truthy (member "enum" members)).
    + right. now exists context, (member "enum" members).
    + apply forG_throw in H as ([key child] & Hx & Hb).
      rewrite List.Forall_forall in IH. specialize (IH (key, child) Hx).
      cbn [snd] in IH.
      destruct (truthy (member "name" members)); [exact (IH _ Hb)|].
      destruct (String.eqb key "properties" || String.eqb key "params");
        exact (IH _ Hb).
Qed.

Lemma objectVisitor_throw (cb : callback) (e : exn) :
  forall v context, objectVisitor context v cb = Throw e -> fromCallback cb e.
Proof.
  induction v as [| | | | |items IH|members IH] using value_nested_ind;
    intros context H; cbn [objectVisitor] in H; try discriminate H.
  - injection H as <-. now left.
  - injection H as <-. now left.
  - apply forG_throw in H as (x & Hx & Hb).
    rewrite List.Forall_forall in IH. exact (IH x Hx context Hb).
  - destruct (isStr (member "type" members) "object").
    + apply andThen_throw in H as [H|H].
      * right. now exists context, (VObj members).
      * rewrite withMember_member in H.
        destruct (assoc "properties" members) as [properties|] eqn:Ep.
        -- exact (Forall_assoc (fun v => forall context,
                                   objectVisitor context v cb = Throw e ->
                                   fromCallback cb e) _ _ _ IH Ep context H).
        -- injection H as <-. now left.
    + apply forG_throw in H as ([key child] & Hx & Hb).
      rewrite List.Forall_forall in IH. specialize (IH (key, child) Hx).
      cbn [snd] in IH.
      destruct (String.eqb key "schema"); exact (IH _ Hb).
Qed.

(** X7. Whatever a visitor throws is thrown by the callback or is the
    [TypeError] of reading a member of [null] or [undefined]: the visitors
    throw no error of their own making. *)
Theorem visitor_exceptions (cb : callback) (context : list value) (contract : value)
  (e : exn) :
  (enumVisitor context contract cb = Throw e -> fromCallback cb e) /\
  (objectVisitor context contract cb = Throw e -> fromCallback cb e).
Proof.
  split; [apply enumVisitor_throw | apply objectVisitor_throw].
Qed.

Lemma visitor_exceptions_witness :
  fromCallback (typescriptObject [])
    (Error "No properties for 'options'; please add properties to the schema").
Proof.
  apply (proj2 (visitor_exceptions (typescriptObject []) [] (emptyOptions (VBool false))
                  (Error "No properties for 'options'; please add properties to the schema"))).
  vm_compute. reflexivity.
Defined.

Lemma noNull_member (members : list (string * value)) (m : string * value) :
  forallb (fun m => let '(_, x) := m in noNull x) members = true ->
  In m members -> noNull (snd m) = true.
Proof.
  intros H Hin. rewrite forallb_forall in H. specialize (H m Hin). now destruct m.
Qed.

Lemma enumVisitor_returns (cb : callback) :
  returns cb ->
  forall v context, noNull v = true -> isOk (enumVisitor context v cb) = true.
Proof.
  intros Hcb.
  induction v as [| | | | |items IH|members IH] using value_nested_ind;
    intros context Hv; cbn [enumVisitor]; try reflexivity; try discriminate Hv.
  - cbn [noNull] in Hv. rewrite forallb_forall in Hv. rewrite List.Forall_forall in IH.
    apply forG_isOk. intros x Hx. apply IH; [exact Hx | now apply Hv].
  - cbn [noNull] in Hv. rewrite List.Forall_forall in IH.
    destruct (truthy (member "enum" members)); [apply Hcb|].
    apply forG_isOk. intros [key child] Hx.
    pose proof (noNull_member _ _ Hv Hx) as Hc. cbn [snd] in Hc.
    specialize (IH (key, child) Hx). cbn [snd] in IH.
    destruct (truthy (member "name" members)); [now apply IH|].
    destruct (String.eqb key "properties" || String.eqb key "params"); now apply IH.
Qed.

Lemma assoc_In {A : Type} (name : string) (l : list (string * A)) (x : A) :
  assoc name l = Some x -> exists k, In (k, x) l.
Proof.
  induction l as [|[k y] l IH]; [discriminate|]. cbn [assoc].
  destruct (String.eqb k name).
  - intros H. injection H as <-. exists k. now left.
  - intros H. destruct (IH H) as [k' Hk]. exists k'. now right.
Qed.

Lemma objectVisitor_returns (cb : callback) :
  returns cb ->
  forall v context,
    noNull v = true -> objectsComplete v = true ->
    isOk (objectVisitor context v cb) = true.
Proof.
  intros Hcb.
  induction v as [| | | | |items IH|members IH] using value_nested_ind;
    intros context Hv Hc; cbn [objectVisitor]; try reflexivity; try discriminate Hv.
  - cbn [noNull objectsComplete] in Hv, Hc.
    rewrite forallb_forall in Hv, Hc. rewrite List.Forall_forall in IH.
    apply forG_isOk. intros x Hx. apply IH; [exact Hx | now apply Hv | now apply Hc].
  - cbn [noNull objectsComplete] in Hv, Hc. rewrite List.Forall_forall in IH.
    apply andb_true_iff in Hc as [Hc Hp]. rewrite forallb_forall in Hc.
    destruct (isStr (member "type" members) "object").
    + cbn [negb orb] in Hp. rewrite withMember_member.
      destruct (assoc "properties" members) as [properties|] eqn:Ep;
        [|discriminate Hp].
      destruct (assoc_In _ _ _ Ep) as [k Hk].
      pose proof (noNull_member _ _ Hv Hk) as Hn. cbn [snd] in Hn.
      pose proof (Hc _ Hk) as Hc'. cbn beta iota in Hc'.
      pose proof (IH _ Hk context Hn Hc') as Hok. cbn [snd] in Hok.
      pose proof (Hcb context (VObj members)) as Hnode.
      destruct (cb context (VObj members)); [|discriminate Hnode].
      now destruct (objectVisitor context properties cb).
    + apply forG_isOk. intros [key child] Hx.
      pose proof (noNull_member _ _ Hv Hx) as Hn. cbn [snd] in Hn.
      pose proof (Hc _ Hx) as Hc'. cbn beta iota in Hc'.
      specialize (IH (key, child) Hx). cbn [snd] in IH.
      destruct (String.eqb key "schema"); now apply IH.
Qed.

(** X8. On a contract that holds no [null] the enum visitor returns
    whenever the callback does; the object visitor does so too when, in
    addition, every object whose [type] is [object] has a [properties]
    member. *)
Theorem visitors_return (cb : callback) (context : list value) (contract : value) :
  returns cb ->
  noNull contract = true ->
  isOk (enumVisitor context contract cb) = true /\
  (objectsComplete contract = true ->
   isOk (objectVisitor context contract cb) = true).
Proof.
  intros Hcb Hn. split; [now apply enumVisitor_returns|].
  intros Hc. now apply objectVisitor_returns.
Qed.

Lemma visitors_return_witness :
  isOk (enumVisitor [] modeBackend traceContext) = true /\
  (objectsComplete modeBackend = true ->
   isOk (objectVisitor [] modeBackend traceContext) = true).
Proof.
  apply (visitors_return traceContext [] modeBackend).
  - intros context x. reflexivity.
  - reflexivity.
Defined.

(** ** What the emitters write for enums and for empty objects *)

Lemma forLast_cons {A : Type} (x : A) (l : list A) (body : A -> bool -> gen) :
  forLast (x :: l) body =
  andThen (body x (match l with [] => true | _ => false end)) (forLast l body).
Proof. reflexivity. Qed.

Lemma forLast_members (render : string -> string) (sep fin : string)
  (body : value -> bool -> gen) (values : list string) :
  (forall v isLast, body (VStr v) isLast =
                    Ok (render v +:+ (if isLast then fin else sep))) ->
  forLast (map VStr values) body = Ok (enumMembers render sep fin values).
Proof.
  intros Hbody. induction values as [|v values IH]; [reflexivity|].
  cbn [map]. rewrite forLast_cons, Hbody, IH.
  destruct values as [|v' values].
  - cbn [map andThen bind enumMembers join]. now rewrite append_empty_r.
  - cbn [map andThen bind enumMembers]. f_equal.
    rewrite (join_cons sep (render v)) by discriminate.
    cbn [map]. now rewrite !append_assoc.
Qed.

(** X9. Each emitter writes the members of an enum in the order of the
    values and binds each to its value as it stands in the contract: for
    values [v1 ... vn] found under the field [field] of [owner] the
    enumeration is named [Pascal(owner)Pascal(field)] and its members are
    [Pascal(v1) ... Pascal(vn)], in that order, in all three targets. *)
Theorem enum_rendering (field owner : string) (rest : list value)
  (values : list string) :
  let context := VStr field :: VStr owner :: rest in
  let name := snakeCaseToSentenceCase owner +:+ snakeCaseToSentenceCase field in
  let about := "Possible values for " +:+ snakeCaseToSentenceCase field +:+
               " in " +:+ snakeCaseToSentenceCase owner in
  rustEnum context (VArr (map VStr values)) =
  Ok (formatComment "/// " about +:+ rustDerive +:+
      ("pub enum " +:+ name +:+ " {" +:+ nl) +:+
      enumMembers (fun v => tab +:+ "#[serde(rename = " +:+ dq +:+ v +:+ dq +:+ ")]" +:+ nl +:+
                            tab +:+ snakeCaseToSentenceCase v)
                  ("," +:+ nl +:+ nl) nl values +:+
      "}" +:+ nl +:+ nl) /\
  pythonEnum context (VArr (map VStr values)) =
  Ok (("@enum.unique" +:+ nl) +:+
      ("class " +:+ name +:+ "(str, enum.Enum):" +:+ nl) +:+
      ("    " +:+ tq +:+ nl) +:+ formatComment "    " about +:+
      ("    " +:+ tq +:+ nl) +:+ nl +:+
      enumMembers (fun v => "    " +:+ snakeCaseToSentenceCase v +:+ " = " +:+
                            dq +:+ v +:+ dq)
                  (nl +:+ nl) nl values +:+
      nl +:+ nl) /\
  typescriptEnum context (VArr (map VStr values)) =
  Ok (("/**" +:+ nl) +:+ formatComment " * " about +:+ (" */" +:+ nl) +:+
      ("export enum " +:+ name +:+ " {" +:+ nl) +:+
      enumMembers (fun v => tab +:+ snakeCaseToSentenceCase v +:+ " = '" +:+ v +:+ "'")
                  ("," +:+ nl) nl values +:+
      "}" +:+ nl +:+ nl).
Proof.
  intros context name about. subst context name about.
  split; [|split].
  - unfold rustEnum, rustEnumName, inContext, yield.
    cbn [seqG fold_right at_ nth sentenceCase bind andThen elements].
    rewrite (forLast_members
               (fun v => tab +:+ "#[serde(rename = " +:+ dq +:+ v +:+ dq +:+ ")]" +:+ nl +:+
                         tab +:+ snakeCaseToSentenceCase v)
               ("," +:+ nl +:+ nl) nl).
    + cbn [bind andThen]. now rewrite !append_assoc, ?append_empty_r.
    + intros v isLast.
      cbn [seqG fold_right sentenceCase bind andThen toString].
      now rewrite !append_assoc, !append_empty_r.
  - unfold pythonEnum, pythonEnumName, inContext, yield.
    cbn [seqG fold_right at_ nth sentenceCase bind andThen elements].
    rewrite (forLast_members
               (fun v => "    " +:+ snakeCaseToSentenceCase v +:+ " = " +:+ dq +:+ v +:+ dq)
               (nl +:+ nl) nl).
    + cbn [bind andThen]. now rewrite !append_assoc, ?append_empty_r.
    + intros v isLast. cbn [sentenceCase bind toString].
      destruct isLast; now rewrite !append_assoc.
  - unfold typescriptEnum, typescriptEnumName, inContext, yield.
    cbn [seqG fold_right at_ nth sentenceCase bind andThen elements].
    rewrite (forLast_members
               (fun v => tab +:+ snakeCaseToSentenceCase v +:+ " = '" +:+ v +:+ "'")
               ("," +:+ nl) nl).
    + cbn [bind andThen]. now rewrite !append_assoc, ?append_empty_r.
    + intros v isLast. cbn [sentenceCase bind toString].
      destruct isLast; now rewrite !append_assoc.
Qed.

(** X10. An object schema that declares no property (a non-empty name and
    description given): Rust and Python write it as an alias of the JSON
    value type only when [additionalProperties] is exactly [true], and as
    an empty struct or dataclass otherwise; TypeScript writes an open
    interface whenever [additionalProperties] is truthy, and otherwise
    fails with [No properties for '<name>']. *)
Theorem empty_object_rendering (contracts context : list value)
  (members : list (string * value)) (n d : string) (extra : value) :
  member "name" members = VStr n -> nonEmpty n = true ->
  member "description" members = VStr d -> nonEmpty d = true ->
  member "properties" members = VObj [] ->
  member "additionalProperties" members = extra ->
  rustObject contracts context (VObj members) =
  Ok (if isTrue extra then
        formatComment "/// " d +:+ "pub type " +:+ snakeCaseToSentenceCase n +:+
        " = serde_json::Value;" +:+ nl +:+ nl
      else
        formatComment "/// " d +:+ rustDerive +:+
        "pub struct " +:+ snakeCaseToSentenceCase n +:+ " {" +:+ nl +:+
        "}" +:+ nl +:+ nl) /\
  pythonObject contracts context (VObj members) =
  Ok (if isTrue extra then snakeCaseToSentenceCase n +:+ " = JsonData" +:+ nl
      else
        "@dataclass" +:+ nl +:+
        "class " +:+ snakeCaseToSentenceCase n +:+ ":" +:+ nl +:+
        "    " +:+ tq +:+ nl +:+ formatComment "    " d +:+ "    " +:+ tq +:+ nl +:+ nl +:+
        nl +:+ nl) /\
  typescriptObject contracts context (VObj members) =
  (if truthy extra then
     Ok ("/**" +:+ nl +:+ formatComment " * " d +:+ " */" +:+ nl +:+
         "export interface " +:+ snakeCaseToSentenceCase n +:+ " {" +:+ nl +:+
         tab +:+ "[k: string]: unknown;" +:+ nl +:+
         "}" +:+ nl +:+ nl)
   else Throw (Error ("No properties for '" +:+ n +:+
                      "'; please add properties to the schema"))).
Proof.
  intros Hn Hne Hd Hde Hp He.
  split; [|split].
  - unfold rustObject, rustObjectName, yield.
    cbn [prop bind]. rewrite Hn, Hd, Hp, He.
    cbn [truthy formatCommentV bind]. rewrite Hne, Hde.
    cbn [bind ownMembers sentenceCase].
    destruct (isTrue extra).
    + reflexivity.
    + cbn [seqG fold_right forLast andThen bind sentenceCase].
      now rewrite !append_assoc, ?append_empty_r.
  - unfold pythonObject, pythonObjectName, yield.
    cbn [prop bind]. rewrite Hn, Hp, He.
    cbn [truthy formatCommentV bind]. rewrite Hne.
    cbn [bind ownMembers sentenceCase].
    destruct (isTrue extra).
    + reflexivity.
    + cbn [seqG fold_right forG andThen bind prop]. rewrite Hd.
      cbn [truthy]. rewrite Hde. cbn [formatCommentV bind andThen].
      rewrite !append_assoc. reflexivity.
  - unfold typescriptObject, typescriptObjectName, yield.
    cbn [prop bind]. rewrite Hn, Hd, Hp, He.
    cbn [truthy bind]. rewrite Hne, Hde. cbn [bind].
    unfold createTypescriptInterface, yield.
    cbn [truthy]. rewrite Hde.
    destruct (truthy extra) eqn:Ht.
    + rewrite Ht.
      cbn [negb seqG fold_right formatCommentV sentenceCase andThen bind truthy
           ownMembers when forG].
      now rewrite !append_assoc, ?append_empty_r.
    + cbn [negb seqG fold_right formatCommentV sentenceCase andThen bind truthy
           ownMembers when forG toString].
      reflexivity.
Qed.

Lemma empty_object_rendering_witness :
  rustObject [] [] (emptyOptions (VObj [])) =
  Ok (formatComment "/// " "Free options" +:+ rustDerive +:+
      "pub struct " +:+ snakeCaseToSentenceCase "options" +:+ " {" +:+ nl +:+
      "}" +:+ nl +:+ nl) /\
  typescriptObject [] [] (emptyOptions (VObj [])) =
  Ok ("/**" +:+ nl +:+ formatComment " * " "Free options" +:+ " */" +:+ nl +:+
      "export interface " +:+ snakeCaseToSentenceCase "options" +:+ " {" +:+ nl +:+
      tab +:+ "[k: string]: unknown;" +:+ nl +:+
      "}" +:+ nl +:+ nl).
Proof.
  pose proof (empty_object_rendering [] []
    [("type", str "object"); ("name", str "options");
     ("description", str "Free options"); ("properties", VObj []);
     ("additionalProperties", VObj [])]
    "options" "Free options" (VObj [])
    eq_refl eq_refl eq_refl eq_refl eq_refl eq_refl) as [Hr [_ Ht]].
  split; [exact Hr | exact Ht].
Defined.

(** ** What a run leaves behind *)

Lemma grows_refl (names : list string) (w : world) : grows names w w.
Proof. repeat split; auto. Qed.

Lemma grows_trans (names : list string) (w1 w2 w3 : world) :
  grows names w1 w2 -> grows names w2 w3 -> grows names w1 w3.
Proof.
  intros (Hc1 & Hd1 & Hf1 & Hs1) (Hc2 & Hd2 & Hf2 & Hs2).
  repeat split.
  - congruence.
  - congruence.
  - intros p Hp. rewrite Hf2, Hf1 by exact Hp. reflexivity.
  - auto.
Qed.

Lemma grows_incl (names names' : list string) (w w' : world) :
  incl names names' -> grows names w w' -> grows names' w w'.
Proof.
  intros Hi (Hc & Hd & Hf & Hs). repeat split; auto.
  intros p Hp. apply Hf. intros (name & Hn & Ho). apply Hp.
  exists name. split; [apply Hi, Hn | exact Ho].
Qed.

Lemma grows_setFile (names : list string) (path content : string) (w : world) :
  touched names path -> grows names w (setFile path content w).
Proof.
  intros Ht. repeat split.
  - intros p Hp. cbn [files setFile].
    apply lookup_insert_ne. intros ->. exact (Hp Ht).
  - intros p Hp. cbn [files setFile].
    apply lookup_insert_is_Some. destruct (decide (path = p)); auto.
Qed.

Lemma grows_bindM {A B : Type} (names : list string) (m : M A) (k : A -> M B) :
  (forall w, grows names w (fst (m w))) ->
  (forall a w, grows names w (fst (k a w))) ->
  forall w, grows names w (fst (bindM m k w)).
Proof.
  intros Hm Hk w. unfold bindM. specialize (Hm w).
  destruct (m w) as [w1 [a|e]]; cbn [fst] in *.
  - eapply grows_trans; [exact Hm | apply Hk].
  - exact Hm.
Qed.

Lemma comms_bindM {A B : Type} (added : list string) (m : M A) (k : A -> M B) :
  (forall w, comms (fst (m w)) = comms w) ->
  (forall a w, comms (fst (k a w)) =
               comms w ++ (if isOk (snd (k a w)) then added else [])) ->
  forall w, comms (fst (bindM m k w)) =
            comms w ++ (if isOk (snd (bindM m k w)) then added else []).
Proof.
  intros Hm Hk w. unfold bindM. specialize (Hm w).
  destruct (m w) as [w1 [a|e]]; cbn [fst snd isOk] in *.
  - rewrite Hk, Hm. reflexivity.
  - rewrite Hm. symmetry. apply app_nil_r.
Qed.

Lemma bindM_ok {A B : Type} (m : M A) (k : A -> M B) (w w' : world) (b : B) :
  bindM m k w = (w', Ok b) ->
  exists a w1, m w = (w1, Ok a) /\ k a w1 = (w', Ok b).
Proof.
  unfold bindM. destruct (m w) as [w1 [a|e]]; [|discriminate].
  intros H. now exists a, w1.
Qed.

Lemma bindM_run {A B : Type} (m : M A) (k : A -> M B) (w w1 : world)
  (r : result A) :
  m w = (w1, r) ->
  bindM m k w = match r with
                | Ok a => k a w1
                | Throw e => (w1, Throw e)
                end.
Proof. unfold bindM. now intros ->. Qed.

Section RunFacts.

Variable year : string.
Variable black : string -> option string.
Variable blackInstalled : bool.

Lemma readContract_world (file : string) (w : world) :
  fst (readContract file w) = w.
Proof.
  unfold readContract, bindM, existsSync, ret.
  destruct (existsb _ _); [|reflexivity].
  now rewrite readJson_world.
Qed.

Lemma attempt_readJson_world (file : string) (w : world) :
  fst (attempt (readJson file) w) = w.
Proof. unfold attempt. now rewrite readJson_world. Qed.

Lemma writeFileSync_grows (names : list string) (dir file content : string)
  (w : world) :
  touched names (pathJoin dir file) ->
  grows names w (fst (writeFileSync dir file content w)).
Proof.
  intros Ht. unfold writeFileSync. destruct (decide _); cbn [fst].
  - now apply grows_setFile.
  - apply grows_refl.
Qed.

Lemma execBlack_grows (names : list string) (path : string) (w : world) :
  touched names path -> grows names w (fst (execBlack black path w)).
Proof.
  intros Ht. unfold execBlack.
  destruct (files w !! path) as [content|]; [|apply grows_refl].
  destruct (black content); cbn [fst]; [now apply grows_setFile | apply grows_refl].
Qed.

Lemma pushComm_grows (names : list string) (name : string) (w : world) :
  grows names w (fst (pushComm name w)).
Proof. repeat split; auto. Qed.

Lemma writeFileSync_comms (dir file content : string) (w : world) :
  comms (fst (writeFileSync dir file content w)) = comms w.
Proof. unfold writeFileSync. now destruct (decide _). Qed.

Lemma execBlack_comms (path : string) (w : world) :
  comms (fst (execBlack black path w)) = comms w.
Proof.
  unfold execBlack. destruct (files w !! path) as [content|]; [|reflexivity].
  now destruct (black content).
Qed.

Lemma writeFileSync_ok (dir file content : string) (w w' : world) (u : unit) :
  writeFileSync dir file content w = (w', Ok u) ->
  w' = setFile (pathJoin dir file) content w.
Proof.
  unfold writeFileSync. destruct (decide _); [|discriminate]. congruence.
Qed.

Lemma execBlack_ok (path : string) (w w' : world) (u : unit) :
  execBlack black path w = (w', Ok u) ->
  exists formatted, w' = setFile path formatted w.
Proof.
  unfold execBlack. destruct (files w !! path) as [content|]; [|discriminate].
  destruct (black content) as [formatted|]; [|discriminate].
  intros H. exists formatted. congruence.
Qed.

Lemma touched_ts (name : string) : touched [name] (tsFile name).
Proof. exists name. cbn. auto. Qed.

Lemma touched_rust (name : string) : touched [name] (rustFile name).
Proof. exists name. cbn. auto. Qed.

Lemma touched_python (name : string) : touched [name] (pythonFile name).
Proof. exists name. cbn. auto. Qed.

Lemma processComm_grows (name : string) (w : world) :
  grows [name] w (fst (processComm year black name w)).
Proof.
  revert w. unfold processComm.
  apply grows_bindM; [intros w; rewrite readContract_world; apply grows_refl|].
  intros frontend.
  apply grows_bindM; [intros w; rewrite readContract_world; apply grows_refl|].
  intros backend.
  apply grows_bindM; [intros w; rewrite attempt_readJson_world; apply grows_refl|].
  intros metadata.
  apply grows_bindM; [intros w; apply grows_refl|].
  intros ts.
  apply grows_bindM; [intros w; apply writeFileSync_grows, touched_ts|].
  intros _.
  apply grows_bindM; [intros w; apply grows_refl|].
  intros rust.
  apply grows_bindM; [intros w; apply writeFileSync_grows, touched_rust|].
  intros _.
  apply grows_bindM; [intros w; apply grows_refl|].
  intros python.
  apply grows_bindM; [intros w; apply writeFileSync_grows, touched_python|].
  intros _.
  apply grows_bindM; [intros w; apply execBlack_grows, touched_python|].
  intros _ w. apply pushComm_grows.
Qed.

Lemma processComm_comms (name : string) (w : world) :
  comms (fst (processComm year black name w)) =
  comms w ++ (if isOk (snd (processComm year black name w)) then [name] else []).
Proof.
  revert w. unfold processComm.
  apply comms_bindM; [intros w; now rewrite readContract_world|].
  intros frontend.
  apply comms_bindM; [intros w; now rewrite readContract_world|].
  intros backend.
  apply comms_bindM; [intros w; now rewrite attempt_readJson_world|].
  intros metadata.
  apply comms_bindM; [reflexivity|].
  intros ts.
  apply comms_bindM; [intros w; apply writeFileSync_comms|].
  intros _.
  apply comms_bindM; [reflexivity|].
  intros rust.
  apply comms_bindM; [intros w; apply writeFileSync_comms|].
  intros _.
  apply comms_bindM; [reflexivity|].
  intros python.
  apply comms_bindM; [intros w; apply writeFileSync_comms|].
  intros _.
  apply comms_bindM; [intros w; apply execBlack_comms|].
  intros _ w. reflexivity.
Qed.

Lemma processComm_written (name : string) (w w' : world) (u : unit) :
  processComm year black name w = (w', Ok u) -> written [name] w'.
Proof.
  unfold processComm. intros H.
  apply bindM_ok in H as (frontend & w1 & _ & H).
  apply bindM_ok in H as (backend & w2 & _ & H).
  apply bindM_ok in H as (metadata & w3 & _ & H).
  apply bindM_ok in H as (ts & w4 & _ & H).
  apply bindM_ok in H as (u1 & w5 & Hts & H).
  apply bindM_ok in H as (rust & w6 & Hl1 & H).
  apply bindM_ok in H as (u2 & w7 & Hrust & H).
  apply bindM_ok in H as (python & w8 & Hl2 & H).
  apply bindM_ok in H as (u3 & w9 & Hpy & H).
  apply bindM_ok in H as (u4 & w10 & Hblack & H).
  apply writeFileSync_ok in Hts, Hrust, Hpy.
  apply execBlack_ok in Hblack as (formatted & Hblack).
  unfold lift in Hl1, Hl2. injection Hl1 as E1 _. injection Hl2 as E2 _.
  unfold pushComm in H. injection H as E3 _.
  subst.
  intros n p [<-|[]] Hp. cbn [files setFile].
  fold (tsFile name) (rustFile name) (pythonFile name).
  destruct Hp as [<-|[<-|[<-|[]]]].
  - rewrite !lookup_insert_is_Some. 
    destruct (decide (pythonFile name = tsFile name)); [now left|].
    right; split; [assumption|]. right; split; [assumption|].
    destruct (decide (rustFile name = tsFile name)); [now left|].
    right; split; [assumption|]. now left.
  - rewrite !lookup_insert_is_Some.
    destruct (decide (pythonFile name = rustFile name)); [now left|].
    right; split; [assumption|]. right; split; [assumption|]. now left.
  - rewrite lookup_insert_is_Some. now left.
Qed.


Lemma forM_cons (x : string) (l : list string) (body : string -> M unit) :
  forM (x :: l) body = bindM (body x) (fun _ => forM l body).
Proof. reflexivity. Qed.

(** One turn of the loop of [createCommInterface]. *)
Lemma turn_run (listing : list (string * option value)) (file : string) (w : world) :
  commsDir w = listing ->
  let turn :=
    (if negb (endsWith ".json" file) then ret tt
     else
       let name := baseName file in
       do frontend <- existsSync (name +:+ "-frontend-openrpc.json");
       do backend <- existsSync (name +:+ "-backend-openrpc.json");
       if frontend || backend then processComm year black name else ret tt) w in
  if namesComm listing file then
    grows [baseName file] w (fst turn) /\
    comms (fst turn) = comms w ++ (if isOk (snd turn) then [baseName file] else []) /\
    (isOk (snd turn) = true -> written [baseName file] (fst turn))
  else turn = (w, Ok tt).
Proof.
  intros <-. unfold namesComm.
  destruct (endsWith ".json" file); cbn [negb andb]; [|reflexivity].
  unfold bindM, existsSync. cbv beta iota zeta.
  destruct (existsb _ (commsDir w) || existsb _ (commsDir w)); [|reflexivity].
  split; [apply processComm_grows|]. split; [apply processComm_comms|].
  destruct (processComm year black (baseName file) w) as [w' [[]|e]] eqn:E;
    [|discriminate].
  intros _. exact (processComm_written _ _ _ _ E).
Qed.

Lemma loop_run (listing : list (string * option value)) (l : list string) :
  forall w, commsDir w = listing ->
  let run :=
    forM l (fun file =>
      if negb (endsWith ".json" file) then ret tt
      else
        let name := baseName file in
        do frontend <- existsSync (name +:+ "-frontend-openrpc.json");
        do backend <- existsSync (name +:+ "-backend-openrpc.json");
        if frontend || backend then processComm year black name else ret tt) w in
  let names := map baseName (List.filter (namesComm listing) l) in
  grows names w (fst run) /\
  exists k,
    comms (fst run) = comms w ++ firstn k names /\
    written (firstn k names) (fst run) /\
    k <= length names /\
    (isOk (snd run) = true <-> k = length names).
Proof.
  induction l as [|file l IH]; intros w Hw; cbv zeta.
  - split; [apply grows_refl|]. exists 0. cbn.
    split; [symmetry; apply app_nil_r|]. split; [intros name p []|].
    split; [lia|]. split; auto.
  - rewrite forM_cons. cbn [List.filter]. cbv beta.
    pose proof (turn_run listing file w Hw) as Ht. cbv zeta in Ht.
    revert Ht.
    match goal with
    | |- context [bindM ?m _ w] => destruct (m w) as [w1 r] eqn:E
    end.
    rewrite (bindM_run _ _ _ _ _ E). intros Ht.
    destruct (namesComm listing file).
    + destruct Ht as (Hg & Hc & Hwr). cbn [fst snd] in Hg, Hc, Hwr.
      destruct r as [[]|e]; cbn [isOk map] in *.
      * assert (Hw1 : commsDir w1 = listing) by (destruct Hg as [-> _]; exact Hw).
        destruct (IH w1 Hw1) as (Hg' & k & Hc' & Hwr' & Hk & Hok). cbv zeta in *.
        split.
        { eapply grows_trans.
          - eapply grows_incl; [|exact Hg]. intros x [<-|[]]. now left.
          - eapply grows_incl; [|exact Hg']. intros x Hx. now right. }
        exists (S k). cbn [firstn length].
        split; [rewrite Hc', Hc, <- app_assoc; reflexivity|].
        split.
        { intros name p [<-|Hn] Hp.
          - destruct Hg' as (_ & _ & _ & Hs). apply Hs.
            apply (Hwr eq_refl (baseName file) p); [now left | exact Hp].
          - exact (Hwr' name p Hn Hp). }
        split; [lia|]. rewrite Hok. lia.
      * split.
        { eapply grows_incl; [|exact Hg]. intros x [<-|[]]. now left. }
        exists 0. cbn [firstn length fst snd isOk].
        split; [rewrite Hc; reflexivity|].
        split; [intros name p []|].
        split; [lia|]. split; discriminate.
    + injection Ht as -> ->. apply IH. exact Hw.
Qed.

Lemma main_run (w : world) :
  let run := main year black blackInstalled w in
  let names := candidates (commsDir w) in
  grows names w (fst run) /\
  exists k,
    comms (fst run) = comms w ++ firstn k names /\
    written (firstn k names) (fst run) /\
    k <= length names /\
    (snd run = 0%Z <->
     rustOutputDir ∈ directories w /\ blackInstalled = true /\ k = length names).
Proof.
  cbv zeta. unfold main.
  assert (Hstay : forall names,
    grows names w w /\
    exists k, comms w = comms w ++ firstn k names /\
              written (firstn k names) w /\ k <= length names).
  { intros names. split; [apply grows_refl|]. exists 0. cbn. repeat split.
    - symmetry. apply app_nil_r.
    - intros name p [].
    - lia. }
  destruct (decide (rustOutputDir ∈ directories w)) as [Hd|Hd].
  - destruct blackInstalled.
    + unfold createCommInterface, candidates.
      destruct (loop_run (commsDir w) (map fst (commsDir w)) w eq_refl)
        as (Hg & k & Hc & Hwr & Hk & Hok). cbv zeta in *.
      match type of Hg with grows _ _ (fst ?t) => destruct t as [w1 [u|e]] end;
        cbn [fst snd isOk] in *.
      * split; [exact Hg|]. exists k. repeat split; auto.
        now apply Hok.
      * split; [exact Hg|]. exists k. repeat split; auto; try discriminate.
        intros (_ & _ & H). apply Hok in H. discriminate.
    + destruct (Hstay (candidates (commsDir w))) as (Hg & k & Hc & Hwr & Hk).
      split; [exact Hg|]. exists k. cbn [fst snd]. repeat split; auto; try discriminate.
      intros (_ & H & _). discriminate.
  - destruct (Hstay (candidates (commsDir w))) as (Hg & k & Hc & Hwr & Hk).
    split; [exact Hg|]. exists k. cbn [fst snd]. repeat split; auto; try discriminate.
    intros (H & _). contradiction.
Qed.

(** X11. A run of the script leaves the listing of the contracts and the
    directories as they were, removes no file, and leaves every file as it
    was that is not one of the three output files of a comm of the listing
    (a listed [<name>.json] beside a listed frontend or backend contract of
    [<name>]). *)
Theorem main_frame (w : world) :
  grows (candidates (commsDir w)) w (fst (main year black blackInstalled w)).
Proof. apply main_run. Qed.

(** X12. The comms a run reports are the first comms of the listing, in
    the order of the listing, and each comm reported by the run has its
    TypeScript, Rust and Python files written. *)
Theorem reported_comms_written (w : world) :
  exists k,
    comms (fst (main year black blackInstalled w)) =
    comms w ++ firstn k (candidates (commsDir w)) /\
    written (firstn k (candidates (commsDir w)))
            (fst (main year black blackInstalled w)).
Proof.
  destruct (main_run w) as (_ & k & Hc & Hw & _). now exists k.
Qed.

(** X13. The script exits with code 0 exactly when the Rust output
    directory exists, black is installed, and every comm of the listing has
    been reported. *)
Theorem main_exit_code (w : world) :
  snd (main year black blackInstalled w) = 0%Z <->
  rustOutputDir ∈ directories w /\ blackInstalled = true /\
  comms (fst (main year black blackInstalled w)) =
  comms w ++ candidates (commsDir w).
Proof.
  destruct (main_run w) as (_ & k & Hc & _ & Hk & Hok). cbv zeta in *.
  rewrite Hok. split.
  - intros (Hd & Hb & ->). repeat split; auto.
    rewrite Hc. now rewrite firstn_all.
  - intros (Hd & Hb & H). repeat split; auto.
    rewrite Hc in H. apply app_inv_head in H.
    apply (f_equal (@length string)) in H.
    rewrite length_firstn in H. lia.
Qed.

End RunFacts.

(** * Derivation, identifiers, the enum scenario and exceptions *)

(** ** The four rules of the type deriver *)

Lemma parseRef_resolvable (ref : string) (contracts : list value) (id : string) :
  parseRef (VStr ref) contracts = Ok id <->
  id = refName ref /\ nonEmpty (refName ref) = true /\ resolvable ref contracts.
Proof.
  split.
  - intros H. destruct (parseRef_found ref contracts id H)
      as (-> & Hn & before & contract & after & -> & Ht & Hr & Hb).
    repeat split; [exact Hn|]. now exists before, contract, after.
  - intros (-> & Hn & before & contract & after & -> & Hb & Ht & Hr).
    rewrite parseRef_passes by exact Hb.
    now apply (parseRef_step ref contract after Ht).
Qed.

Lemma isStr_eq (v : value) (lit : string) :
  isStr v lit = true <-> v = VStr lit.
Proof.
  destruct v; cbn [isStr]; try (split; [discriminate | discriminate]).
  rewrite String.eqb_eq. split; [now intros -> | now intros [= ->]].
Qed.

Lemma isStr_refl (lit : string) : isStr (VStr lit) lit = true.
Proof. cbn [isStr]. apply String.eqb_refl. Qed.

Lemma isStr_other (kind lit : string) :
  kind <> lit -> isStr (VStr kind) lit = false.
Proof. intros H. cbn [isStr]. now apply String.eqb_neq. Qed.

Lemma deriveType_derives (contracts : list value) (typeMap : list (string * string))
  (key : string) (schema : value) :
  forall t, deriveType contracts typeMap (VStr key) schema = Ok t ->
            derives contracts typeMap key schema t.
Proof.
  induction schema as [| | b | n | s | items IH | members IH] using value_nested_ind;
    intros t H; try discriminate H.
  cbn [deriveType] in H.
  destruct (isStr (member "type" members) "array") eqn:Ea.
  - apply isStr_eq in Ea. rewrite withMember_member in H.
    destruct (assoc "items" members) as [items|] eqn:Ei; [|discriminate H].
    destruct (deriveType contracts typeMap (VStr key) items) as [inner|] eqn:Ed;
      [|discriminate H].
    cbn [bind] in H. injection H as <-.
    apply (derives_array _ _ _ members items inner Ea Ei).
    exact (Forall_assoc (fun x => forall t,
             deriveType contracts typeMap (VStr key) x = Ok t ->
             derives contracts typeMap key x t) _ _ _ IH Ei inner Ed).
  - destruct (truthy (member "$ref" members)) eqn:Er.
    + destruct (member "$ref" members) as [| | b | n | ref | |] eqn:Em;
        try (cbn [truthy] in Er; discriminate Er).
      * destruct contracts as [|c cs]; [discriminate H|].
        exfalso. revert H. clear. revert c.
        induction cs as [|c' cs IHc]; intros c; cbn [parseRef parseRefFromContract];
          destruct (negb (truthy c)); try discriminate; cbn [bind]; try discriminate.
        apply IHc.
      * exfalso. revert H. clear.
        induction contracts as [|c cs IHc]; cbn [parseRef parseRefFromContract];
          [discriminate|].
        destruct (negb (truthy c)); [exact IHc | discriminate].
      * apply parseRef_resolvable in H as (-> & Hn & Hres).
        now apply (derives_ref _ _ _ members ref Ea Em Er Hres Hn).
      * exfalso. revert H. clear.
        induction contracts as [|c cs IHc]; cbn [parseRef parseRefFromContract];
          [discriminate|].
        destruct (negb (truthy c)); [exact IHc | discriminate].
      * exfalso. revert H. clear.
        induction contracts as [|c cs IHc]; cbn [parseRef parseRefFromContract];
          [discriminate|].
        destruct (negb (truthy c)); [exact IHc | discriminate].
    + destruct (isStr (member "type" members) "object") eqn:Eo.
      * apply isStr_eq in Eo.
        destruct (truthy (member "name" members)) eqn:En.
        -- destruct (member "name" members) as [| | b | n | name | |] eqn:Em;
             try discriminate H.
           cbn [sentenceCase] in H. injection H as <-.
           now apply (derives_named _ _ _ members name Eo Er Em En).
        -- cbn [sentenceCase] in H. injection H as <-.
           now apply (derives_keyed _ _ _ members Eo Er En).
      * destruct (member "type" members) as [| | b | n | kind | |] eqn:Em;
          try discriminate H.
        destruct (assoc kind typeMap) as [target|] eqn:Ek; [|discriminate H].
        injection H as <-.
        apply (derives_primitive _ _ _ members kind target Em); try assumption.
        -- intros ->. cbn in Ea. discriminate Ea.
        -- intros ->. cbn in Eo. discriminate Eo.
Qed.

Lemma derives_deriveType (contracts : list value) (typeMap : list (string * string))
  (key : string) (schema : value) (t : string) :
  derives contracts typeMap key schema t ->
  deriveType contracts typeMap (VStr key) schema = Ok t.
Proof.
  induction 1 as [members items inner Ht Ei Hd IH
                 |members ref Ht Er Hn Hres Hne
                 |members name Ht Er En Hn
                 |members Ht Er En
                 |members kind target Ht Ha Ho Er Ek]; cbn [deriveType].
  - rewrite Ht, isStr_refl, withMember_member, Ei, IH. reflexivity.
  - rewrite Ht, Er. cbn [truthy]. rewrite Hn.
    now apply parseRef_resolvable.
  - rewrite Ht, Er, En, isStr_refl, isStr_other by discriminate.
    cbn [truthy]. now rewrite Hn.
  - rewrite Ht, Er, En, isStr_refl, isStr_other by discriminate. reflexivity.
  - rewrite Ht, Er. rewrite !isStr_other by assumption. now rewrite Ek.
Qed.



(** ** The identifiers the emitters declare *)

Lemma declares_here (opening n closing rest : string) :
  declares opening n closing ((opening +:+ n +:+ closing) +:+ rest).
Proof. exists EmptyString, rest. now rewrite !append_assoc. Qed.

Lemma declares_skip (opening n closing before text : string) :
  declares opening n closing text -> declares opening n closing (before +:+ text).
Proof.
  intros (b & a & ->). exists (before +:+ b), a. now rewrite !append_assoc.
Qed.

Lemma declares_last (opening n closing : string) :
  declares opening n closing (opening +:+ n +:+ closing).
Proof. exists EmptyString, EmptyString. now rewrite append_empty_r. Qed.

Ltac find_declaration :=
  first [ apply declares_here | apply declares_last
        | apply declares_skip; find_declaration ].

Lemma objectIdentifier_name (context : list value) (node : value) (n : string) :
  objectIdentifier context node = Some n <->
  exists s, rustObjectName context node = Ok (VStr s) /\ n = snakeCaseToSentenceCase s.
Proof.
  unfold objectIdentifier, rustObjectName.
  destruct (prop node "name") as [name|e]; cbn [bind].
  - destruct (if truthy name then name
              else if isStr (at_ context 0) "items" then at_ context 1
              else at_ context 0) as [| | b | z | s | |].
    all: split; [intros H; try discriminate H | intros (s' & H & ->); try discriminate H].
    + injection H as <-. now exists s.
    + now injection H as ->.
  - split; [discriminate | intros (s & H & _); discriminate H].
Qed.

Lemma objectIdentifier_none (context : list value) (node : value) :
  objectIdentifier context node = None ->
  forall name, rustObjectName context node = Ok name -> fails (sentenceCase name).
Proof.
  unfold objectIdentifier, rustObjectName.
  destruct (prop node "name") as [name|e]; cbn [bind]; [|discriminate].
  intros H name' [= <-].
  destruct (if truthy name then name
            else if isStr (at_ context 0) "items" then at_ context 1
            else at_ context 0); try discriminate H; eexists; reflexivity.
Qed.

Lemma enumIdentifier_name (context : list value) (n : string) :
  enumIdentifier context = Some n <-> rustEnumName context = Ok n.
Proof.
  unfold enumIdentifier, rustEnumName.
  destruct (at_ context 1) as [| | b | z | owner | |]; cbn [sentenceCase bind];
    try (split; discriminate).
  destruct (at_ context 0) as [| | b | z | field | |]; cbn [sentenceCase bind];
    try (split; discriminate).
  split; intros [= <-]; reflexivity.
Qed.

Lemma rustEnum_declares (context : list value) (values : value) (text : string) :
  rustEnum context values = Ok text ->
  exists n, rustEnumName context = Ok n /\ declares "pub enum " n (" {" +:+ nl) text.
Proof.
  intros H. unfold rustEnum in H. invert_ok.
  eexists; split; [eassumption|].
  find_declaration.
Qed.

Lemma pythonEnum_declares (context : list value) (values : value) (text : string) :
  pythonEnum context values = Ok text ->
  exists n, pythonEnumName context = Ok n /\
            declares "class " n ("(str, enum.Enum):" +:+ nl) text.
Proof.
  intros H. unfold pythonEnum in H. invert_ok.
  eexists; split; [eassumption|].
  find_declaration.
Qed.

Lemma typescriptEnum_declares (context : list value) (values : value) (text : string) :
  typescriptEnum context values = Ok text ->
  exists n, typescriptEnumName context = Ok n /\
            declares "export enum " n (" {" +:+ nl) text.
Proof.
  intros H. unfold typescriptEnum in H. invert_ok.
  eexists; split; [eassumption|].
  find_declaration.
Qed.

Lemma rustObject_declares (contracts context : list value) (node : value)
  (text : string) :
  rustObject contracts context node = Ok text ->
  exists name n,
    rustObjectName context node = Ok name /\ sentenceCase name = Ok n /\
    (declares "pub struct " n (" {" +:+ nl) text \/
     declares "pub type " n (" = serde_json::Value;" +:+ nl +:+ nl) text).
Proof.
  intros H. unfold rustObject in H. invert_ok.
  match goal with
  | H : (if ?c then _ else _) = Ok _ |- _ => destruct c
  end; invert_ok; do 2 eexists; (split; [eassumption|]); (split; [eassumption|]).
  - right. find_declaration.
  - left. find_declaration.
Qed.

Lemma pythonObject_declares (contracts context : list value) (node : value)
  (text : string) :
  pythonObject contracts context node = Ok text ->
  exists name n,
    pythonObjectName context node = Ok name /\ sentenceCase name = Ok n /\
    (declares "class " n (":" +:+ nl) text \/ text = n +:+ " = JsonData" +:+ nl).
Proof.
  intros H. unfold pythonObject in H. invert_ok.
  match goal with
  | H : (if ?c then _ else _) = Ok _ |- _ => destruct c
  end; invert_ok; do 2 eexists; (split; [eassumption|]); (split; [eassumption|]).
  - right. reflexivity.
  - left. find_declaration.
Qed.

Lemma typescriptObject_declares (contracts context : list value) (node : value)
  (text : string) :
  typescriptObject contracts context node = Ok text ->
  exists name n,
    typescriptObjectName context node = Ok name /\ sentenceCase name = Ok n /\
    declares "export interface " n (" {" +:+ nl) text.
Proof.
  intros H. unfold typescriptObject in H. invert_ok.
  unfold createTypescriptInterface in *.
  match goal with
  | H : (if ?c then _ else _) = Ok _ |- _ => destruct c; [discriminate H|]
  end.
  invert_ok. do 2 eexists. split; [eassumption|]. split; [eassumption|].
  find_declaration.
Qed.

Lemma forLast_isOk {A : Type} (l : list A) (body : A -> bool -> gen) :
  (forall x isLast, In x l -> isOk (body x isLast) = true) ->
  isOk (forLast l body) = true.
Proof.
  induction l as [|a l IH]; [reflexivity|]. intros H.
  rewrite forLast_cons.
  pose proof (H a (match l with [] => true | _ => false end) (or_introl eq_refl)) as Ha.
  assert (Hl : isOk (forLast l body) = true)
    by (apply IH; intros x isLast Hx; apply H; now right).
  destruct (body a _); [|discriminate Ha]. now destruct (forLast l body).
Qed.

Lemma isPrimitive_kind (kind : string) :
  isPrimitive kind = true ->
  kind = "boolean" \/ kind = "integer" \/ kind = "number" \/ kind = "string" \/
  kind = "null".
Proof.
  unfold isPrimitive. cbn [existsb]. rewrite !orb_true_iff, !String.eqb_eq.
  intuition discriminate.
Qed.

Lemma plainProperty_members (schema : value) :
  plainProperty schema = true ->
  exists members description kind,
    schema = VObj members /\
    member "description" members = VStr description /\
    nonEmpty description = true /\
    member "type" members = VStr kind /\
    isPrimitive kind = true /\
    truthy (member "$ref" members) = false.
Proof.
  destruct schema as [| | | | | |members]; try discriminate. cbn [plainProperty].
  destruct (member "description" members) as [| | | |description| |] eqn:Ed;
    try discriminate.
  destruct (member "type" members) as [| | | |kind| |] eqn:Et; try discriminate.
  rewrite !andb_true_iff, negb_true_iff. intros [[Hd Hk] Hr].
  now exists members, description, kind.
Qed.

Lemma deriveType_plain (contracts : list value) (key schema : value) :
  plainProperty schema = true ->
  isOk (deriveType contracts RustTypeMap key schema) = true /\
  isOk (deriveType contracts PythonTypeMap key schema) = true /\
  isOk (deriveType contracts TypescriptTypeMap key schema) = true.
Proof.
  intros H.
  destruct (plainProperty_members schema H)
    as (members & description & kind & -> & _ & _ & Ht & Hk & Hr).
  cbn [deriveType]. rewrite Ht, Hr.
  destruct (isPrimitive_kind kind Hk) as [->|[->|[->|[->| ->]]]];
    repeat split; reflexivity.
Qed.

Lemma isOptional_listed (members : list (string * value)) (key : string) :
  match member "required" members with
  | VArr _ => true
  | required => negb (truthy required)
  end = true ->
  isOk (isOptional (VObj members) key) = true /\
  isOk (includes (if truthy (member "required" members)
                  then member "required" members else VArr []) key) = true.
Proof.
  unfold isOptional. cbn [prop bind].
  destruct (member "required" members) as [| |b|z|s|items|ms]; cbn [truthy negb];
    intros H; try discriminate H; try (split; reflexivity).
  - destruct b; [discriminate H | split; reflexivity].
  - apply negb_true_iff in H. rewrite H. split; reflexivity.
  - apply negb_true_iff in H. rewrite H. split; reflexivity.
Qed.

Lemma plainObject_members (node : value) :
  plainObject node = true ->
  exists members description p properties,
    node = VObj members /\
    member "description" members = VStr description /\
    nonEmpty description = true /\
    member "properties" members = VObj (p :: properties) /\
    (forall q, In q (p :: properties) -> plainProperty (snd q) = true) /\
    match member "required" members with
    | VArr _ => true
    | required => negb (truthy required)
    end = true.
Proof.
  destruct node as [| | | | | |members]; try discriminate. cbn [plainObject].
  destruct (member "description" members) as [| | | |description| |] eqn:Ed;
    try discriminate.
  destruct (member "properties" members) as [| | | | | |[|p properties]] eqn:Ep;
    try discriminate.
  rewrite !andb_true_iff. intros [[Hd Hp] Hr].
  exists members, description, p, properties.
  repeat split; try assumption.
  intros q Hq. rewrite forallb_forall in Hp. exact (Hp q Hq).
Qed.

Lemma rustObject_plain (contracts context : list value) (node : value) (n : string) :
  objectIdentifier context node = Some n ->
  plainObject node = true ->
  isOk (rustObject contracts context node) = true.
Proof.
  intros Hn Hp. apply objectIdentifier_name in Hn as (s & Hs & _).
  destruct (plainObject_members node Hp)
    as (members & description & p & properties & -> & Hd & Hde & Hps & Hall & Hr).
  unfold rustObject. rewrite Hs. cbn [prop bind]. rewrite Hd, Hps.
  cbn [truthy]. rewrite Hde. cbn [formatCommentV bind ownMembers sentenceCase].
  cbn [seqG fold_right yield].
  match goal with
  | |- context [forLast (p :: properties) ?body] =>
      assert (Hfields : isOk (forLast (p :: properties) body) = true)
  end.
  { apply forLast_isOk. intros [key schema] isLast Hq.
    pose proof (Hall _ Hq) as Hplain. cbn [snd] in Hplain.
    destruct (deriveType_plain contracts (VStr key) schema Hplain) as (Ht & _ & _).
    destruct (plainProperty_members schema Hplain)
      as (pm & d & kind & -> & Hpd & Hpde & _).
    destruct (isOptional_listed members key Hr) as [Ho _].
    cbn [seqG fold_right prop bind]. rewrite Hpd. cbn [truthy]. rewrite Hpde.
    cbn [formatCommentV].
    destruct (isOptional (VObj members) key) as [optional|]; [|discriminate Ho].
    destruct (deriveType contracts RustTypeMap (VStr key) (VObj pm)) as [type|];
      [|discriminate Ht].
    cbn [bind]. destruct optional, isLast; reflexivity. }
  destruct (forLast (p :: properties) _); [reflexivity | discriminate Hfields].
Qed.

Lemma pythonObject_plain (contracts context : list value) (node : value) (n : string) :
  objectIdentifier context node = Some n ->
  plainObject node = true ->
  isOk (pythonObject contracts context node) = true.
Proof.
  intros Hn Hp. apply objectIdentifier_name in Hn as (s & Hs & _).
  destruct (plainObject_members node Hp)
    as (members & description & p & properties & -> & Hd & Hde & Hps & Hall & Hr).
  unfold pythonObject.
  change (pythonObjectName context (VObj members))
    with (rustObjectName context (VObj members)).
  rewrite Hs. cbn [prop bind sentenceCase]. rewrite Hps.
  cbn [ownMembers bind seqG fold_right yield prop]. rewrite Hd.
  cbn [truthy]. rewrite Hde. cbn [formatCommentV bind].
  match goal with
  | |- context [forG (p :: properties) ?body] =>
      assert (Hfields : isOk (forG (p :: properties) body) = true)
  end.
  { apply forG_isOk. intros [key schema] Hq.
    pose proof (Hall _ Hq) as Hplain. cbn [snd] in Hplain.
    destruct (deriveType_plain contracts (VStr key) schema Hplain) as (_ & Ht & _).
    destruct (plainProperty_members schema Hplain)
      as (pm & d & kind & -> & Hpd & Hpde & _).
    destruct (isOptional_listed members key Hr) as [Ho _].
    destruct (isOptional (VObj members) key) as [optional|]; [|discriminate Ho].
    destruct (deriveType contracts PythonTypeMap (VStr key) (VObj pm)) as [type|];
      [|discriminate Ht].
    reflexivity. }
  destruct (forG (p :: properties) _); [reflexivity | discriminate Hfields].
Qed.

Lemma typescriptObject_plain (contracts context : list value) (node : value)
  (n : string) :
  objectIdentifier context node = Some n ->
  plainObject node = true ->
  isOk (typescriptObject contracts context node) = true.
Proof.
  intros Hn Hp. apply objectIdentifier_name in Hn as (s & Hs & _).
  destruct (plainObject_members node Hp)
    as (members & description & p & properties & -> & Hd & Hde & Hps & Hall & Hr).
  unfold typescriptObject.
  change (typescriptObjectName context (VObj members))
    with (rustObjectName context (VObj members)).
  rewrite Hs. cbn [prop bind]. rewrite Hd, Hps.
  cbn [truthy]. rewrite Hde. cbn [bind].
  unfold createTypescriptInterface. cbn [truthy]. rewrite Hde.
  cbn [negb seqG fold_right yield formatCommentV sentenceCase bind truthy ownMembers when].
  match goal with
  | |- context [forG (p :: properties) ?body] =>
      assert (Hfields : isOk (forG (p :: properties) body) = true)
  end.
  { apply forG_isOk. intros [key schema] Hq.
    pose proof (Hall _ Hq) as Hplain. cbn [snd] in Hplain.
    destruct (deriveType_plain contracts (VStr key) schema Hplain) as (_ & _ & Ht).
    destruct (plainProperty_members schema Hplain)
      as (pm & d & kind & -> & Hpd & Hpde & Hpt & Hk & _).
    destruct (isOptional_listed members key Hr) as [_ Hi].
    unfold typescriptProperty. cbn [prop bind]. rewrite Hpd. cbn [truthy].
    rewrite Hpde. cbn [negb seqG fold_right yield formatCommentV bind].
    destruct (includes _ key) as [listed|]; [|discriminate Hi].
    rewrite Hpt.
    assert (Ho : isStr (VStr kind) "object" = false).
    { destruct (isPrimitive_kind kind Hk) as [->|[->|[->|[->| ->]]]]; reflexivity. }
    rewrite Ho.
    destruct (deriveType contracts TypescriptTypeMap (VStr key) (VObj pm)) as [type|];
      [|discriminate Ht].
    destruct (isStr (VStr kind) "string"); cbn [prop bind andb];
      [destruct (truthy (member "enum" pm))|]; destruct listed; reflexivity. }
  destruct (forG (p :: properties) _); [reflexivity | discriminate Hfields].
Qed.

Lemma sentenceCase_ok (name : value) (n : string) :
  sentenceCase name = Ok n -> exists s, name = VStr s /\ n = snakeCaseToSentenceCase s.
Proof.
  destruct name; try discriminate. cbn [sentenceCase]. intros [= <-]. now eexists.
Qed.

Lemma objectName_identifier (context : list value) (node name : value) (n : string) :
  rustObjectName context node = Ok name -> sentenceCase name = Ok n ->
  objectIdentifier context node = Some n.
Proof.
  intros Hname Hn. apply sentenceCase_ok in Hn as (s & -> & ->).
  apply objectIdentifier_name. now exists s.
Qed.

Lemma enum_strings (context : list value) (n : string) (values : list string) :
  enumIdentifier context = Some n ->
  isOk (rustEnum context (VArr (map VStr values))) = true /\
  isOk (pythonEnum context (VArr (map VStr values))) = true /\
  isOk (typescriptEnum context (VArr (map VStr values))) = true.
Proof.
  intros Hn. unfold enumIdentifier in Hn.
  destruct (at_ context 1) as [| | | |owner| |] eqn:E1; try discriminate Hn.
  destruct (at_ context 0) as [| | | |field| |] eqn:E0; try discriminate Hn.
  unfold rustEnum, pythonEnum, typescriptEnum, inContext, rustEnumName,
    pythonEnumName, typescriptEnumName, yield.
  rewrite E0, E1.
  cbn [seqG fold_right sentenceCase bind andThen elements].
  repeat split.
  - match goal with
    | |- context [forLast ?l ?body] => assert (H : isOk (forLast l body) = true)
    end.
    { apply forLast_isOk. intros x isLast Hx. apply in_map_iff in Hx as (v & <- & _).
      reflexivity. }
    destruct (forLast _ _); [reflexivity | discriminate H].
  - match goal with
    | |- context [forLast ?l ?body] => assert (H : isOk (forLast l body) = true)
    end.
    { apply forLast_isOk. intros x isLast Hx. apply in_map_iff in Hx as (v & <- & _).
      reflexivity. }
    destruct (forLast _ _); [reflexivity | discriminate H].
  - match goal with
    | |- context [forLast ?l ?body] => assert (H : isOk (forLast l body) = true)
    end.
    { apply forLast_isOk. intros x isLast Hx. apply in_map_iff in Hx as (v & <- & _).
      reflexivity. }
    destruct (forLast _ _); [reflexivity | discriminate H].
Qed.

(** C3, as amended. The declaration an emitter writes for an object
    definition carries one identifier, the same in the three targets: the
    Pascal-cased [name] of the node when it has one, and otherwise the
    Pascal-cased entry on top of the context (the one below it under
    [items]); the identifier stands between the keyword of the target and
    what closes the head of the declaration. The declaration of an enum
    carries, in the three targets, the Pascal-cased second entry of the
    context followed by the Pascal-cased first; a name of the enum node is
    not read. No emitter writes a declaration for a node that has no such
    identifier; and the three emitters do write one for every described
    object with plain properties that has an identifier, and for every enum
    of strings that has one. *)
Theorem identifier_consistency (contracts context : list value) (node : value) :
  (forall text,
     rustObject contracts context node = Ok text ->
     exists n, objectIdentifier context node = Some n /\
               (declares "pub struct " n (" {" +:+ nl) text \/
                declares "pub type " n (" = serde_json::Value;" +:+ nl +:+ nl) text)) /\
  (forall text,
     pythonObject contracts context node = Ok text ->
     exists n, objectIdentifier context node = Some n /\
               (declares "class " n (":" +:+ nl) text \/
                text = n +:+ " = JsonData" +:+ nl)) /\
  (forall text,
     typescriptObject contracts context node = Ok text ->
     exists n, objectIdentifier context node = Some n /\
               declares "export interface " n (" {" +:+ nl) text) /\
  (forall n,
     objectIdentifier context node = Some n -> plainObject node = true ->
     isOk (rustObject contracts context node) = true /\
     isOk (pythonObject contracts context node) = true /\
     isOk (typescriptObject contracts context node) = true) /\
  (forall values text,
     rustEnum context values = Ok text ->
     exists n, enumIdentifier context = Some n /\
               declares "pub enum " n (" {" +:+ nl) text) /\
  (forall values text,
     pythonEnum context values = Ok text ->
     exists n, enumIdentifier context = Some n /\
               declares "class " n ("(str, enum.Enum):" +:+ nl) text) /\
  (forall values text,
     typescriptEnum context values = Ok text ->
     exists n, enumIdentifier context = Some n /\
               declares "export enum " n (" {" +:+ nl) text) /\
  (forall n values,
     enumIdentifier context = Some n ->
     isOk (rustEnum context (VArr (map VStr values))) = true /\
     isOk (pythonEnum context (VArr (map VStr values))) = true /\
     isOk (typescriptEnum context (VArr (map VStr values))) = true).
Proof.
  split; [|split; [|split; [|split; [|split; [|split; [|split]]]]]].
  - intros text H.
    destruct (rustObject_declares _ _ _ _ H) as (name & n & Hname & Hn & Hd).
    exists n. split; [exact (objectName_identifier _ _ _ _ Hname Hn) | exact Hd].
  - intros text H.
    destruct (pythonObject_declares _ _ _ _ H) as (name & n & Hname & Hn & Hd).
    exists n. split; [exact (objectName_identifier _ _ _ _ Hname Hn) | exact Hd].
  - intros text H.
    destruct (typescriptObject_declares _ _ _ _ H) as (name & n & Hname & Hn & Hd).
    exists n. split; [exact (objectName_identifier _ _ _ _ Hname Hn) | exact Hd].
  - intros n Hn Hp. split; [|split].
    + exact (rustObject_plain contracts context node n Hn Hp).
    + exact (pythonObject_plain contracts context node n Hn Hp).
    + exact (typescriptObject_plain contracts context node n Hn Hp).
  - intros values text H.
    destruct (rustEnum_declares _ _ _ H) as (n & Hn & Hd).
    exists n. split; [now apply enumIdentifier_name | exact Hd].
  - intros values text H.
    destruct (pythonEnum_declares _ _ _ H) as (n & Hn & Hd).
    exists n. split; [now apply enumIdentifier_name | exact Hd].
  - intros values text H.
    destruct (typescriptEnum_declares _ _ _ H) as (n & Hn & Hd).
    exists n. split; [now apply enumIdentifier_name | exact Hd].
  - intros n values Hn. exact (enum_strings context n values Hn).
Qed.

Lemma identifier_consistency_witness :
  isOk (rustObject [] [str "result"; str "methods"] statusNode) = true /\
  isOk (pythonObject [] [str "result"; str "methods"] statusNode) = true /\
  isOk (typescriptObject [] [str "result"; str "methods"] statusNode) = true.
Proof.
  apply (proj1 (proj2 (proj2 (proj2
           (identifier_consistency [] [str "result"; str "methods"] statusNode))))
           "Status"); reflexivity.
Defined.

(** C3 as stated fails for an enum that has a name of its own: the name is
    not read, and the three emitters name the enum after its context. *)
Lemma identifier_counterexample :
  enumVisitor [] namedModeBackend traceContext = Ok "mode,set_mode,methods;" /\
  enumIdentifier_spec [str "mode"; str "set_mode"; str "methods"] namedModeSchema =
  Some "Color" /\
  enumIdentifier [str "mode"; str "set_mode"; str "methods"] = Some "SetModeMode" /\
  enumVisitor [] namedModeBackend rustEnum = Ok rustModeEnum /\
  enumVisitor [] namedModeBackend pythonEnum = Ok pythonModeEnum /\
  enumVisitor [] namedModeBackend typescriptEnum = Ok typescriptModeEnum.
Proof. vm_compute. repeat split; reflexivity. Qed.

(** ** The enum of the scenario in what the emitters write *)

Lemma contains_refl (text : string) : contains text text.
Proof. exists EmptyString, EmptyString. now rewrite append_empty_r. Qed.

Lemma contains_trans (a b c : string) : contains a b -> contains b c -> contains a c.
Proof.
  intros (b1 & a1 & ->) (b2 & a2 & ->).
  exists (b2 +:+ b1), (a1 +:+ a2). now rewrite !append_assoc.
Qed.

Lemma contains_left (block x y : string) : contains block x -> contains block (x +:+ y).
Proof.
  intros (b & a & ->). exists b, (a +:+ y). now rewrite !append_assoc.
Qed.

Lemma contains_right (block x y : string) : contains block y -> contains block (x +:+ y).
Proof.
  intros (b & a & ->). exists (x +:+ b), a. now rewrite !append_assoc.
Qed.

Lemma forG_contains {A : Type} (l : list A) (body : A -> gen) (x : A) (text : string) :
  forG l body = Ok text -> In x l ->
  exists part, body x = Ok part /\ contains part text.
Proof.
  revert text. induction l as [|a l IH]; intros text H Hin; [destruct Hin|].
  rewrite forG_cons in H. apply andThen_ok in H as (y & z & Ha & Hl & ->).
  destruct Hin as [->|Hin].
  - exists y. split; [exact Ha | apply contains_left, contains_refl].
  - destruct (IH z Hl Hin) as (part & Hp & Hc).
    exists part. split; [exact Hp | now apply contains_right].
Qed.

Lemma seqG_contains (body : list gen) (g : gen) (text : string) :
  seqG body = Ok text -> In g body ->
  exists part, g = Ok part /\ contains part text.
Proof.
  revert text. induction body as [|a body IH]; intros text H Hin; [destruct Hin|].
  cbn [seqG fold_right] in H. apply andThen_ok in H as (y & z & Ha & Hl & ->).
  destruct Hin as [->|Hin].
  - exists y. split; [exact Ha | apply contains_left, contains_refl].
  - destruct (IH z Hl Hin) as (part & Hp & Hc).
    exists part. split; [exact Hp | now apply contains_right].
Qed.

Lemma enumVisitor_member (cb : callback) (context : list value)
  (members : list (string * value)) (key : string) (child : value) (text : string) :
  truthy (member "enum" members) = false ->
  In (key, child) members ->
  enumVisitor context (VObj members) cb = Ok text ->
  exists part,
    enumVisitor (enumChildContext (member "name" members) key context) child cb =
    Ok part /\
    contains part text.
Proof.
  intros He Hin H. rewrite enumVisitor_object in H by exact He.
  exact (forG_contains members _ (key, child) text H Hin).
Qed.

Lemma enumVisitor_item (cb : callback) (context : list value) (items : list value)
  (item : value) (text : string) :
  In item items ->
  enumVisitor context (VArr items) cb = Ok text ->
  exists part, enumVisitor context item cb = Ok part /\ contains part text.
Proof.
  intros Hin H. cbn [enumVisitor] in H.
  exact (forG_contains items _ item text H Hin).
Qed.

Lemma enumChildContext_named (name : string) (key : string) (context : list value) :
  nonEmpty name = true ->
  enumChildContext (VStr name) key context = VStr name :: context.
Proof. intros H. unfold enumChildContext. cbn [truthy]. now rewrite H. Qed.

Lemma enumVisitor_scenario (cb : callback) (block : string) (contract : value) :
  (forall rest,
     cb (VStr "mode" :: VStr "set_mode" :: rest) (VArr [VStr "a"; VStr "b"]) =
     Ok block) ->
  modeScenario contract ->
  forall context text,
    enumVisitor context contract cb = Ok text -> contains block text.
Proof.
  intros Hcb (cm & methods & mm & params & pm & sm & -> & Hce & Hmethods & Hmethod &
              Hme & Hmn & Hparams & Hparam & Hpe & Hpn & Hschema & Henum)
    context text H.
  destruct (enumVisitor_member cb _ _ _ _ _ Hce Hmethods H) as (t1 & H1 & C1).
  destruct (enumVisitor_item cb _ _ _ _ Hmethod H1) as (t2 & H2 & C2).
  destruct (enumVisitor_member cb _ _ _ _ _ Hme Hparams H2) as (t3 & H3 & C3).
  rewrite Hmn, enumChildContext_named in H3 by reflexivity.
  destruct (enumVisitor_item cb _ _ _ _ Hparam H3) as (t4 & H4 & C4).
  destruct (enumVisitor_member cb _ _ _ _ _ Hpe Hschema H4) as (t5 & H5 & C5).
  rewrite Hpn, enumChildContext_named in H5 by reflexivity.
  cbn [enumVisitor] in H5. rewrite Henum in H5. cbn [truthy] in H5.
  rewrite Hcb in H5. injection H5 as <-.
  eauto using contains_trans.
Qed.

Lemma scenario_truthy (contract : value) : modeScenario contract -> truthy contract = true.
Proof. intros (cm & ? & ? & ? & ? & ? & -> & _). reflexivity. Qed.

Lemma rustEnum_mode (rest : list value) :
  rustEnum (VStr "mode" :: VStr "set_mode" :: rest) (VArr [VStr "a"; VStr "b"]) =
  Ok rustModeEnum.
Proof. reflexivity. Qed.

Lemma pythonEnum_mode (rest : list value) :
  pythonEnum (VStr "mode" :: VStr "set_mode" :: rest) (VArr [VStr "a"; VStr "b"]) =
  Ok pythonModeEnum.
Proof. reflexivity. Qed.

Lemma typescriptEnum_mode (rest : list value) :
  typescriptEnum (VStr "mode" :: VStr "set_mode" :: rest) (VArr [VStr "a"; VStr "b"]) =
  Ok typescriptModeEnum.
Proof. reflexivity. Qed.

Section Scenario.

Variable year : string.

Lemma createRustComm_scenario (name : string) (frontend backend contract : value)
  (text : string) :
  In contract [backend; frontend] ->
  modeScenario contract ->
  createRustComm year name frontend backend = Ok text ->
  contains rustModeEnum text.
Proof.
  intros Hin Hs H. unfold createRustComm in H.
  destruct (seqG_contains _ _ _ H (or_intror (or_introl eq_refl))) as (t1 & H1 & C1).
  destruct (forG_contains _ _ contract _ H1 Hin) as (t2 & H2 & C2).
  rewrite (scenario_truthy _ Hs) in H2. cbn [when] in H2.
  destruct (seqG_contains _ _ _ H2 (or_intror (or_intror (or_introl eq_refl))))
    as (t3 & H3 & C3).
  pose proof (enumVisitor_scenario rustEnum rustModeEnum contract rustEnum_mode Hs
                [] t3 H3) as C4.
  eauto using contains_trans.
Qed.

Lemma createPythonComm_scenario (name : string) (frontend backend contract : value)
  (text : string) :
  In contract [backend; frontend] ->
  modeScenario contract ->
  createPythonComm year name frontend backend = Ok text ->
  contains pythonModeEnum text.
Proof.
  intros Hin Hs H. unfold createPythonComm in H.
  destruct (seqG_contains _ _ _ H (or_intror (or_introl eq_refl))) as (t1 & H1 & C1).
  destruct (forG_contains _ _ contract _ H1 Hin) as (t2 & H2 & C2).
  rewrite (scenario_truthy _ Hs) in H2. cbn [when] in H2.
  destruct (seqG_contains _ _ _ H2 (or_intror (or_introl eq_refl)))
    as (t3 & H3 & C3).
  pose proof (enumVisitor_scenario pythonEnum pythonModeEnum contract pythonEnum_mode Hs
                [] t3 H3) as C4.
  eauto using contains_trans.
Qed.

Lemma createTypescriptComm_scenario (metadata : result value) (name : string)
  (frontend backend contract : value) (text : string) :
  In contract [backend; frontend] ->
  modeScenario contract ->
  createTypescriptComm year metadata name frontend backend = Ok text ->
  contains typescriptModeEnum text.
Proof.
  intros Hin Hs H. unfold createTypescriptComm in H.
  apply bind_ok in H as (m & _ & H).
  destruct (seqG_contains _ _ _ H
              (or_intror (or_intror (or_intror (or_introl eq_refl)))))
    as (t1 & H1 & C1).
  destruct (forG_contains _ _ contract _ H1 Hin) as (t2 & H2 & C2).
  rewrite (scenario_truthy _ Hs) in H2. cbn [when] in H2.
  destruct (seqG_contains _ _ _ H2 (or_intror (or_introl eq_refl)))
    as (t3 & H3 & C3).
  pose proof (enumVisitor_scenario typescriptEnum typescriptModeEnum contract
                typescriptEnum_mode Hs [] t3 H3) as C4.
  eauto using contains_trans.
Qed.


End Scenario.

Lemma modeContract_scenario (typed described withResult : bool) :
  modeScenario (modeContract typed described withResult).
Proof.
  unfold modeContract.
  eexists _, _, _, _, _, _.
  split; [reflexivity|]. split; [reflexivity|].
  split; [left; reflexivity|]. split; [left; reflexivity|].
  split; [now destruct described, withResult|].
  split; [reflexivity|].
  split; [destruct described; cbn; auto|].
  split; [left; reflexivity|].
  split; [reflexivity|]. split; [reflexivity|].
  split; [do 2 right; left; reflexivity|].
  now destruct typed.
Qed.



(** ** The exceptions of the emitters *)

Section Throws.

Variable P : exn -> Prop.

Lemma throwsOnly_ok {A : Type} (a : A) : throwsOnly P (Ok a).
Proof. intros e H. discriminate H. Qed.

Lemma throwsOnly_throw {A : Type} (e : exn) : P e -> throwsOnly P (@Throw A e).
Proof. intros H e' [= <-]. exact H. Qed.

Lemma throwsOnly_bind {A B : Type} (r : result A) (k : A -> result B) :
  throwsOnly P r -> (forall a, r = Ok a -> throwsOnly P (k a)) ->
  throwsOnly P (bind r k).
Proof.
  intros Hr Hk e H. destruct r as [a|e']; cbn [bind] in H.
  - exact (Hk a eq_refl e H).
  - injection H as <-. now apply Hr.
Qed.

Lemma throwsOnly_andThen (a b : gen) :
  throwsOnly P a -> throwsOnly P b -> throwsOnly P (andThen a b).
Proof.
  intros Ha Hb e H. apply andThen_throw in H as [H|H]; [now apply Ha | now apply Hb].
Qed.

Lemma throwsOnly_when (c : bool) (g : gen) :
  throwsOnly P g -> throwsOnly P (when c g).
Proof. intros H. destruct c; [exact H | apply throwsOnly_ok]. Qed.

Lemma throwsOnly_forG {A : Type} (l : list A) (body : A -> gen) :
  (forall x, In x l -> throwsOnly P (body x)) -> throwsOnly P (forG l body).
Proof.
  intros H e He. apply forG_throw in He as (x & Hx & Hb). exact (H x Hx e Hb).
Qed.

Lemma throwsOnly_forLast {A : Type} (l : list A) (body : A -> bool -> gen) :
  (forall x isLast, In x l -> throwsOnly P (body x isLast)) ->
  throwsOnly P (forLast l body).
Proof.
  induction l as [|a l IH]; intros H; [apply throwsOnly_ok|].
  rewrite forLast_cons. apply throwsOnly_andThen.
  - apply H. now left.
  - apply IH. intros x isLast Hx. apply H. now right.
Qed.

Hypothesis typeError : P TypeError.

Lemma throwsOnly_prop (v : value) (name : string) : throwsOnly P (prop v name).
Proof. destruct v; intros e H; try discriminate H; now injection H as <-. Qed.

Lemma throwsOnly_ownMembers (v : value) : throwsOnly P (ownMembers v).
Proof. destruct v; intros e H; try discriminate H; now injection H as <-. Qed.

Lemma throwsOnly_iterate (v : value) : throwsOnly P (iterate v).
Proof. destruct v; intros e H; try discriminate H; now injection H as <-. Qed.

Lemma throwsOnly_elements (v : value) : throwsOnly P (elements v).
Proof.
  destruct v as [| | | | | |members]; intros e H; try discriminate H;
    try (now injection H as <-).
  cbn [elements] in H. destruct (assoc "length" members) as [[| | | | | |]|];
    discriminate H.
Qed.

Lemma throwsOnly_includes (v : value) (key : string) : throwsOnly P (includes v key).
Proof. destruct v; intros e H; try discriminate H; now injection H as <-. Qed.

Lemma throwsOnly_sentenceCase (v : value) : throwsOnly P (sentenceCase v).
Proof. destruct v; intros e H; try discriminate H; now injection H as <-. Qed.

Lemma throwsOnly_camelCase (v : value) : throwsOnly P (camelCase v).
Proof. destruct v; intros e H; try discriminate H; now injection H as <-. Qed.

Lemma throwsOnly_formatCommentV (leader : string) (v : value) :
  throwsOnly P (formatCommentV leader v).
Proof. destruct v; intros e H; try discriminate H; now injection H as <-. Qed.

Lemma throwsOnly_typescriptEvents (methods : list value) :
  throwsOnly P (typescriptEvents methods).
Proof.
  induction methods as [|method rest IH]; cbn [typescriptEvents]; [apply throwsOnly_ok|].
  unfold isEvent.
  apply throwsOnly_bind; [apply throwsOnly_bind; [apply throwsOnly_prop|]|].
  - intros result _. apply throwsOnly_ok.
  - intros [|] _; [|exact IH].
    apply throwsOnly_bind; [apply throwsOnly_prop|]. intros methodName _.
    apply throwsOnly_bind; [apply throwsOnly_sentenceCase|]. intros sentenceName _.
    apply throwsOnly_bind; [exact IH|]. intros events _. apply throwsOnly_ok.
Qed.

Lemma throwsOnly_enumVisitor (cb : callback) (context : list value) (v : value) :
  (forall context' x, throwsOnly P (cb context' x)) ->
  throwsOnly P (enumVisitor context v cb).
Proof.
  intros Hcb e H. apply enumVisitor_throw in H as [->|(context' & x & H)];
    [exact typeError | exact (Hcb context' x e H)].
Qed.

Lemma throwsOnly_objectVisitor (cb : callback) (context : list value) (v : value) :
  (forall context' x, throwsOnly P (cb context' x)) ->
  throwsOnly P (objectVisitor context v cb).
Proof.
  intros Hcb e H. apply objectVisitor_throw in H as [->|(context' & x & H)];
    [exact typeError | exact (Hcb context' x e H)].
Qed.

Hypothesis plain : forall e, undescriptive e -> P e.

Lemma throwsOnly_walk (parts : list string) :
  forall target, throwsOnly P (walk parts target).
Proof.
  induction parts as [|part parts IH]; intros target e H; cbn [walk] in H;
    [discriminate H|].
  destruct (String.eqb part "#"); [exact (IH target e H)|].
  revert H. apply throwsOnly_bind; [apply throwsOnly_ownMembers|].
  intros members _. destruct (assoc part members) as [next|];
    [apply IH | apply throwsOnly_ok].
Qed.

Lemma throwsOnly_parseRefFromContract (ref contract : value) :
  throwsOnly P (parseRefFromContract ref contract).
Proof.
  unfold parseRefFromContract.
  destruct ref; try (apply throwsOnly_throw; exact typeError).
  apply throwsOnly_bind; [apply throwsOnly_walk|].
  intros [|] _; apply throwsOnly_ok.
Qed.

Lemma throwsOnly_parseRef (ref : value) (contracts : list value) :
  throwsOnly P (parseRef ref contracts).
Proof.
  induction contracts as [|contract rest IH]; cbn [parseRef].
  - apply throwsOnly_throw, plain. right. left. now eexists.
  - destruct (negb (truthy contract)); [exact IH|].
    apply throwsOnly_bind; [apply throwsOnly_parseRefFromContract|].
    intros [name|] _; [|exact IH].
    destruct (nonEmpty name); [apply throwsOnly_ok | exact IH].
Qed.

Lemma throwsOnly_deriveType (contracts : list value) (typeMap : list (string * string))
  (key schema : value) :
  throwsOnly P (deriveType contracts typeMap key schema).
Proof.
  induction schema as [| | b | n | s | items IH | members IH] using value_nested_ind;
    intros e H; cbn [deriveType] in H;
    try (injection H as <-; first [ exact typeError
                                  | apply plain; right; right; now eexists ]).
  destruct (isStr (member "type" members) "array").
  - rewrite withMember_member in H.
    destruct (assoc "items" members) as [items|] eqn:Ei.
    + destruct (deriveType contracts typeMap key items) as [inner|e'] eqn:Ed;
        cbn [bind] in H; [discriminate H|]. injection H as <-.
      exact (Forall_assoc (fun x => throwsOnly P (deriveType contracts typeMap key x))
               _ _ _ IH Ei e' Ed).
    + cbn [bind] in H. injection H as <-. exact typeError.
  - destruct (truthy (member "$ref" members)); [exact (throwsOnly_parseRef _ _ e H)|].
    destruct (isStr (member "type" members) "object").
    + destruct (truthy (member "name" members));
        exact (throwsOnly_sentenceCase _ e H).
    + destruct (member "type" members) as [| | | |kind| |];
        try (injection H as <-; apply plain; right; right; now eexists).
      destruct (assoc kind typeMap); [discriminate H|].
      injection H as <-. apply plain. right. right. now eexists.
Qed.

End Throws.

Ltac throws_step HT HU :=
  lazymatch goal with
  | |- throwsOnly _ (Ok _) => apply throwsOnly_ok
  | |- throwsOnly _ (Throw TypeError) => apply throwsOnly_throw; exact HT
  | |- throwsOnly _ (bind _ _) => apply throwsOnly_bind; [|intros ? ?; cbv beta]
  | |- throwsOnly _ (andThen _ _) => apply throwsOnly_andThen
  | |- throwsOnly _ (seqG _) => cbn [seqG fold_right]
  | |- throwsOnly _ (when _ _) => apply throwsOnly_when
  | |- throwsOnly _ (forG _ _) => apply throwsOnly_forG; intros ? ?; cbv beta
  | |- throwsOnly _ (forLast _ _) => apply throwsOnly_forLast; intros ? ? ?; cbv beta
  | |- throwsOnly _ (prop _ _) => apply throwsOnly_prop; exact HT
  | |- throwsOnly _ (ownMembers _) => apply throwsOnly_ownMembers; exact HT
  | |- throwsOnly _ (iterate _) => apply throwsOnly_iterate; exact HT
  | |- throwsOnly _ (elements _) => apply throwsOnly_elements; exact HT
  | |- throwsOnly _ (includes _ _) => apply throwsOnly_includes; exact HT
  | |- throwsOnly _ (sentenceCase _) => apply throwsOnly_sentenceCase; exact HT
  | |- throwsOnly _ (camelCase _) => apply throwsOnly_camelCase; exact HT
  | |- throwsOnly _ (formatCommentV _ _) => apply throwsOnly_formatCommentV; exact HT
  | |- throwsOnly _ (typescriptEvents _) => apply throwsOnly_typescriptEvents; exact HT
  | |- throwsOnly _ (deriveType _ _ _ _) =>
      apply throwsOnly_deriveType; [exact HT | exact HU]
  | |- throwsOnly _ (enumVisitor _ _ _) =>
      apply throwsOnly_enumVisitor; [exact HT | intros ? ?]
  | |- throwsOnly _ (objectVisitor _ _ _) =>
      apply throwsOnly_objectVisitor; [exact HT | intros ? ?]
  | |- throwsOnly _ (if ?c then _ else _) => destruct c eqn:?
  | |- throwsOnly _ (match ?x with _ => _ end) => destruct x eqn:?
  end.

Ltac throws_only HT HU := repeat throws_step HT HU.

Section RustThrows.

Variable year : string.
Variable P : exn -> Prop.
Hypothesis typeError : P TypeError.
Hypothesis plain : forall e, undescriptive e -> P e.

Lemma throwsOnly_createRustComm (name : string) (frontend backend : value) :
  throwsOnly P (createRustComm year name frontend backend).
Proof.
  unfold createRustComm, rustAliases, rustObject, rustEnum, rustParams, rustRequest,
    rustVariant, rustReply, rustObjectName, rustEnumName, inContext, isOptional,
    hasElements, yield.
  throws_only typeError plain.
Qed.

End RustThrows.

Section PythonThrows.

Variable year : string.

Lemma throwsOnly_createPythonComm (name : string) (frontend backend : value) :
  throwsOnly (pythonExceptions backend) (createPythonComm year name frontend backend).
Proof.
  assert (typeError : pythonExceptions backend TypeError) by (left; left; reflexivity).
  assert (plain : forall e, undescriptive e -> pythonExceptions backend e)
    by (intros e He; left; exact He).
  unfold createPythonComm, pythonObject, pythonEnum, pythonRequestMember, pythonRequest,
    pythonEventMember, pythonEventParams, pythonParam, pythonObjectName, pythonEnumName,
    inContext, isOptional, hasElements, yield.
  throws_only typeError plain.
  apply throwsOnly_throw. right.
  match goal with
  | Hm : prop backend "methods" = Ok ?listed, Hi : iterate ?listed = Ok ?methods,
    Hin : In ?method ?methods, Hd : prop ?method "description" = Ok ?description,
    Hn : prop ?method "name" = Ok ?methodName,
    Ht : negb (truthy ?description) = true |- _ =>
      exists methods, method, description, methodName;
      rewrite Hm; cbn [bind];
      repeat split; try assumption; now apply negb_true_iff
  end.
Qed.

End PythonThrows.

Section TypescriptThrows.

Variable year : string.

Lemma nonEmpty_in (field owner : string) :
  nonEmpty (field +:+ " in " +:+ owner) = true.
Proof. destruct field; reflexivity. Qed.

Lemma throwsOnly_createTypescriptComm (metadata : result value) (name : string)
  (frontend backend : value) :
  throwsOnly (typescriptExceptions metadata)
    (createTypescriptComm year metadata name frontend backend).
Proof.
  assert (typeError : typescriptExceptions metadata TypeError)
    by (left; left; reflexivity).
  assert (plain : forall e, undescriptive e -> typescriptExceptions metadata e)
    by (intros e He; left; exact He).
  unfold createTypescriptComm, typescriptObject, typescriptEnum, typescriptAliases,
    typescriptEventInterface, typescriptEmitter, typescriptMethod,
    typescriptEventMember, typescriptParamType, createTypescriptInterface,
    typescriptProperty, quotedNames, typescriptObjectName, typescriptEnumName,
    inContext, isEvent, hasElements, yield.
  throws_only typeError plain.
  - intros e He. right. left. exact He.
  - exfalso.
    match goal with
    | Hd : (if truthy ?d then Ok ?d else _) = Ok ?a,
      Hb : negb (truthy ?a) = true |- _ =>
        apply negb_true_iff in Hb; destruct (truthy d) eqn:Ed;
        [ injection Hd as <-; congruence
        | apply bind_ok in Hd as (text & Ht & Hd); injection Hd as <-;
          apply bind_ok in Ht as (field & _ & Ht);
          apply bind_ok in Ht as (owner & _ & Ht); injection Ht as <-;
          cbn [truthy] in Hb; rewrite nonEmpty_in in Hb; discriminate Hb ]
    end.
  - apply throwsOnly_throw. do 3 right. left. eexists. reflexivity.
  - apply throwsOnly_throw. do 2 right. left. eexists _, _. reflexivity.
  - apply throwsOnly_throw. do 4 right. eexists _, _. reflexivity.
Qed.

End TypescriptThrows.

Section Aliases.

Variable year : string.

Lemma rustAliases_fails (contracts : list value) (backend : value) :
  hasUndescribedAlias backend ->
  fails (rustAliases contracts backend backend).
Proof.
  intros (components & schemas & entries & key & schema & type &
          Hc & Htc & Hs & Hts & He & Hin & Ht & Hno & Hd).
  unfold rustAliases. rewrite Hc. cbn [bind]. rewrite Htc, Hs. cbn [bind].
  rewrite Hts. cbn [when]. rewrite He. cbn [bind].
  apply (forG_fails entries _ (key, schema) Hin).
  rewrite Ht. cbn [bind]. rewrite Hno. cbn [negb when].
  eapply seqG_fails; [left; reflexivity|].
  rewrite Hd. eexists. reflexivity.
Qed.

Lemma typescriptAliases_fails (contracts : list value) (backend : value) :
  hasUndescribedAlias backend ->
  fails (typescriptAliases contracts backend backend).
Proof.
  intros (components & schemas & entries & key & schema & type &
          Hc & Htc & Hs & Hts & He & Hin & Ht & Hno & Hd).
  unfold typescriptAliases. rewrite Hc. cbn [bind]. rewrite Htc, Hs. cbn [bind].
  rewrite Hts. cbn [when]. rewrite He. cbn [bind].
  apply (forG_fails entries _ (key, schema) Hin).
  rewrite Ht. cbn [bind]. rewrite Hno. cbn [negb when].
  eapply seqG_fails; [right; left; reflexivity|].
  rewrite Hd. eexists. reflexivity.
Qed.

Lemma createRustComm_alias (name : string) (frontend backend : value) :
  truthy backend = true ->
  hasUndescribedAlias backend ->
  fails (createRustComm year name frontend backend).
Proof.
  intros Ht Ha. unfold createRustComm.
  assert (Hin : In backend [backend; frontend]) by (left; reflexivity).
  eapply seqG_fails; [right; left; reflexivity|].
  apply (forG_fails _ _ backend Hin). rewrite Ht. cbn [when].
  eapply seqG_fails; [left; reflexivity|].
  now apply rustAliases_fails.
Qed.

Lemma createTypescriptComm_alias (metadata : result value) (name : string)
  (frontend backend : value) :
  truthy backend = true ->
  hasUndescribedAlias backend ->
  fails (createTypescriptComm year metadata name frontend backend).
Proof.
  intros Ht Ha. unfold createTypescriptComm.
  destruct metadata as [m|e]; [|now exists e]. cbn [bind].
  assert (Hin : In backend [backend; frontend]) by (left; reflexivity).
  eapply seqG_fails; [do 4 right; left; reflexivity|].
  apply (forG_fails _ _ backend Hin). rewrite Ht. cbn [when].
  now apply typescriptAliases_fails.
Qed.

End Aliases.

Section Descriptions.

Variable year : string.
Variable black : string -> option string.


End Descriptions.


